(** * stylised_images: the letterbox normaliser and the sweep driver

    A shallow embedding of the two functions of [stylised_images.ipynb],
    [resize_and_pad] and [generate_images], and the properties of the
    repository's specification checked against them.

    - Python integers are [Z]; [//] is floor division ([Z.div]).
    - Python floats are IEEE 754 binary64 values, taken from the Standard
      Library's executable specification [SpecFloat] (precision 53,
      [emax] 1024, round to nearest, ties to even).
    - Image objects live in a store; a reference is an index in it.  The
      Pillow calls the notebook makes ([Image.resize], [Image.new],
      [Image.paste]) and [diffusers.utils.make_image_grid] allocate in or
      update that store; the resampling filter and the diffusion pipeline
      are parameters.
    - Python exceptions are the [Raise] results of a state-and-error monad. *)

From Stdlib Require Import ZArith Bool Lia Lra Psatz Reals String.
From Stdlib Require Import Floats.SpecFloat.
From stdpp Require Import base list.

Open Scope Z_scope.

(** ** Exceptions and results *)

Inductive exn : Type :=
  | ZeroDivisionError
  | OverflowError
  | ValueError
  | MemoryError
  | IndexError
  | AssertionError
  | ExternalError (name : string).

Inductive result (A : Type) : Type :=
  | Ok (a : A)
  | Raise (e : exn).
Arguments Ok {A} a.
Arguments Raise {A} e.

Definition is_ok {A} (r : result A) : bool :=
  match r with Ok _ => true | Raise _ => false end.

Definition rbind {A B} (r : result A) (k : A -> result B) : result B :=
  match r with
  | Ok a => k a
  | Raise e => Raise e
  end.

(** ** Python floats *)

Module PyFloat.

Definition prec : Z := 53.
Definition emax : Z := 1024.

Definition float := spec_float.

(** The float [1.0]. *)
Definition one : float := S754_finite false 4503599627370496 (-52).

(** [float(z)], as the mixed operators [int / float] and [int * float]
    convert their integer operand: correctly rounded, [OverflowError]
    beyond the largest float. *)
Definition of_int (z : Z) : result float :=
  match binary_normalize prec emax z 0 false with
  | S754_infinity _ => Raise OverflowError
  | f => Ok f
  end.

(** [a / b] on two integers: the correctly rounded quotient. *)
Definition int_truediv (a b : Z) : result float :=
  if b =? 0 then Raise ZeroDivisionError
  else if a =? 0 then Ok (S754_zero (b <? 0))
  else
    match SFdiv prec emax
            (S754_finite (a <? 0) (Z.to_pos (Z.abs a)) 0)
            (S754_finite (b <? 0) (Z.to_pos (Z.abs b)) 0) with
    | S754_infinity _ => Raise OverflowError
    | f => Ok f
    end.

Definition is_zero (x : float) : bool :=
  match x with S754_zero _ => true | _ => false end.

(** [z / x] with an integer on the left. *)
Definition int_div_float (z : Z) (x : float) : result float :=
  rbind (of_int z) (fun fz =>
    if is_zero x then Raise ZeroDivisionError
    else Ok (SFdiv prec emax fz x)).

(** [z * x] with an integer on the left. *)
Definition int_mul_float (z : Z) (x : float) : result float :=
  rbind (of_int z) (fun fz => Ok (SFmul prec emax fz x)).

(** [x > 1]. *)
Definition gt_one (x : float) : bool := SFltb one x.

(** [int(x)]: truncation toward zero. *)
Definition to_int (x : float) : result Z :=
  match x with
  | S754_nan => Raise ValueError
  | S754_infinity _ => Raise OverflowError
  | S754_zero _ => Ok 0
  | S754_finite s m e =>
      let a := if 0 <=? e then Z.pos m * 2 ^ e else Z.pos m / 2 ^ (- e) in
      Ok (if s then - a else a)
  end.

(** [round(x)]: to the nearest integer, ties to the even one. *)
Definition round_to_int (x : float) : result Z :=
  match x with
  | S754_nan => Raise ValueError
  | S754_infinity _ => Raise OverflowError
  | S754_zero _ => Ok 0
  | S754_finite s m e =>
      let a :=
        if 0 <=? e then Z.pos m * 2 ^ e
        else
          let d := 2 ^ (- e) in
          let q := Z.pos m / d in
          let r := Z.pos m mod d in
          if 2 * r <? d then q
          else if d <? 2 * r then q + 1
          else if Z.even q then q else q + 1 in
      Ok (if s then - a else a)
  end.

End PyFloat.

(** ** Images and the store *)

Definition pixel : Type := (Z * Z * Z)%type.
Definition black : pixel := (0, 0, 0).

(** An RGB raster: its size and the colour at each coordinate.  Only the
    coordinates inside the raster carry meaning. *)
Record Image : Type := mkImage {
  width : Z;
  height : Z;
  getpixel : Z -> Z -> pixel
}.

(** Pillow keeps the sides of an image as C ints. *)
Definition pil_image (im : Image) : Prop :=
  0 <= width im < 2 ^ 31 /\ 0 <= height im < 2 ^ 31.

Definition in_box (x0 y0 w h x y : Z) : bool :=
  (x0 <=? x) && (x <? x0 + w) && (y0 <=? y) && (y <? y0 + h).

Definition inside (im : Image) (x y : Z) : bool :=
  in_box 0 0 (width im) (height im) x y.

(** Two images show the same picture. *)
Definition same_pixels (a b : Image) : Prop :=
  width a = width b /\ height a = height b /\
  forall x y, inside a x y = true -> getpixel a x y = getpixel b x y.

(** A reference to an image object: its index in the store. *)
Abbreviation ref := nat.

Inductive pynum : Type :=
  | PyInt (z : Z)
  | PyFloatLit (x : PyFloat.float).

(** The arguments of one call of the diffusion pipeline. *)
Record PipelineCall : Type := mkCall {
  call_prompt : string;
  call_image : ref;
  num_inference_steps : Z;
  num_images_per_prompt : Z;
  call_strength : pynum;
  guidance_scale : pynum;
  negative_prompt : string
}.

(** The image objects, the calls the pipeline has received and the grids
    handed to [display]. *)
Record state : Type := mkState {
  heap : list Image;
  pipeline_calls : list PipelineCall;
  displayed : list ref
}.

Definition with_heap (s : state) (h : list Image) : state :=
  mkState h (pipeline_calls s) (displayed s).

Definition M (A : Type) : Type := state -> result A * state.

Definition ret {A} (a : A) : M A := fun s => (Ok a, s).
Definition raise {A} (e : exn) : M A := fun s => (Raise e, s).
Definition bind {A B} (m : M A) (k : A -> M B) : M B :=
  fun s =>
    match m s with
    | (Ok a, s') => k a s'
    | (Raise e, s') => (Raise e, s')
    end.
Definition lift {A} (r : result A) : M A := fun s => (r, s).

Declare Scope py_scope.
Delimit Scope py_scope with py.
Notation "x <- m ;; k" := (bind m (fun x => k))
  (at level 100, m at next level, right associativity) : py_scope.
Notation "m ;;; k" := (bind m (fun _ => k))
  (at level 100, right associativity) : py_scope.
Open Scope py_scope.

Definition alloc (im : Image) : M ref :=
  fun s => (Ok (length (heap s)), with_heap s (heap s ++ [im])).

Definition deref (r : ref) : M Image :=
  fun s =>
    match heap s !! r with
    | Some im => (Ok im, s)
    | None => (Raise (ExternalError "dangling reference"), s)
    end.

Definition store (r : ref) (im : Image) : M unit :=
  fun s => (Ok tt, with_heap s (<[r := im]> (heap s))).

(** [src] pasted over [dst] at [(x0, y0)], clipped to [dst]. *)
Definition pasted (dst src : Image) (x0 y0 : Z) : Image :=
  mkImage (width dst) (height dst)
    (fun x y => if in_box x0 y0 (width src) (height src) x y
                then getpixel src (x - x0) (y - y0)
                else getpixel dst x y).

(** ** The notebook's functions, over Pillow and the pipeline *)

(** Pillow's C code takes the sides of a requested size as C ints. *)
Definition c_int (z : Z) : bool := (-2147483648 <=? z) && (z <=? 2147483647).

(** The widest line Pillow's storage holds, [INT_MAX / 4 - 1] pixels. *)
Definition MAX_XSIZE : Z := 536870910.

(** A resampling filter: the colours of the source rescaled to [w] by [h],
    or [None] when Pillow cannot build the picture (no memory for it, or
    for the filter's coefficients) and raises [MemoryError]. *)
Definition resampler : Type := Image -> Z -> Z -> option (Z -> Z -> pixel).

Section Notebook.

(** [Image.LANCZOS]. *)
Variable lanczos : resampler.

(** The diffusion pipeline: from the call and the store it reads, the
    images it generates or the exception it raises. *)
Variable pipeline_model : PipelineCall -> list Image -> result (list Image).

(** *** Pillow *)

(** [im.resize((w, h), Image.LANCZOS)]: a copy when the size is the
    image's own; else [OverflowError] when a side is no C int,
    [ValueError] when a side is below one, [MemoryError] when the line is
    too wide or the filter cannot build the picture, and otherwise the
    resampled image; the result is a new object in every case. *)
Definition Image_resize (im : ref) (size : Z * Z) : M ref :=
  src <- deref im ;;
  let '(w, h) := size in
  if (width src =? w) && (height src =? h) then
    alloc (mkImage (width src) (height src) (getpixel src))
  else if negb (c_int w && c_int h) then raise OverflowError
  else if (w <? 1) || (h <? 1) then raise ValueError
  else if MAX_XSIZE <? w then raise MemoryError
  else
    match lanczos src w h with
    | Some px => alloc (mkImage w h px)
    | None => raise MemoryError
    end.

(** [Image.new('RGB', (w, h), color)], for a size Pillow can allocate: its
    refusal of a side beyond a C int, of a line beyond [MAX_XSIZE] or of
    a canvas beyond the memory is not modelled. *)
Definition Image_new (size : Z * Z) (color : pixel) : M ref :=
  let '(w, h) := size in
  if (w <? 0) || (h <? 0) then raise ValueError
  else alloc (mkImage w h (fun _ _ => color)).

(** [dst.paste(src, (x, y))]: the source is copied over the destination
    in place. *)
Definition Image_paste (dst : ref) (src : ref) (box : Z * Z) : M unit :=
  d <- deref dst ;;
  s <- deref src ;;
  let '(x0, y0) := box in
  store dst (pasted d s x0 y0).

(** *** [resize_and_pad] *)

(** Lines 134-140: the size the picture is scaled to. *)
Definition scaled_size (image_width image_height target_size : Z)
  : result (Z * Z) :=
  rbind (PyFloat.int_truediv image_width image_height) (fun aspect_ratio =>
    if PyFloat.gt_one aspect_ratio then
      let new_width := target_size in
      rbind (rbind (PyFloat.int_div_float target_size aspect_ratio)
                   PyFloat.to_int) (fun new_height =>
        Ok (new_width, new_height))
    else
      let new_height := target_size in
      rbind (rbind (PyFloat.int_mul_float target_size aspect_ratio)
                   PyFloat.to_int) (fun new_width =>
        Ok (new_width, new_height))).

Definition paste_offset (target_size new_side : Z) : Z :=
  (target_size - new_side) / 2.

Definition resize_and_pad (image : ref) (target_size : Z) : M ref :=
  img <- deref image ;;
  new_size <- lift (scaled_size (width img) (height img) target_size) ;;
  let '(new_width, new_height) := new_size in
  resized_image <- Image_resize image (new_width, new_height) ;;
  new_image <- Image_new (target_size, target_size) black ;;
  let paste_x := paste_offset target_size new_width in
  let paste_y := paste_offset target_size new_height in
  Image_paste new_image resized_image (paste_x, paste_y) ;;;
  ret new_image.

(** *** [generate_images] *)

Definition NEGATIVE_PROMPT : string :=
  "clear background, realistic photo, photography, ugly, fused, worst face, extra face, poorly drawn, duplicate, bad eyes, bad proportions".

(** [pipeline(...).images]: the call is recorded, and the images the
    pipeline generates become new objects of the store. *)
Definition pipeline (c : PipelineCall) : M (list ref) :=
  fun s =>
    let calls := pipeline_calls s ++ [c] in
    match pipeline_model c (heap s) with
    | Raise e => (Raise e, mkState (heap s) calls (displayed s))
    | Ok imgs =>
        (Ok (seq (length (heap s)) (length imgs)),
         mkState (heap s ++ imgs) calls (displayed s))
    end.

(** [images[i]] for [i >= 0]. *)
Definition list_index {A} (l : list A) (i : nat) : M A :=
  match l !! i with
  | Some a => ret a
  | None => raise IndexError
  end.

(** [range(n)]. *)
Definition range (n : Z) : list nat := seq 0 (Z.to_nat n).

(** The loop of lines 217-218 over the given indices. *)
Fixpoint resize_loop (indices : list nat) (images : list ref) (size : Z)
    (images_resized : list ref) : M (list ref) :=
  match indices with
  | [] => ret images_resized
  | i :: rest =>
      im <- list_index images i ;;
      padded <- resize_and_pad im size ;;
      resize_loop rest images size (images_resized ++ [padded])
  end.

(** The loop of [make_image_grid]: [grid.paste(img, box=(i % cols * w,
    i // cols * h))] for each [(i, img)] of [enumerate(images)]. *)
Fixpoint paste_loop (grid : ref) (items : list (nat * ref)) (cols w h : Z)
    : M unit :=
  match items with
  | [] => ret tt
  | (i, img) :: rest =>
      Image_paste grid img
        (Z.of_nat i mod cols * w, Z.of_nat i / cols * h) ;;;
      paste_loop grid rest cols w h
  end.

(** [diffusers.utils.make_image_grid(images, rows, cols)]. *)
Definition make_image_grid (images : list ref) (rows cols : Z) : M ref :=
  if negb (Z.of_nat (length images) =? rows * cols) then raise AssertionError
  else
    first <- list_index images 0 ;;
    im0 <- deref first ;;
    let w := width im0 in
    let h := height im0 in
    grid <- Image_new (cols * w, rows * h) black ;;
    paste_loop grid (zip (seq 0 (length images)) images) cols w h ;;;
    ret grid.

(** [display(grid)]. *)
Definition display (grid : ref) : M unit :=
  fun s => (Ok tt, mkState (heap s) (pipeline_calls s) (displayed s ++ [grid])).

Definition generate_images (prompt : string) (image : ref) (steps n : Z)
    (strength guidance : pynum) (size : Z) (show : bool) : M (list ref) :=
  let images_resized := [] in
  images <- pipeline (mkCall prompt image steps n strength guidance
                        NEGATIVE_PROMPT) ;;
  images_resized <- resize_loop (range n) images size images_resized ;;
  (if show then
     grid <- make_image_grid images_resized 1 n ;;
     display grid
   else ret tt) ;;;
  ret images.

(** *** The values [resize_and_pad] builds *)

(** What [Image.resize] produces, as a value. *)
Definition resized_image (img : Image) (w h : Z) : result Image :=
  if (width img =? w) && (height img =? h) then
    Ok (mkImage (width img) (height img) (getpixel img))
  else if negb (c_int w && c_int h) then Raise OverflowError
  else if (w <? 1) || (h <? 1) then Raise ValueError
  else if MAX_XSIZE <? w then Raise MemoryError
  else
    match lanczos img w h with
    | Some px => Ok (mkImage w h px)
    | None => Raise MemoryError
    end.

(** The black canvas with the resized picture pasted at its offsets. *)
Definition letterbox (T : Z) (rz : Image) : Image :=
  pasted (mkImage T T (fun _ _ => black)) rz
         (paste_offset T (width rz)) (paste_offset T (height rz)).

(** The resized copy and the canvas of one image, or the exception. *)
Definition normalized (img : Image) (T : Z) : result (Image * Image) :=
  match scaled_size (width img) (height img) T with
  | Raise e => Raise e
  | Ok (new_width, new_height) =>
      match resized_image img new_width new_height with
      | Raise e => Raise e
      | Ok rz => if T <? 0 then Raise ValueError else Ok (rz, letterbox T rz)
      end
  end.

End Notebook.

(** ** The style sweep, lines 244-270 *)

(** The keyword arguments a dictionary such as [kwargs2] passes to
    [generate_images]. *)
Record Kwargs : Type := mkKwargs {
  kw_steps : Z;
  kw_n : Z;
  kw_strength : pynum;
  kw_guidance : pynum;
  kw_size : Z
}.

Definition prompts : list string :=
  [ "studio ghibli, anime, adorable"%string;
    "pokemon, pokemon style, anime, colorful"%string;
    "manga, hand-drawn, Takeuchi Naoko style, cute"%string;
    "cartoon, disney, modern disney, bambi style, frozen movie, princess, Keane Glen, adorable, cute"%string;
    "anime, chibi, cute, adorable, fun, joy, Himouto! Umaru-chan, Lucky Stary"%string ].

(** The float [0.55]. *)
Definition float_0_55 : PyFloat.float := S754_finite false 4953959590107546 (-53).

Definition kwargs2 : Kwargs := mkKwargs 40 2 (PyFloatLit float_0_55) (PyInt 19) 1024.

Definition STYLE_SUFFIX : string := ", animation, woman smiling with dog".

(** The pipeline call one prompt of the sweep leads to. *)
Definition style_call (image : ref) (kwargs : Kwargs) (prompt : string)
  : PipelineCall :=
  mkCall (String.append prompt STYLE_SUFFIX) image (kw_steps kwargs) (kw_n kwargs)
         (kw_strength kwargs) (kw_guidance kwargs) NEGATIVE_PROMPT.

Section Sweep.

Variable lanczos : resampler.
Variable pipeline_model : PipelineCall -> list Image -> result (list Image).

(** The loop of lines 269-270 over the given indices:
    [generate_images(prompts[i] + ', animation, woman smiling with dog',
    image, **kwargs)]. *)
Fixpoint style_loop (indices : list nat) (prompts : list string) (image : ref)
    (kwargs : Kwargs) : M unit :=
  match indices with
  | [] => ret tt
  | i :: rest =>
      prompt <- list_index prompts i ;;
      generate_images lanczos pipeline_model
        (String.append prompt STYLE_SUFFIX) image
        (kw_steps kwargs) (kw_n kwargs) (kw_strength kwargs)
        (kw_guidance kwargs) (kw_size kwargs) true ;;;
      style_loop rest prompts image kwargs
  end.

(** [for i in range(len(prompts)): ...]. *)
Definition style_sweep (prompts : list string) (image : ref) (kwargs : Kwargs)
  : M unit :=
  style_loop (range (Z.of_nat (length prompts))) prompts image kwargs.

(** The cell as the notebook runs it. *)
Definition display_styles (image : ref) : M unit :=
  style_sweep prompts image kwargs2.

(** The pipeline answers the call with as many images as it asks for,
    each one accepted by [resize_and_pad] at [size], whatever the store
    holds. *)
Definition answers (c : PipelineCall) (size : Z) : Prop :=
  forall h, exists imgs,
    pipeline_model c h = Ok imgs /\
    Z.of_nat (length imgs) = num_images_per_prompt c /\
    Forall (fun img => is_ok (normalized lanczos img size) = true) imgs.

End Sweep.

(** ** Values and relations of the proofs *)

(** The grid after the pastes of [make_image_grid]'s loop, as a value. *)
Fixpoint pasted_all (h : list Image) (items : list (nat * ref)) (cols w hh : Z)
    (g : Image) : Image :=
  match items with
  | [] => g
  | (i, r) :: rest =>
      match h !! r with
      | Some im =>
          pasted_all h rest cols w hh
            (pasted g im (Z.of_nat i mod cols * w) (Z.of_nat i / cols * hh))
      | None => g
      end
  end.

(** [s'] still holds the objects [h0], each as it was, and has the logs of
    [s]. *)
Definition keeps (h0 : list Image) (s s' : state) : Prop :=
  (exists new, heap s' = h0 ++ new) /\
  pipeline_calls s' = pipeline_calls s /\ displayed s' = displayed s.

(** The result with both sides negated. *)
Definition opp_size (r : result (Z * Z)) : result (Z * Z) :=
  match r with
  | Ok (a, b) => Ok (- a, - b)
  | Raise e => Raise e
  end.

(** ** The scaled size as the specification words it *)

(** The specification has [round] where the notebook has [int]. *)
Definition spec_scaled_size (image_width image_height target_size : Z)
  : result (Z * Z) :=
  rbind (PyFloat.int_truediv image_width image_height) (fun aspect_ratio =>
    if PyFloat.gt_one aspect_ratio then
      rbind (rbind (PyFloat.int_div_float target_size aspect_ratio)
                   PyFloat.round_to_int) (fun new_height =>
        Ok (target_size, new_height))
    else
      rbind (rbind (PyFloat.int_mul_float target_size aspect_ratio)
                   PyFloat.round_to_int) (fun new_width =>
        Ok (new_width, target_size))).

(** ** Sample objects for the examples *)

(** A nearest-neighbour filter that builds every picture. *)
Definition nearest : resampler :=
  fun src w h =>
    Some (fun x y => getpixel src (x * width src / w) (y * height src / h)).

Definition gradient (x y : Z) : pixel := (x, y, 128).

Definition store_with (im : Image) : state := mkState [im] [] [].

(** A pipeline that returns three-by-one images. *)
Definition thin_pipeline (c : PipelineCall) (_ : list Image)
  : result (list Image) :=
  Ok (replicate (Z.to_nat (num_images_per_prompt c)) (mkImage 3 1 gradient)).

(** A pipeline that returns four-by-four images. *)
Definition square_pipeline (c : PipelineCall) (_ : list Image)
  : result (list Image) :=
  Ok (replicate (Z.to_nat (num_images_per_prompt c)) (mkImage 4 4 gradient)).

(** A pipeline that runs out of memory. *)
Definition failing_pipeline (_ : PipelineCall) (_ : list Image)
  : result (list Image) :=
  Raise (ExternalError "OutOfMemoryError").

(** A pipeline that returns one four-by-four image, whatever it is asked. *)
Definition single_pipeline (_ : PipelineCall) (_ : list Image)
  : result (list Image) :=
  Ok [mkImage 4 4 gradient].

(** A pipeline that returns three four-by-four images, whatever it is
    asked. *)
Definition triple_pipeline (_ : PipelineCall) (_ : list Image)
  : result (list Image) :=
  Ok [mkImage 4 4 gradient; mkImage 4 4 gradient; mkImage 4 4 gradient].

(** A pipeline that runs out of memory on the pokemon prompt. *)
Definition fussy_pipeline (c : PipelineCall) (_ : list Image)
  : result (list Image) :=
  if String.eqb (call_prompt c)
       "pokemon, pokemon style, anime, colorful, animation, woman smiling with dog"
  then Raise (ExternalError "OutOfMemoryError")
  else Ok (replicate (Z.to_nat (num_images_per_prompt c)) (mkImage 4 4 gradient)).

(** ** The real value of a float *)

(** The vocabulary of the rounding proofs: powers of two, the value of a
    mantissa and an exponent, and where a real lies between two
    consecutive mantissas. *)

Definition bpow (e : Z) : R := powerRZ 2 e.

Definition F2R (m e : Z) : R := (IZR m * bpow e)%R.

Definition cmp_ok (c : comparison) (x mid : R) : Prop :=
  match c with
  | Lt => (x < mid)%R
  | Eq => x = mid
  | Gt => (mid < x)%R
  end.

Definition inbetween (m e : Z) (l : location) (x : R) : Prop :=
  match l with
  | loc_Exact => x = F2R m e
  | loc_Inexact c =>
      (F2R m e < x < F2R (m + 1) e)%R /\ cmp_ok c x (F2R (2 * m + 1) (e - 1))
  end.

Definition shifted (mrs : shr_record) (e : Z) (x : R) : Prop :=
  0 <= shr_m mrs /\ inbetween (shr_m mrs) e (loc_of_shr_record mrs) x.

(** The exponent of the last bit of a binary64 number of magnitude [e]. *)
Definition fexp64 (e : Z) : Z := SpecFloat.fexp PyFloat.prec PyFloat.emax e.

(** The reals binary64 holds, largest exponent apart. *)
Definition in_format (v : R) : Prop :=
  exists k e, v = F2R k e /\ Z.abs k < 2 ^ 53 /\ -1074 <= e.

Definition SF2R (z : spec_float) : R :=
  match z with
  | S754_finite s m e => F2R (if s then Z.neg m else Z.pos m) e
  | _ => 0%R
  end.

Definition is_finite (z : spec_float) : bool :=
  match z with
  | S754_zero _ | S754_finite _ _ _ => true
  | _ => false
  end.

Definition valid_nonneg (z : spec_float) : Prop :=
  match z with
  | S754_zero false | S754_infinity false => True
  | S754_finite false m e => bounded PyFloat.prec PyFloat.emax m e = true
  | _ => False
  end.

(** [z] is a rounding of the non-negative real [x]: no value of the format
    lies strictly between them. *)
Record rounds_to (x : R) (z : spec_float) : Prop := {
  rt_valid : valid_nonneg z;
  rt_upper : forall v, in_format v -> (x <= v)%R -> (v < bpow 1024)%R ->
             is_finite z = true /\ (SF2R z <= v)%R;
  rt_lower : forall v, in_format v -> (v <= x)%R -> is_finite z = true ->
             (v <= SF2R z)%R
}.

(** [n] is the integer part of the non-negative float [q]. *)
Definition floor_of (q : PyFloat.float) (n : Z) : Prop :=
  (IZR n <= SF2R q < IZR n + 1)%R.

(** Unfolds the position of a real among mantissas into real arithmetic. *)
Ltac real_mantissa succ pred :=
  unfold inbetween, cmp_ok, F2R;
  repeat match goal with
  | |- context [bpow (?e + 1 - 1)] => replace (e + 1 - 1)%Z with e by lia
  end;
  rewrite ?succ, ?pred;
  rewrite ?plus_IZR, ?mult_IZR.

Import PyFloat.

(** * Rounding in binary64 *)

Section RealMantissas.
Local Open Scope R_scope.

Lemma bpow_gt_0 e : 0 < bpow e.
Proof. apply powerRZ_lt; lra. Qed.

Lemma bpow_plus a b : bpow (a + b) = bpow a * bpow b.
Proof. apply powerRZ_add; lra. Qed.

Lemma bpow_0 : bpow 0 = 1.
Proof. reflexivity. Qed.

Lemma bpow_1 : bpow 1 = 2.
Proof. unfold bpow; simpl; lra. Qed.

Lemma bpow_succ e : bpow (e + 1) = 2 * bpow e.
Proof. rewrite bpow_plus, bpow_1; lra. Qed.

Lemma bpow_IZR n : (0 <= n)%Z -> bpow n = IZR (2 ^ n).
Proof.
  intros Hn. unfold bpow.
  rewrite <- (Z2Nat.id n) at 1 2 by exact Hn.
  rewrite <- pow_powerRZ, pow_IZR. reflexivity.
Qed.

Lemma bpow_le a b : (a <= b)%Z -> bpow a <= bpow b.
Proof.
  intros H. replace b with (a + (b - a))%Z by lia.
  rewrite bpow_plus, (bpow_IZR (b - a)) by lia.
  assert (1 <= IZR (2 ^ (b - a))).
  { apply IZR_le. assert (0 < 2 ^ (b - a))%Z by (apply Z.pow_pos_nonneg; lia). lia. }
  pose proof (bpow_gt_0 a). nra.
Qed.

Lemma bpow_lt a b : (a < b)%Z -> bpow a < bpow b.
Proof.
  intros H. apply Rlt_le_trans with (bpow (a + 1)).
  - rewrite bpow_succ. pose proof (bpow_gt_0 a). lra.
  - apply bpow_le. lia.
Qed.

Lemma F2R_shift m e k : (0 <= k)%Z -> F2R m (e + k) = F2R (m * 2 ^ k) e.
Proof.
  intros Hk. unfold F2R. rewrite bpow_plus, (bpow_IZR k), mult_IZR by exact Hk. ring.
Qed.

Lemma F2R_le m1 m2 e : (m1 <= m2)%Z -> F2R m1 e <= F2R m2 e.
Proof.
  intros H. unfold F2R. apply IZR_le in H. pose proof (bpow_gt_0 e). nra.
Qed.

Lemma F2R_lt m1 m2 e : (m1 < m2)%Z -> F2R m1 e < F2R m2 e.
Proof.
  intros H. unfold F2R. apply IZR_lt in H. pose proof (bpow_gt_0 e). nra.
Qed.

Lemma F2R_lt_inv m1 m2 e : F2R m1 e < F2R m2 e -> (m1 < m2)%Z.
Proof.
  intros H. destruct (Z_lt_le_dec m1 m2) as [|Hle]; [assumption|].
  apply (F2R_le _ _ e) in Hle. lra.
Qed.

Lemma F2R_le_inv m1 m2 e : F2R m1 e <= F2R m2 e -> (m1 <= m2)%Z.
Proof.
  intros H. destruct (Z_le_gt_dec m1 m2) as [|Hgt]; [assumption|].
  apply Z.gt_lt, (F2R_lt _ _ e) in Hgt. lra.
Qed.

(** Digits *)
Lemma digits2_pos_size p : digits2_pos p = Pos.size p.
Proof. induction p; simpl; congruence. Qed.

Lemma Zdigits2_log2 m : (0 < m)%Z -> Zdigits2 m = (Z.log2 m + 1)%Z.
Proof.
  destruct m as [|p|p]; try lia. intros _. simpl. rewrite digits2_pos_size.
  destruct p; simpl; lia.
Qed.

Lemma Zdigits2_bounds m : (0 < m)%Z -> (2 ^ (Zdigits2 m - 1) <= m < 2 ^ Zdigits2 m)%Z.
Proof.
  intros H. rewrite Zdigits2_log2 by exact H.
  replace (Z.log2 m + 1 - 1)%Z with (Z.log2 m) by lia.
  replace (Z.log2 m + 1)%Z with (Z.succ (Z.log2 m)) by lia.
  apply Z.log2_spec. exact H.
Qed.

Lemma Zdigits2_unique m d : (2 ^ (d - 1) <= m < 2 ^ d)%Z -> (0 < m)%Z -> Zdigits2 m = d.
Proof.
  intros H Hm. rewrite Zdigits2_log2 by exact Hm.
  assert (0 < d)%Z.
  { destruct (Z_lt_le_dec 0 d); [assumption|]. 
    destruct (Z.eq_dec d 0%Z) as [->|]; [simpl in H; lia|].
    rewrite (Z.pow_neg_r 2 d) in H by lia. lia. }
  enough (Z.log2 m = d - 1)%Z by lia.
  apply Z.log2_unique; [lia|]. replace (Z.succ (d - 1)) with d by lia. exact H.
Qed.

Lemma Zdigits2_nonneg m : (0 <= Zdigits2 m)%Z.
Proof. destruct m; simpl; lia. Qed.

Lemma bpow_pred e : bpow (e - 1) = bpow e / 2.
Proof.
  replace e with ((e - 1) + 1)%Z at 2 by lia. rewrite bpow_succ. lra.
Qed.

Lemma shr_1_inbetween mrs e x :
  (0 <= shr_m mrs)%Z ->
  inbetween (shr_m mrs) e (loc_of_shr_record mrs) x ->
  inbetween (shr_m (shr_1 mrs)) (e + 1) (loc_of_shr_record (shr_1 mrs)) x.
Proof.
  destruct mrs as [m r s]. cbn [shr_m]. intros Hm.
  pose proof (bpow_gt_0 e) as HB.
  destruct m as [|p|p]; [| |lia].
  - destruct r, s; cbn [shr_1 shr_m loc_of_shr_record orb]; real_mantissa bpow_succ bpow_pred;
      intros H; lra.
  - pose proof (IZR_lt 0 (Z.pos p) eq_refl) as HP.
    destruct p as [p|p|].
    + destruct r, s; cbn [shr_1 shr_m loc_of_shr_record orb]; real_mantissa bpow_succ bpow_pred;
        rewrite (IZR_POS_xI p); intros H; lra.
    + destruct r, s; cbn [shr_1 shr_m loc_of_shr_record orb]; real_mantissa bpow_succ bpow_pred;
        rewrite (IZR_POS_xO p); intros H; lra.
    + destruct r, s; cbn [shr_1 shr_m loc_of_shr_record orb]; real_mantissa bpow_succ bpow_pred;
        intros H; lra.
Qed.

Lemma shr_1_m mrs : (0 <= shr_m mrs)%Z -> shr_m (shr_1 mrs) = (shr_m mrs / 2)%Z.
Proof.
  destruct mrs as [m r s]. cbn [shr_m]. intros Hm.
  destruct m as [|p|p]; [reflexivity| |lia].
  destruct p as [p|p|]; cbn [shr_1 shr_m].
  - rewrite Pos2Z.inj_xI. apply Z.div_unique with 1%Z; lia.
  - rewrite Pos2Z.inj_xO. apply Z.div_unique with 0%Z; lia.
  - reflexivity.
Qed.

Lemma shr_1_shifted mrs e x : shifted mrs e x -> shifted (shr_1 mrs) (e + 1) x.
Proof.
  intros [Hm Hx]. split.
  - rewrite shr_1_m by exact Hm. apply Z.div_pos; lia.
  - apply shr_1_inbetween; assumption.
Qed.

Lemma iter_pos_shr_1 (p : positive) : forall mrs e x,
  shifted mrs e x ->
  shifted (SpecFloat.iter_pos shr_1 p mrs) (e + Z.pos p) x /\
  shr_m (SpecFloat.iter_pos shr_1 p mrs) = (shr_m mrs / 2 ^ Z.pos p)%Z.
Proof.
  induction p as [p IH|p IH|]; intros mrs e x H; cbn [SpecFloat.iter_pos].
  - pose proof (shr_1_shifted _ _ _ H) as H1.
    destruct (IH _ _ _ H1) as [H2 E2]. destruct (IH _ _ _ H2) as [H3 E3].
    split.
    + replace (e + Z.pos p~1)%Z with (e + 1 + Z.pos p + Z.pos p)%Z by lia. exact H3.
    + rewrite E3, E2, shr_1_m by apply H.
      rewrite !Z.div_div by (try apply Z.pow_pos_nonneg; lia).
      f_equal. rewrite <- !Z.pow_add_r, <- Z.pow_succ_r by lia. f_equal. lia.
  - destruct (IH _ _ _ H) as [H2 E2]. destruct (IH _ _ _ H2) as [H3 E3].
    split.
    + replace (e + Z.pos p~0)%Z with (e + Z.pos p + Z.pos p)%Z by lia. exact H3.
    + rewrite E3, E2.
      rewrite !Z.div_div by (try apply Z.pow_pos_nonneg; lia).
      f_equal. rewrite <- !Z.pow_add_r by lia. f_equal. lia.
  - split; [apply shr_1_shifted; exact H|]. rewrite shr_1_m by apply H. reflexivity.
Qed.

End RealMantissas.

Lemma fexp_eq e : fexp64 e = Z.max (e - 53) (-1074).
Proof. reflexivity. Qed.

Lemma record_of_loc_m m l : shr_m (shr_record_of_loc m l) = m.
Proof. destruct l as [|[]]; reflexivity. Qed.

Lemma record_of_loc_loc m l : loc_of_shr_record (shr_record_of_loc m l) = l.
Proof. destruct l as [|[]]; reflexivity. Qed.

Lemma Zdigits2_div_pow2 m p :
  0 < m / 2 ^ p -> 0 <= p -> Zdigits2 (m / 2 ^ p) = Zdigits2 m - p.
Proof.
  intros Hq Hp.
  assert (0 < 2 ^ p)%Z as H2 by (apply Z.pow_pos_nonneg; lia).
  assert (0 < m)%Z as Hm.
  { destruct (Z_lt_le_dec 0 m) as [|Hle]; [assumption|].
    assert (m / 2 ^ p <= 0 / 2 ^ p)%Z by (apply Z.div_le_mono; lia).
    rewrite Z.div_0_l in H by lia. lia. }
  pose proof (Zdigits2_bounds m Hm) as [Hlo Hhi].
  assert (2 ^ p <= m)%Z as Hpm.
  { destruct (Z_le_gt_dec (2 ^ p) m); [assumption|].
    rewrite Z.div_small in Hq by lia. lia. }
  assert (p < Zdigits2 m)%Z as Hd.
  { apply (Z.pow_lt_mono_r_iff 2); [lia|apply Zdigits2_nonneg|lia]. }
  apply Zdigits2_unique; [|exact Hq]. split.
  - apply Z.div_le_lower_bound; [exact H2|].
    rewrite <- Z.pow_add_r by lia.
    replace (p + (Zdigits2 m - p - 1))%Z with (Zdigits2 m - 1)%Z by lia. exact Hlo.
  - apply Z.div_lt_upper_bound; [exact H2|].
    rewrite <- Z.pow_add_r by lia.
    replace (p + (Zdigits2 m - p))%Z with (Zdigits2 m) by lia. exact Hhi.
Qed.

Lemma shr_fexp_spec m e l (x : R) :
  0 <= m -> inbetween m e l x -> e <= fexp64 (Zdigits2 m + e) ->
  let r := shr_fexp prec emax m e l in
  shifted (fst r) (snd r) x /\
  snd r = fexp64 (Zdigits2 (shr_m (fst r)) + snd r).
Proof.
  intros Hm Hx He. unfold shr_fexp, shr. fold (fexp64 (Zdigits2 m + e)).
  assert (shifted (shr_record_of_loc m l) e x) as Hs.
  { split; rewrite record_of_loc_m; [exact Hm|]. rewrite record_of_loc_loc. exact Hx. }
  destruct (fexp64 (Zdigits2 m + e) - e)%Z as [|p|p] eqn:En; cbn [fst snd].
  - split; [exact Hs|]. rewrite record_of_loc_m. lia.
  - destruct (iter_pos_shr_1 p _ _ _ Hs) as [H1 H2]. split; [exact H1|].
    rewrite H2, record_of_loc_m.
    assert (0 < 2 ^ Z.pos p)%Z as Hpow by (apply Z.pow_pos_nonneg; lia).
    assert (0 <= m / 2 ^ Z.pos p)%Z as Hq by (apply Z.div_pos; lia).
    destruct (Z.eq_dec (m / 2 ^ Z.pos p) 0) as [E0|N0].
    + rewrite E0. cbn [Zdigits2]. rewrite Z.add_0_l.
      enough (fexp64 (Zdigits2 m + e) = -1074)%Z as Hf by (rewrite fexp_eq in *; lia).
      destruct (Z.eq_dec m 0) as [->|Hm0].
      * cbn [Zdigits2] in *. rewrite fexp_eq in *. lia.
      * assert (0 < m)%Z as Hm' by lia.
        pose proof (Zdigits2_bounds m Hm') as [Hlo Hhi].
        assert (m < 2 ^ Z.pos p)%Z as Hlt.
        { destruct (Z_lt_le_dec m (2 ^ Z.pos p)) as [|Hge]; [assumption|].
          assert (1 <= m / 2 ^ Z.pos p)%Z.
          { apply Z.div_le_lower_bound; lia. }
          lia. }
        assert (Zdigits2 m - 1 < Z.pos p)%Z.
        { apply (Z.pow_lt_mono_r_iff 2); lia. }
        rewrite fexp_eq in *. lia.
    + rewrite Zdigits2_div_pow2 by lia. rewrite fexp_eq in *. lia.
  - lia.
Qed.

Lemma F2R_bpow n e : 0 <= n -> F2R (2 ^ n) e = bpow (n + e).
Proof. intros Hn. unfold F2R. rewrite bpow_plus, (bpow_IZR n) by exact Hn. reflexivity. Qed.

Lemma rne_bounds m l : m <= round_nearest_even m l <= m + 1.
Proof. destruct l as [|[]]; cbn [round_nearest_even]; try destruct (Z.even m); lia. Qed.

Lemma rne_exact m : round_nearest_even m loc_Exact = m.
Proof. reflexivity. Qed.

(** A value of the format below the cut of a canonical mantissa lies under it. *)
Lemma format_below m e k ev :
  0 <= m -> e = fexp64 (Zdigits2 m + e) -> Z.abs k < 2 ^ 53 -> -1074 <= ev -> ev < e ->
  (F2R k ev < F2R m e)%R.
Proof.
  intros Hm He Hk Hev Hlt. rewrite fexp_eq in He.
  assert (Zdigits2 m = 53) as Hd by lia.
  assert (0 < m) as Hpos by (destruct m; cbn in Hd; lia).
  pose proof (Zdigits2_bounds m Hpos) as [Hlo _]. rewrite Hd in Hlo.
  apply Rlt_le_trans with (F2R (2 ^ 53) ev); [apply F2R_lt; lia|].
  apply Rle_trans with (F2R (2 ^ 52) e); [|apply F2R_le; exact Hlo].
  rewrite !F2R_bpow by lia. apply bpow_le. lia.
Qed.

Lemma round_upper m e l x v :
  0 <= m -> inbetween m e l x -> e = fexp64 (Zdigits2 m + e) ->
  in_format v -> (x <= v)%R -> (F2R (round_nearest_even m l) e <= v)%R.
Proof.
  intros Hm Hx He (k & ev & -> & Hk & Hev) Hle.
  assert (F2R m e <= x)%R as Hmx by (destruct l; cbn in Hx; lra).
  destruct (Z_lt_le_dec ev e) as [Hlt|Hge].
  - pose proof (format_below m e k ev Hm He Hk Hev Hlt). lra.
  - replace ev with (e + (ev - e)) in * by lia.
    rewrite F2R_shift in * by lia.
    set (K := k * 2 ^ (ev - e)) in *. apply F2R_le.
    destruct l as [|c]; cbn in Hx.
    + rewrite rne_exact. apply (F2R_le_inv _ _ e). lra.
    + assert (m < K) by (apply (F2R_lt_inv _ _ e); lra).
      pose proof (rne_bounds m (loc_Inexact c)). lia.
Qed.

Lemma round_lower m e l x v :
  0 <= m -> inbetween m e l x -> e = fexp64 (Zdigits2 m + e) ->
  in_format v -> (v <= x)%R -> (v <= F2R (round_nearest_even m l) e)%R.
Proof.
  intros Hm Hx He (k & ev & -> & Hk & Hev) Hle.
  pose proof (rne_bounds m l) as Hr.
  destruct (Z_lt_le_dec ev e) as [Hlt|Hge].
  - pose proof (format_below m e k ev Hm He Hk Hev Hlt).
    apply Rle_trans with (F2R m e); [lra|apply F2R_le; lia].
  - replace ev with (e + (ev - e)) in * by lia.
    rewrite F2R_shift in * by lia.
    set (K := k * 2 ^ (ev - e)) in *. apply F2R_le.
    destruct l as [|c]; cbn in Hx.
    + rewrite rne_exact. apply (F2R_le_inv _ _ e). lra.
    + assert (K < m + 1) by (apply (F2R_lt_inv _ _ e); lra). lia.
Qed.

Lemma Zdigits2_succ m :
  0 <= m -> Zdigits2 (m + 1) = Zdigits2 m \/
            (m + 1 = 2 ^ Zdigits2 m /\ Zdigits2 (m + 1) = Zdigits2 m + 1).
Proof.
  intros Hm. destruct (Z.eq_dec m 0) as [->|Hn].
  - right. split; reflexivity.
  - assert (0 < m) as Hpos by lia.
    pose proof (Zdigits2_bounds m Hpos) as [Hlo Hhi].
    pose proof (Zdigits2_nonneg m) as Hd.
    assert (0 < Zdigits2 m) by (destruct m; cbn; lia).
    destruct (Z.eq_dec (m + 1) (2 ^ Zdigits2 m)) as [E|N].
    + right. split; [exact E|]. apply Zdigits2_unique; [|lia].
      replace (Zdigits2 m + 1 - 1) with (Zdigits2 m) by lia. rewrite E.
      split; [lia|]. apply Z.pow_lt_mono_r; lia.
    + left. apply Zdigits2_unique; lia.
Qed.

Lemma Zdigits2_pow2 n : 0 <= n -> Zdigits2 (2 ^ n) = n + 1.
Proof.
  intros Hn. apply Zdigits2_unique.
  - replace (n + 1 - 1) with n by lia. split; [lia|]. apply Z.pow_lt_mono_r; lia.
  - apply Z.pow_pos_nonneg; lia.
Qed.

Lemma shr_fexp_renorm m e m1 :
  0 <= m -> e = fexp64 (Zdigits2 m + e) -> m <= m1 <= m + 1 ->
  let r := shr_fexp prec emax m1 e loc_Exact in
  0 <= shr_m (fst r) /\
  F2R (shr_m (fst r)) (snd r) = F2R m1 e /\
  snd r = fexp64 (Zdigits2 (shr_m (fst r)) + snd r).
Proof.
  intros Hm He Hm1. unfold shr_fexp, shr. fold (fexp64 (Zdigits2 m1 + e)).
  cbn [shr_record_of_loc].
  assert (fexp64 (Zdigits2 m1 + e) - e = 0 \/
          (fexp64 (Zdigits2 m1 + e) - e = 1 /\ m1 = 2 ^ 53)) as [E|[E Ep]].
  { assert (m1 = m \/ m1 = m + 1) as [->| ->] by lia; [left; lia|].
    destruct (Zdigits2_succ m Hm) as [->|[Epow ->]]; [left; lia|].
    rewrite Epow. pose proof (Zdigits2_nonneg m).
    rewrite !fexp_eq in *.
    destruct (Z_le_gt_dec (-1074) (Zdigits2 m + e - 53)).
    - right. assert (Zdigits2 m = 53) as -> by lia. split; [lia|reflexivity].
    - left. lia. }
  - rewrite E. cbn [fst snd shr_m]. split; [lia|]. split; [reflexivity|lia].
  - rewrite E. cbn [fst snd SpecFloat.iter_pos]. subst m1.
    rewrite shr_1_m by (cbn [shr_m]; lia). cbn [shr_m].
    change (2 ^ 53 / 2) with (2 ^ 52).
    split; [lia|]. split.
    + rewrite !F2R_bpow by lia. f_equal. lia.
    + rewrite Zdigits2_pow2 by lia.
      change (Zdigits2 (2 ^ 53)) with 54 in E. rewrite !fexp_eq in *. lia.
Qed.

Lemma bounded_iff m e :
  bounded prec emax m e = true <-> e = fexp64 (Zdigits2 (Z.pos m) + e) /\ e <= 971.
Proof.
  unfold bounded, canonical_mantissa. fold (fexp64 (Z.pos (digits2_pos m) + e)).
  cbn [Zdigits2]. rewrite andb_true_iff, Z.eqb_eq, Z.leb_le.
  change (emax - prec) with 971. intuition lia.
Qed.

Theorem binary_round_aux_rounds mx ex lx (x : R) :
  0 <= mx -> inbetween mx ex lx x -> ex <= fexp64 (Zdigits2 mx + ex) ->
  rounds_to x (binary_round_aux prec emax false mx ex lx).
Proof.
  intros Hm Hx He. unfold binary_round_aux.
  pose proof (shr_fexp_spec mx ex lx x Hm Hx He) as Hs.
  destruct (shr_fexp prec emax mx ex lx) as [mrs1 e1]. cbn [fst snd] in Hs.
  destruct Hs as [[Hm1 Hx1] He1].
  set (m1 := round_nearest_even (shr_m mrs1) (loc_of_shr_record mrs1)).
  pose proof (shr_fexp_renorm (shr_m mrs1) e1 m1 Hm1 He1 (rne_bounds _ _)) as Hr.
  pose proof (fun v => round_upper _ _ _ x v Hm1 Hx1 He1) as Hub.
  pose proof (fun v => round_lower _ _ _ x v Hm1 Hx1 He1) as Hlb.
  fold m1 in Hub, Hlb.
  destruct (shr_fexp prec emax m1 e1 loc_Exact) as [mrs2 e2]. cbn [fst snd] in Hr.
  destruct Hr as (Hm2 & Hv & He2). rewrite <- Hv in Hub, Hlb.
  destruct (shr_m mrs2) as [|p|p] eqn:Ep; [| |lia].
  - assert (F2R 0 e2 = 0)%R as Hz by (unfold F2R; lra). rewrite Hz in *.
    split; cbn; [exact I| |]; intros v Hv1 Hv2 Hv3; [split; [reflexivity|]|]; eauto.
  - destruct (Z.leb_spec e2 (emax - prec)) as [Hle|Hgt].
    + split; cbn [valid_nonneg is_finite SF2R].
      * apply bounded_iff. change (emax - prec) with 971 in Hle. split; assumption.
      * intros v Hv1 Hv2 _. split; [reflexivity|auto].
      * intros v Hv1 Hv2 _. auto.
    + change (emax - prec) with 971 in Hgt.
      split; cbn [valid_nonneg is_finite SF2R]; [exact I| |discriminate].
      intros v Hv1 Hv2 Hv3. exfalso.
      pose proof (Hub v Hv1 Hv2) as Hu.
      rewrite fexp_eq in He2.
      assert (Zdigits2 (Z.pos p) = 53) as Hd by lia.
      pose proof (Zdigits2_bounds (Z.pos p) ltac:(lia)) as [Hlo _]. rewrite Hd in Hlo.
      assert (bpow 1024 <= F2R (Z.pos p) e2)%R.
      { apply Rle_trans with (F2R (2 ^ 52) e2); [|apply F2R_le; exact Hlo].
        rewrite F2R_bpow by lia. apply bpow_le. lia. }
      lra.
Qed.

Lemma fexp_mono a b : a <= b -> fexp64 a <= fexp64 b.
Proof. rewrite !fexp_eq. lia. Qed.

Lemma Zdigits2_lower m n : 0 <= n -> 2 ^ n <= m -> n + 1 <= Zdigits2 m.
Proof.
  intros Hn H. assert (0 < 2 ^ n) by (apply Z.pow_pos_nonneg; lia).
  pose proof (Zdigits2_bounds m ltac:(lia)) as [_ Hhi].
  pose proof (Zdigits2_nonneg m).
  assert (n < Zdigits2 m); [|lia].
  apply (Z.pow_lt_mono_r_iff 2); lia.
Qed.

Lemma F2R_mult m1 e1 m2 e2 : F2R (m1 * m2) (e1 + e2) = (F2R m1 e1 * F2R m2 e2)%R.
Proof. unfold F2R. rewrite mult_IZR, bpow_plus. ring. Qed.

(** Multiplication of two positive floats. *)
Theorem SFmul_rounds mx ex my ey :
  bounded prec emax mx ex = true -> bounded prec emax my ey = true ->
  rounds_to (F2R (Z.pos mx) ex * F2R (Z.pos my) ey)
            (SFmul prec emax (S754_finite false mx ex) (S754_finite false my ey)).
Proof.
  intros Hx Hy. apply bounded_iff in Hx, Hy. destruct Hx as [Hx _], Hy as [Hy _].
  cbn [SFmul xorb]. apply binary_round_aux_rounds.
  - lia.
  - cbn [inbetween]. rewrite <- F2R_mult. reflexivity.
  - rewrite Pos2Z.inj_mul.
    pose proof (Zdigits2_bounds (Z.pos mx) ltac:(lia)) as [Hx1 _].
    pose proof (Zdigits2_bounds (Z.pos my) ltac:(lia)) as [Hy1 _].
    assert (0 < Zdigits2 (Z.pos mx)) by (cbn; lia).
    assert (0 < Zdigits2 (Z.pos my)) by (cbn; lia).
    assert (Zdigits2 (Z.pos mx) + Zdigits2 (Z.pos my) - 1 <= Zdigits2 (Z.pos mx * Z.pos my)).
    { replace (Zdigits2 (Z.pos mx) + Zdigits2 (Z.pos my) - 1)
        with ((Zdigits2 (Z.pos mx) - 1) + (Zdigits2 (Z.pos my) - 1) + 1) by lia.
      apply Zdigits2_lower; [lia|]. rewrite Z.pow_add_r by lia.
      apply Z.mul_le_mono_nonneg; try lia; apply Z.pow_nonneg; lia. }
    rewrite fexp_eq in *. lia.
Qed.

Lemma fraction_position (r m : R) :
  (0 < m -> 0 < r < m ->
   0 < r / m < 1 /\
   (2 * r < m -> r / m < 1 / 2) /\
   (2 * r = m -> r / m = 1 / 2) /\
   (m < 2 * r -> 1 / 2 < r / m))%R.
Proof.
  intros Hm Hr.
  assert (r / m * m = r)%R as E by (field; lra).
  set (t := (r / m)%R) in *. clearbody t.
  repeat split; intros; nra.
Qed.

(** The quotient and remainder step of the division. *)
Lemma new_location_inbetween q r m2 e (x : R) :
  0 < m2 -> 0 <= r < m2 ->
  x = ((IZR q + IZR r / IZR m2) * bpow e)%R ->
  inbetween q e (new_location m2 r) x.
Proof.
  intros Hm2 Hr ->. pose proof (bpow_gt_0 e) as HB.
  assert (0 < IZR m2)%R as HM by (apply IZR_lt; lia).
  assert (bpow (e - 1) = bpow e / 2)%R as Hpred by apply bpow_pred.
  destruct (Z.eq_dec r 0) as [->|Hr0].
  - assert (0 / IZR m2 = 0)%R as Ez by (unfold Rdiv; apply Rmult_0_l).
    unfold new_location, new_location_even, new_location_odd.
    destruct (Z.even m2); cbn [inbetween Z.eqb]; unfold F2R;
      rewrite Ez, Rplus_0_r; reflexivity.
  - assert (0 < r) as Hrpos by lia.
    assert (0 < IZR r < IZR m2)%R as Hr'.
    { split; apply IZR_lt; lia. }
    destruct (fraction_position (IZR r) (IZR m2) HM Hr') as (Hfrac & HLt & HEq & HGt).
    assert (forall c, Z.compare (2 * r) m2 = c ->
                      cmp_ok c (IZR r / IZR m2)%R (1 / 2)%R) as Hc.
    { intros c <-. destruct (Z.compare_spec (2 * r) m2) as [E|L|G]; cbn [cmp_ok].
      - apply HEq. rewrite <- E, mult_IZR. reflexivity.
      - apply HLt. apply IZR_lt in L. rewrite mult_IZR in L. exact L.
      - apply HGt. apply IZR_lt in G. rewrite mult_IZR in G. exact G. }
    assert (forall c, cmp_ok c (IZR r / IZR m2)%R (1 / 2)%R ->
       inbetween q e (loc_Inexact c) ((IZR q + IZR r / IZR m2) * bpow e)%R) as Hin.
    { intros c Hcmp. cbn [inbetween]. unfold F2R.
      rewrite Hpred, !plus_IZR, mult_IZR.
      set (t := (IZR r / IZR m2)%R) in *. clearbody t.
      split; [nra|]. destruct c; cbn [cmp_ok] in *; nra. }
    unfold new_location.
    destruct (Z.even m2) eqn:Eev.
    + unfold new_location_even. rewrite (proj2 (Z.eqb_neq r 0) Hr0).
      apply Hin, Hc. reflexivity.
    + unfold new_location_odd. rewrite (proj2 (Z.eqb_neq r 0) Hr0).
      apply Hin.
      assert (2 * r <> m2) as Hne.
      { intros E. rewrite <- E, Z.even_mul in Eev. discriminate. }
      destruct (Z.compare_spec (2 * r + 1) m2) as [E|L|G]; apply Hc.
      * apply Z.compare_lt_iff. lia.
      * apply Z.compare_lt_iff. lia.
      * apply Z.compare_gt_iff. lia.
Qed.

Lemma SFdiv_core_spec m1 e1 m2 e2 :
  0 < m1 -> 0 < m2 ->
  let r := SFdiv_core_binary prec emax m1 e1 m2 e2 in
  0 <= fst (fst r) /\
  inbetween (fst (fst r)) (snd (fst r)) (snd r) (F2R m1 e1 / F2R m2 e2) /\
  snd (fst r) <= fexp64 (Zdigits2 (fst (fst r)) + snd (fst r)).
Proof.
  intros H1 H2. unfold SFdiv_core_binary.
  fold (fexp64 (Zdigits2 m1 + e1 - (Zdigits2 m2 + e2))).
  set (d1 := Zdigits2 m1). set (d2 := Zdigits2 m2).
  set (e' := Z.min (fexp64 (d1 + e1 - (d2 + e2))) (e1 - e2)).
  set (s := e1 - e2 - e').
  assert (0 <= s) as Hs by (unfold s, e'; lia).
  set (m' := match s with Z.pos _ => Z.shiftl m1 s | 0 => m1 | Z.neg _ => 0 end).
  assert (m' = m1 * 2 ^ s) as Em'.
  { unfold m'. destruct s as [|p|p] eqn:Es; [lia| |lia].
    apply Z.shiftl_mul_pow2. lia. }
  clearbody m'.
  pose proof (Z_div_mod m' m2 ltac:(lia)) as Hdm.
  destruct (Z.div_eucl m' m2) as [q r]. destruct Hdm as [Eq Hr].
  cbn [fst snd].
  assert (0 < 2 ^ s) as Hpow by (apply Z.pow_pos_nonneg; lia).
  assert (0 <= q) as Hq by nia.
  split; [exact Hq|]. split.
  - apply new_location_inbetween; [exact H2|exact Hr|].
    unfold F2R. replace e1 with (e2 + e' + s) by (unfold s; lia).
    rewrite !bpow_plus, (bpow_IZR s) by exact Hs.
    assert (IZR m1 * IZR (2 ^ s) = IZR m2 * IZR q + IZR r)%R as E.
    { rewrite <- mult_IZR, <- Em', Eq, plus_IZR, mult_IZR. reflexivity. }
    pose proof (bpow_gt_0 e2). assert (0 < IZR m2)%R by (apply IZR_lt; lia).
    apply Rmult_eq_reg_r with (IZR m2 * bpow e2)%R; [|nra].
    transitivity (IZR m1 * IZR (2 ^ s) * bpow e2 * bpow e')%R; [field; split; lra|].
    rewrite E. field. lra.
  - apply Z.le_trans with (fexp64 (d1 + e1 - (d2 + e2))); [unfold e'; lia|].
    apply fexp_mono.
    pose proof (Zdigits2_bounds m1 H1) as [Hlo1 _].
    pose proof (Zdigits2_bounds m2 H2) as [_ Hhi2].
    fold d1 in Hlo1. fold d2 in Hhi2.
    assert (0 < d1) by (unfold d1; destruct m1; cbn; lia).
    assert (0 < d2) by (unfold d2; destruct m2; cbn; lia).
    pose proof (Zdigits2_nonneg q).
    enough (d1 + s - d2 <= Zdigits2 q) by (unfold s in *; lia).
    destruct (Z_le_gt_dec (d1 + s - d2) 0) as [|Hpos]; [lia|].
    replace (d1 + s - d2) with ((d1 + s - d2 - 1) + 1) by lia.
    apply Zdigits2_lower; [lia|].
    replace q with (m' / m2) by (symmetry; apply Z.div_unique with r; lia).
    apply Z.div_le_lower_bound; [exact H2|].
    rewrite Em'.
    apply Z.le_trans with (2 ^ d2 * 2 ^ (d1 + s - d2 - 1)).
    + apply Z.mul_le_mono_nonneg_r; [apply Z.pow_nonneg; lia|lia].
    + rewrite <- Z.pow_add_r by lia.
      replace (d2 + (d1 + s - d2 - 1)) with ((d1 - 1) + s) by lia.
      rewrite Z.pow_add_r by lia.
      apply Z.mul_le_mono_nonneg_r; lia.
Qed.

(** Division of two positive floats, whatever the size of their mantissas. *)
Theorem SFdiv_rounds mx ex my ey :
  rounds_to (F2R (Z.pos mx) ex / F2R (Z.pos my) ey)
            (SFdiv prec emax (S754_finite false mx ex) (S754_finite false my ey)).
Proof.
  cbn [SFdiv xorb].
  pose proof (SFdiv_core_spec (Z.pos mx) ex (Z.pos my) ey ltac:(lia) ltac:(lia)) as H.
  destruct (SFdiv_core_binary prec emax (Z.pos mx) ex (Z.pos my) ey) as [[q e'] l].
  cbn [fst snd] in H. destruct H as (Hq & Hin & He).
  apply binary_round_aux_rounds; assumption.
Qed.

Lemma iter_xO_pos m d : Z.pos (Pos.iter xO m d) = Z.pos m * 2 ^ Z.pos d.
Proof.
  revert m. induction d as [|d IH] using Pos.peano_ind; intros m.
  - rewrite Pos.iter_succ_r || cbn. lia.
  - rewrite Pos.iter_succ, Pos2Z.inj_xO, IH, Pos2Z.inj_succ, Z.pow_succ_r by lia. ring.
Qed.

Lemma Zdigits2_mul_pow2 m d : 0 < m -> 0 <= d -> Zdigits2 (m * 2 ^ d) = Zdigits2 m + d.
Proof.
  intros Hm Hd. pose proof (Zdigits2_bounds m Hm) as [Hlo Hhi].
  assert (0 < Zdigits2 m) by (destruct m; cbn; lia).
  assert (0 < 2 ^ d) by (apply Z.pow_pos_nonneg; lia).
  apply Zdigits2_unique; [|nia].
  replace (Zdigits2 m + d - 1) with ((Zdigits2 m - 1) + d) by lia.
  rewrite !Z.pow_add_r by lia. nia.
Qed.

(** Conversion of a positive integer. *)
Theorem binary_round_rounds m e :
  rounds_to (F2R (Z.pos m) e) (binary_round prec emax false m e).
Proof.
  unfold binary_round, shl_align.
  fold (fexp64 (Z.pos (digits2_pos m) + e)).
  change (Z.pos (digits2_pos m)) with (Zdigits2 (Z.pos m)).
  destruct (fexp64 (Zdigits2 (Z.pos m) + e) - e) as [|d|d] eqn:Ed.
  - apply binary_round_aux_rounds; [lia|reflexivity|lia].
  - apply binary_round_aux_rounds; [lia|reflexivity|lia].
  - apply binary_round_aux_rounds; [lia| |].
    + cbn [inbetween]. rewrite iter_xO_pos.
      replace e with (fexp64 (Zdigits2 (Z.pos m) + e) + Z.pos d) at 1 by lia.
      apply F2R_shift. lia.
    + rewrite iter_xO_pos, Zdigits2_mul_pow2 by lia.
      replace (Zdigits2 (Z.pos m) + Z.pos d + fexp64 (Zdigits2 (Z.pos m) + e))
        with (Zdigits2 (Z.pos m) + e) by lia. lia.
Qed.

(** ** Values of the format *)

Lemma in_format_Z n : 0 <= n <= 2 ^ 53 -> in_format (IZR n).
Proof.
  intros Hn. destruct (Z.eq_dec n (2 ^ 53)) as [->|Hne].
  - exists (2 ^ 52), 1. split; [|split; [reflexivity|lia]].
    rewrite F2R_bpow by lia. rewrite bpow_IZR by lia. reflexivity.
  - exists n, 0. split; [|lia]. unfold F2R. rewrite bpow_0. lra.
Qed.

Lemma in_format_finite m e :
  bounded prec emax m e = true -> in_format (F2R (Z.pos m) e).
Proof.
  intros H. apply bounded_iff in H. destruct H as [H _].
  exists (Z.pos m), e. split; [reflexivity|].
  pose proof (Zdigits2_bounds (Z.pos m) ltac:(lia)) as [_ Hhi].
  rewrite fexp_eq in H. split; [|lia].
  apply Z.lt_le_trans with (2 ^ Zdigits2 (Z.pos m)); [lia|].
  apply Z.pow_le_mono_r; lia.
Qed.

Lemma finite_below_overflow m e :
  bounded prec emax m e = true -> (F2R (Z.pos m) e < bpow 1024)%R.
Proof.
  intros H. apply bounded_iff in H. destruct H as [H He].
  pose proof (Zdigits2_bounds (Z.pos m) ltac:(lia)) as [_ Hhi].
  rewrite fexp_eq in H.
  apply Rlt_le_trans with (F2R (2 ^ Zdigits2 (Z.pos m)) e); [apply F2R_lt; lia|].
  rewrite F2R_bpow by apply Zdigits2_nonneg. apply bpow_le. lia.
Qed.

(** A value of the format is its own rounding. *)
Lemma rounds_to_exact x z :
  rounds_to x z -> in_format x -> (x < bpow 1024)%R ->
  is_finite z = true /\ SF2R z = x.
Proof.
  intros [Hv Hu Hl] Hf Hx.
  destruct (Hu x Hf (Rle_refl x) Hx) as [Hfin Hle]. split; [exact Hfin|].
  apply Rle_antisym; [exact Hle|]. apply Hl; [exact Hf|apply Rle_refl|exact Hfin].
Qed.

(** ** Truncation *)

Lemma to_int_floor m e :
  exists a, to_int (S754_finite false m e) = Ok a /\ 0 <= a /\
            (IZR a <= F2R (Z.pos m) e < IZR a + 1)%R.
Proof.
  cbn [to_int]. destruct (Z.leb_spec 0 e) as [He|He].
  - exists (Z.pos m * 2 ^ e). split; [reflexivity|].
    assert (0 < 2 ^ e) by (apply Z.pow_pos_nonneg; lia).
    split; [nia|]. unfold F2R. rewrite mult_IZR, bpow_IZR by lia. lra.
  - exists (Z.pos m / 2 ^ (- e)). split; [reflexivity|].
    assert (0 < 2 ^ (- e)) as Hp by (apply Z.pow_pos_nonneg; lia).
    split; [apply Z.div_pos; lia|].
    pose proof (Z_div_mod_eq_full (Z.pos m) (2 ^ (- e))) as Eq.
    pose proof (Z.mod_pos_bound (Z.pos m) (2 ^ (- e)) Hp) as Hr.
    set (q := Z.pos m / 2 ^ (- e)) in *. set (r := Z.pos m mod 2 ^ (- e)) in *.
    assert (F2R (Z.pos m) e * IZR (2 ^ (- e)) = IZR (Z.pos m))%R as Ev.
    { unfold F2R. rewrite <- bpow_IZR by lia. rewrite Rmult_assoc, <- bpow_plus.
      replace (e + - e) with 0 by lia. rewrite bpow_0. lra. }
    pose proof (f_equal IZR Eq) as EqR. rewrite plus_IZR, mult_IZR in EqR.
    assert (0 < IZR (2 ^ (- e)))%R as HP by (apply IZR_lt; exact Hp).
    destruct Hr as [Hr0 Hr1]. apply IZR_le in Hr0. apply IZR_lt in Hr1.
    set (v := F2R (Z.pos m) e) in *. clearbody v.
    split; nra.
Qed.

(** ** Comparison with [1.0] *)

Lemma one_value : SF2R one = 1%R.
Proof.
  cbn [SF2R one]. change 4503599627370496 with (2 ^ 52).
  rewrite F2R_bpow by lia. reflexivity.
Qed.

Lemma gt_one_finite m e :
  bounded prec emax m e = true ->
  gt_one (S754_finite false m e) = true <-> (1 < F2R (Z.pos m) e)%R.
Proof.
  intros H. apply bounded_iff in H. destruct H as [H _]. rewrite fexp_eq in H.
  pose proof (Zdigits2_bounds (Z.pos m) ltac:(lia)) as [Hlo Hhi].
  assert (0 < Zdigits2 (Z.pos m)) by (cbn; lia).
  enough (gt_one (S754_finite false m e) = true <-> (bpow 0 < F2R (Z.pos m) e)%R) as G
    by (rewrite bpow_0 in G; exact G).
  unfold gt_one, SFltb, one. cbn [SFcompare].
  destruct (Z.compare_spec (-52) e) as [E|L|G].
  - subst e. rewrite Pos.compare_cont_spec. cbn [Pos.switch_Eq].
    change (bpow 0) with (bpow (52 + -52)). rewrite <- F2R_bpow by lia.
    change (2 ^ 52) with 4503599627370496.
    destruct (Pos.compare_spec 4503599627370496 m) as [E|L|G].
    + subst m. split; [discriminate|]. intros Hc. apply Rlt_irrefl in Hc. contradiction.
    + split; [intros _; apply F2R_lt, Pos2Z.pos_lt_pos; exact L|reflexivity].
    + split; [discriminate|]. intros Hc. apply F2R_lt_inv in Hc.
      apply Pos2Z.pos_lt_pos in G. clear - Hc G. lia.
  - split; [intros _|reflexivity].
    assert (Zdigits2 (Z.pos m) = 53) as Hd by lia. rewrite Hd in Hlo.
    apply Rlt_le_trans with (F2R (2 ^ 52) e); [|apply F2R_le; lia].
    rewrite F2R_bpow by lia. apply bpow_lt. lia.
  - split; [discriminate|]. intros Hc. exfalso.
    assert (F2R (Z.pos m) e < bpow 0)%R; [|lra].
    apply Rlt_le_trans with (F2R (2 ^ Zdigits2 (Z.pos m)) e); [apply F2R_lt; lia|].
    rewrite F2R_bpow by lia. apply bpow_le. lia.
Qed.

Lemma valid_nonneg_cases z :
  valid_nonneg z -> is_finite z = true ->
  z = S754_zero false \/
  exists m e, z = S754_finite false m e /\ bounded prec emax m e = true.
Proof.
  destruct z as [[]|[]| |[] m e]; cbn; try contradiction; try discriminate; eauto.
Qed.

Lemma bpow_1024_IZR : bpow 1024 = IZR (2 ^ 1024).
Proof. apply bpow_IZR. lia. Qed.

Lemma IZR_below_overflow n : n <= 2 ^ 53 -> (IZR n < bpow 1024)%R.
Proof.
  intros H. rewrite bpow_1024_IZR. apply IZR_lt.
  apply Z.le_lt_trans with (2 ^ 53); [exact H|]. apply Z.pow_lt_mono_r; lia.
Qed.

(** [float(T)] is exact up to [2 ^ 53]. *)
Lemma of_int_exact T :
  0 < T <= 2 ^ 53 ->
  exists m e, of_int T = Ok (S754_finite false m e) /\
              bounded prec emax m e = true /\ F2R (Z.pos m) e = IZR T.
Proof.
  intros [Hpos Hle]. destruct T as [|p|p]; try lia.
  unfold of_int. cbn [binary_normalize].
  pose proof (binary_round_rounds p 0) as Hr.
  assert (F2R (Z.pos p) 0 = IZR (Z.pos p)) as Ev by (unfold F2R; rewrite bpow_0; lra).
  rewrite Ev in Hr.
  destruct (rounds_to_exact _ _ Hr) as [Hfin Hval];
    [apply in_format_Z; lia|apply IZR_below_overflow; exact Hle|].
  destruct (valid_nonneg_cases _ (rt_valid _ _ Hr) Hfin) as [E|(m & e & E & Hb)];
    rewrite E in *.
  - cbn [SF2R] in Hval. apply eq_IZR in Hval. lia.
  - exists m, e. repeat split; assumption.
Qed.

(** [int(x)] of a rounded value that an integer bounds. *)
Lemma to_int_rounded x z B :
  rounds_to x z -> (0 <= x <= IZR B)%R -> 0 <= B <= 2 ^ 53 ->
  exists n, to_int z = Ok n /\ 0 <= n <= B /\
            (IZR n <= SF2R z < IZR n + 1)%R.
Proof.
  intros Hr [Hx0 HxB] HB.
  destruct (rt_upper _ _ Hr (IZR B)) as [Hfin Hle];
    [apply in_format_Z; exact HB|exact HxB|apply IZR_below_overflow; lia|].
  destruct (valid_nonneg_cases _ (rt_valid _ _ Hr) Hfin) as [E|(m & e & E & Hb)];
    rewrite E in *.
  - exists 0. cbn [to_int SF2R]. split; [reflexivity|]. split; [lia|lra].
  - destruct (to_int_floor m e) as (n & En & Hn0 & Hfl). exists n.
    cbn [SF2R] in *. split; [exact En|]. split; [|exact Hfl]. split; [exact Hn0|].
    apply le_IZR. lra.
Qed.

(** The aspect ratio of an image with positive sides. *)
Lemma int_truediv_rounds w h :
  0 < w -> 0 < h ->
  (exists a, int_truediv w h = Ok a /\ is_finite a = true /\
             rounds_to (IZR w / IZR h) a) \/
  (int_truediv w h = Raise OverflowError /\ 2 ^ 1023 <= w).
Proof.
  intros Hw Hh. unfold int_truediv.
  rewrite (proj2 (Z.eqb_neq h 0)), (proj2 (Z.eqb_neq w 0)) by lia.
  rewrite (proj2 (Z.ltb_ge w 0)), (proj2 (Z.ltb_ge h 0)) by lia.
  rewrite !Z.abs_eq by lia.
  pose proof (SFdiv_rounds (Z.to_pos w) 0 (Z.to_pos h) 0) as Hr.
  rewrite !Z2Pos.id in Hr by lia.
  assert (forall n, F2R n 0 = IZR n) as Ev by (intros n; unfold F2R; rewrite bpow_0; lra).
  rewrite !Ev in Hr.
  set (z := SFdiv prec emax _ _) in *. clearbody z.
  pose proof (rt_valid _ _ Hr) as Hv.
  destruct z as [[]|[]| |[] m e]; cbn in Hv; try contradiction.
  - left. eexists. split; [reflexivity|]. split; [reflexivity|exact Hr].
  - right. split; [reflexivity|].
    destruct (Z_le_gt_dec (2 ^ 1023) w) as [|Hlt]; [assumption|exfalso].
    destruct (rt_upper _ _ Hr (bpow 1023)) as [Hfin _]; [| | |discriminate].
    + exists 1, 1023. split; [unfold F2R; lra|lia].
    + rewrite bpow_IZR by lia.
      apply Rle_trans with (IZR w); [|apply IZR_le; lia].
      assert (1 <= IZR h)%R by (apply IZR_le; lia).
      assert (0 < IZR w)%R by (apply IZR_lt; lia).
      apply Rmult_le_reg_r with (IZR h); [lra|].
      unfold Rdiv. rewrite Rmult_assoc, Rinv_l by lra. nra.
    + apply bpow_lt. lia.
  - left. eexists. split; [reflexivity|]. split; [reflexivity|exact Hr].
Qed.

Lemma gt_one_rounded x a :
  rounds_to x a -> is_finite a = true -> (0 <= x)%R ->
  (gt_one a = true -> (1 <= x)%R) /\ (gt_one a = false -> (x < 1 + bpow (-52))%R).
Proof.
  intros Hr Hfin Hx.
  assert (in_format 1) as F1.
  { exists 1, 0. split; [unfold F2R; rewrite bpow_0; lra|lia]. }
  assert (in_format (1 + bpow (-52))) as F2.
  { exists (2 ^ 52 + 1), (-52). split; [|lia].
    unfold F2R. rewrite plus_IZR, Rmult_plus_distr_r.
    change (IZR (2 ^ 52) * bpow (-52))%R with (F2R (2 ^ 52) (-52)).
    rewrite F2R_bpow by lia. change (52 + -52) with 0. rewrite bpow_0. lra. }
  assert (1 < bpow 1024)%R as Hone by (rewrite <- bpow_0; apply bpow_lt; lia).
  destruct (valid_nonneg_cases _ (rt_valid _ _ Hr) Hfin) as [E|(m & e & E & Hb)];
    rewrite E in *.
  - split; [discriminate|]. intros _.
    destruct (Rlt_le_dec x (1 + bpow (-52))) as [|Hge]; [assumption|exfalso].
    pose proof (rt_lower _ _ Hr _ F2 Hge eq_refl) as Hl. cbn [SF2R] in Hl.
    pose proof (bpow_gt_0 (-52)). lra.
  - pose proof (gt_one_finite m e Hb) as Hg. split; intros Hc.
    + apply Hg in Hc.
      destruct (Rlt_le_dec x 1) as [Hlt|]; [exfalso|assumption].
      destruct (rt_upper _ _ Hr 1 F1 ltac:(lra) Hone) as [_ Hu]. cbn [SF2R] in Hu. lra.
    + destruct (Rlt_le_dec x (1 + bpow (-52))) as [|Hge]; [assumption|exfalso].
      pose proof (rt_lower _ _ Hr _ F2 Hge eq_refl) as Hl. cbn [SF2R] in Hl.
      assert (1 < F2R (Z.pos m) e)%R as H1 by (pose proof (bpow_gt_0 (-52)); lra).
      apply Hg in H1. congruence.
Qed.

Lemma F2R_pos m e : (0 < F2R (Z.pos m) e)%R.
Proof.
  unfold F2R. apply Rmult_lt_0_compat; [apply IZR_lt; lia|apply bpow_gt_0].
Qed.

Lemma scaled_size_cases w h T :
  0 < w -> 0 < h -> 0 < T <= 2 ^ 53 ->
  (exists a, int_truediv w h = Ok a /\ is_finite a = true /\
             rounds_to (IZR w / IZR h) a /\
     exists nw nh, scaled_size w h T = Ok (nw, nh) /\
       0 <= nw <= T /\ 0 <= nh <= T /\
       if gt_one a
       then nw = T /\ exists q, int_div_float T a = Ok q /\ floor_of q nh
       else nh = T /\ exists q, int_mul_float T a = Ok q /\ floor_of q nw) \/
  (scaled_size w h T = Raise OverflowError /\ 2 ^ 1023 <= w).
Proof.
  intros Hw Hh HT.
  destruct (int_truediv_rounds w h Hw Hh) as [(a & Ea & Hfin & Hr)|[Ea Hbig]].
  2:{ right. unfold scaled_size. rewrite Ea. split; [reflexivity|exact Hbig]. }
  left. exists a. split; [exact Ea|]. split; [exact Hfin|]. split; [exact Hr|].
  destruct (of_int_exact T HT) as (mT & eT & ET & HbT & HvT).
  assert (0 < IZR T)%R as HTpos by (apply IZR_lt; lia).
  assert (0 < IZR w / IZR h)%R as Hx.
  { apply Rdiv_lt_0_compat; apply IZR_lt; lia. }
  unfold scaled_size. rewrite Ea. cbn [rbind].
  unfold int_div_float, int_mul_float. rewrite ET. cbn [rbind].
  destruct (valid_nonneg_cases _ (rt_valid _ _ Hr) Hfin) as [E|(m & e & E & Hb)];
    subst a.
  - (* the ratio underflows to zero *)
    change (gt_one (S754_zero false)) with false. cbn [SFmul xorb rbind to_int].
    exists 0, T. split; [reflexivity|]. split; [lia|]. split; [lia|].
    split; [reflexivity|]. eexists. split; [reflexivity|].
    unfold floor_of. cbn [SF2R]. lra.
  - pose proof (gt_one_finite m e Hb) as Hg.
    pose proof (F2R_pos m e) as HA.
    destruct (gt_one (S754_finite false m e)) eqn:Eg; cbn [is_zero rbind].
    + assert (1 < F2R (Z.pos m) e)%R as H1 by (apply Hg; reflexivity).
      pose proof (SFdiv_rounds mT eT m e) as Hq. rewrite HvT in Hq.
      destruct (to_int_rounded _ _ T Hq) as (n & En & Hn & Hfl); [|lia|].
      { split.
        - apply Rlt_le, Rdiv_lt_0_compat; lra.
        - apply Rmult_le_reg_r with (F2R (Z.pos m) e); [lra|].
          unfold Rdiv. rewrite Rmult_assoc, Rinv_l by lra. nra. }
      rewrite En. cbn [rbind]. exists T, n.
      split; [reflexivity|]. split; [lia|]. split; [exact Hn|].
      split; [reflexivity|]. eexists. split; [reflexivity|exact Hfl].
    + assert (F2R (Z.pos m) e <= 1)%R as H1.
      { destruct (Rle_lt_dec (F2R (Z.pos m) e) 1) as [|Hc]; [assumption|].
        apply Hg in Hc. discriminate. }
      pose proof (SFmul_rounds mT eT m e HbT Hb) as Hq. rewrite HvT in Hq.
      destruct (to_int_rounded _ _ T Hq) as (n & En & Hn & Hfl); [|lia|].
      { split; nra. }
      rewrite En. cbn [rbind]. exists n, T.
      split; [reflexivity|]. split; [exact Hn|]. split; [lia|].
      split; [reflexivity|]. eexists. split; [reflexivity|exact Hfl].
Qed.

(** The branch taken is the one the sides select. *)
Lemma gt_one_aspect w h a :
  0 < w -> 0 < h <= 2 ^ 52 ->
  rounds_to (IZR w / IZR h) a -> is_finite a = true ->
  gt_one a = true <-> h < w.
Proof.
  intros Hw Hh Hr Hfin.
  assert (0 < IZR h)%R as Hh' by (apply IZR_lt; lia).
  assert (0 < IZR w)%R as Hw' by (apply IZR_lt; lia).
  assert (0 <= IZR w / IZR h)%R as Hx by (apply Rlt_le, Rdiv_lt_0_compat; lra).
  destruct (gt_one_rounded _ _ Hr Hfin Hx) as [Ht Hf].
  assert (IZR w / IZR h * IZR h = IZR w)%R as Ew by (field; lra).
  set (x := (IZR w / IZR h)%R) in *. clearbody x.
  split.
  - intros Hg. specialize (Ht Hg).
    destruct (Z_lt_le_dec h w) as [|Hle]; [assumption|exfalso].
    destruct (Z.eq_dec w h) as [->|Hne].
    + (* a square image: the ratio is exactly one *)
      assert (x = 1)%R as -> by nra.
      assert (in_format 1) as F1.
      { exists 1, 0. split; [unfold F2R; rewrite bpow_0; lra|lia]. }
      assert (1 < bpow 1024)%R as Hone by (rewrite <- bpow_0; apply bpow_lt; lia).
      destruct (rounds_to_exact _ _ Hr F1 Hone) as [_ Hv].
      destruct (valid_nonneg_cases _ (rt_valid _ _ Hr) Hfin) as [E|(m & e & E & Hb)];
        subst a; [discriminate|].
      apply (gt_one_finite m e Hb) in Hg. cbn [SF2R] in Hv. lra.
    + assert (IZR w <= IZR h - 1)%R.
      { rewrite <- minus_IZR. apply IZR_le. lia. }
      nra.
  - intros Hlt.
    destruct (gt_one a) eqn:Eg; [reflexivity|exfalso].
    specialize (Hf eq_refl).
    assert (IZR h + 1 <= IZR w)%R.
    { rewrite <- plus_IZR. apply IZR_le. lia. }
    assert (IZR h * bpow (-52) <= 1)%R.
    { apply Rle_trans with (IZR (2 ^ 52) * bpow (-52))%R.
      - apply Rmult_le_compat_r; [apply Rlt_le, bpow_gt_0|apply IZR_le; lia].
      - change (IZR (2 ^ 52) * bpow (-52))%R with (F2R (2 ^ 52) (-52)).
        rewrite F2R_bpow by lia. change (52 + -52) with 0. rewrite bpow_0. lra. }
    nra.
Qed.

(** A square image is scaled to the whole canvas. *)
Lemma scaled_size_square w T :
  0 < w -> 0 < T <= 2 ^ 53 -> scaled_size w w T = Ok (T, T).
Proof.
  intros Hw HT.
  assert (in_format 1) as F1.
  { exists 1, 0. split; [unfold F2R; rewrite bpow_0; lra|lia]. }
  assert (1 < bpow 1024)%R as Hone by (rewrite <- bpow_0; apply bpow_lt; lia).
  assert (0 < IZR w)%R as Hw' by (apply IZR_lt; lia).
  assert (IZR w / IZR w = 1)%R as E1 by (field; lra).
  destruct (int_truediv_rounds w w Hw Hw) as [(a & Ea & Hfin & Hr)|[Ea Hbig]].
  2:{ exfalso. unfold int_truediv in Ea.
      rewrite (proj2 (Z.eqb_neq w 0)), (proj2 (Z.ltb_ge w 0)), Z.abs_eq in Ea by lia.
      pose proof (SFdiv_rounds (Z.to_pos w) 0 (Z.to_pos w) 0) as Hr.
      assert (F2R (Z.pos (Z.to_pos w)) 0 / F2R (Z.pos (Z.to_pos w)) 0 = 1)%R as E.
      { pose proof (F2R_pos (Z.to_pos w) 0). field. lra. }
      rewrite E in Hr. destruct (rounds_to_exact _ _ Hr F1 Hone) as [Hf _].
      destruct (SFdiv prec emax _ _) as [| | |]; try discriminate.  }
  rewrite E1 in Hr. destruct (rounds_to_exact _ _ Hr F1 Hone) as [_ Hv].
  destruct (of_int_exact T HT) as (mT & eT & ET & HbT & HvT).
  destruct (valid_nonneg_cases _ (rt_valid _ _ Hr) Hfin) as [E|(m & e & E & Hb)];
    subst a; cbn [SF2R] in Hv; [lra|].
  unfold scaled_size. rewrite Ea. cbn [rbind].
  assert (gt_one (S754_finite false m e) = false) as Eg.
  { destruct (gt_one (S754_finite false m e)) eqn:Eg; [|reflexivity].
    apply (gt_one_finite m e Hb) in Eg. lra. }
  rewrite Eg. unfold int_mul_float. rewrite ET. cbn [rbind].
  pose proof (SFmul_rounds mT eT m e HbT Hb) as Hq. rewrite HvT, Hv, Rmult_1_r in Hq.
  destruct (rounds_to_exact _ _ Hq) as [Hqf Hqv];
    [apply in_format_Z; lia|apply IZR_below_overflow; lia|].
  assert (0 < IZR T)%R as HTpos by (apply IZR_lt; lia).
  destruct (to_int_rounded _ _ T Hq) as (n & En & Hn & Hfl); [lra|lia|].
  rewrite En. cbn [rbind]. rewrite Hqv in Hfl.
  assert (n = T) as ->; [|reflexivity].
  destruct Hfl as [Hlo Hhi]. apply le_IZR in Hlo.
  rewrite <- plus_IZR in Hhi. apply lt_IZR in Hhi. lia.
Qed.

(** * Shapes of the scaled size *)

Lemma gt_one_nonzero a : gt_one a = true -> is_zero a = false.
Proof. destruct a as [[]|[]| |s m e]; cbn; intros H; try discriminate; reflexivity. Qed.

Lemma of_int_raises z e : of_int z = Raise e -> e = OverflowError.
Proof.
  unfold of_int. destruct (binary_normalize prec emax z 0 false); congruence.
Qed.

Lemma to_int_raises x e : to_int x = Raise e -> e = ValueError \/ e = OverflowError.
Proof. destruct x; cbn; intros [= <-]; auto. Qed.

Lemma int_truediv_raises a b e :
  b <> 0 -> int_truediv a b = Raise e -> e = OverflowError.
Proof.
  intros Hb. unfold int_truediv. rewrite (proj2 (Z.eqb_neq b 0) Hb).
  destruct (a =? 0); [discriminate|].
  destruct (SFdiv prec emax _ _); congruence.
Qed.

Lemma int_truediv_zero b : b <> 0 -> int_truediv 0 b = Ok (S754_zero (b <? 0)).
Proof. intros Hb. unfold int_truediv. rewrite (proj2 (Z.eqb_neq b 0) Hb). reflexivity. Qed.

Lemma scaled_size_shape w h T :
  0 <= w -> 0 < h ->
  match scaled_size w h T with
  | Raise e => e = ValueError \/ e = OverflowError
  | Ok (nw, nh) => (nw = T /\ 0 < w) \/ nh = T
  end.
Proof.
  intros Hw Hh. unfold scaled_size.
  destruct (int_truediv w h) as [a|e] eqn:Ea; cbn [rbind].
  2:{ right. apply (int_truediv_raises w h); [lia|exact Ea]. }
  destruct (gt_one a) eqn:Eg.
  - assert (0 < w) as Hpos.
    { destruct (Z.eq_dec w 0) as [->|]; [|lia].
      rewrite int_truediv_zero in Ea by lia. injection Ea as <-.
      destruct (h <? 0); discriminate. }
    unfold int_div_float. destruct (of_int T) as [fT|e] eqn:ET; cbn [rbind].
    2:{ right. apply (of_int_raises T). exact ET. }
    rewrite (gt_one_nonzero a Eg). cbn [rbind].
    destruct (to_int (SFdiv prec emax fT a)) as [n|e] eqn:En; cbn [rbind].
    + left. split; [reflexivity|exact Hpos].
    + apply (to_int_raises _ _ En).
  - unfold int_mul_float. destruct (of_int T) as [fT|e] eqn:ET; cbn [rbind].
    2:{ right. apply (of_int_raises T). exact ET. }
    destruct (to_int (SFmul prec emax fT a)) as [n|e] eqn:En; cbn [rbind].
    + right. reflexivity.
    + apply (to_int_raises _ _ En).
Qed.

Lemma scaled_size_zero_height w T : scaled_size w 0 T = Raise ZeroDivisionError.
Proof. reflexivity. Qed.

Lemma paste_offset_bounds T n :
  0 <= n <= T ->
  0 <= paste_offset T n /\ paste_offset T n + n <= T.
Proof.
  intros H. unfold paste_offset.
  pose proof (Z.div_pos (T - n) 2 ltac:(lia) ltac:(lia)).
  pose proof (Z.mul_div_le (T - n) 2 ltac:(lia)). lia.
Qed.

Lemma in_box_iff x0 y0 w h x y :
  in_box x0 y0 w h x y = true <-> x0 <= x < x0 + w /\ y0 <= y < y0 + h.
Proof.
  unfold in_box. rewrite !andb_true_iff, !Z.leb_le, !Z.ltb_lt. lia.
Qed.

(** * Runs of the notebook's functions *)

Lemma bind_run {A B} (m : M A) (k : A -> M B) s a s1 :
  m s = (Ok a, s1) -> bind m k s = k a s1.
Proof. unfold bind. intros ->. reflexivity. Qed.

Lemma bind_raise {A B} (m : M A) (k : A -> M B) s e s1 :
  m s = (Raise e, s1) -> bind m k s = (Raise e, s1).
Proof. unfold bind. intros ->. reflexivity. Qed.

Lemma deref_run s r im : heap s !! r = Some im -> deref r s = (Ok im, s).
Proof. intros H. unfold deref. rewrite H. reflexivity. Qed.

Lemma lookup_new_canvas (h : list Image) (rz out : Image) :
  (h ++ [rz; out]) !! S (length h) = Some out.
Proof.
  replace (h ++ [rz; out]) with ((h ++ [rz]) ++ [out])
    by (rewrite <- app_assoc; reflexivity).
  apply list_lookup_middle. rewrite length_app. cbn. lia.
Qed.

Lemma Image_paste_run s dst src d sm x0 y0 :
  heap s !! dst = Some d -> heap s !! src = Some sm ->
  Image_paste dst src (x0, y0) s =
    (Ok tt, with_heap s (<[dst := pasted d sm x0 y0]> (heap s))).
Proof.
  intros Hd Hs. unfold Image_paste.
  rewrite (bind_run _ _ _ _ _ (deref_run s dst d Hd)).
  rewrite (bind_run _ _ _ _ _ (deref_run s src sm Hs)).
  reflexivity.
Qed.

Section Runs.
Variable lanczos : resampler.

Lemma Image_resize_run s r img w h :
  heap s !! r = Some img ->
  Image_resize lanczos r (w, h) s =
    match resized_image lanczos img w h with
    | Ok rz => (Ok (length (heap s)), with_heap s (heap s ++ [rz]))
    | Raise e => (Raise e, s)
    end.
Proof.
  intros H. unfold Image_resize, bind, resized_image. rewrite (deref_run _ _ _ H).
  destruct ((width img =? w) && (height img =? h)); [reflexivity|].
  destruct (negb (c_int w && c_int h)); [reflexivity|].
  destruct ((w <? 1) || (h <? 1)); [reflexivity|].
  destruct (MAX_XSIZE <? w); [reflexivity|].
  destruct (lanczos img w h); reflexivity.
Qed.

Lemma resized_image_size img w h rz :
  resized_image lanczos img w h = Ok rz -> width rz = w /\ height rz = h.
Proof.
  unfold resized_image.
  destruct ((width img =? w) && (height img =? h)) eqn:E.
  - intros [= <-]. cbn. apply andb_true_iff in E. lia.
  - destruct (negb (c_int w && c_int h)); [discriminate|].
    destruct ((w <? 1) || (h <? 1)); [discriminate|].
    destruct (MAX_XSIZE <? w); [discriminate|].
    destruct (lanczos img w h); [|discriminate]. intros [= <-]. cbn. lia.
Qed.

Theorem resize_and_pad_run s image img T :
  heap s !! image = Some img ->
  resize_and_pad lanczos image T s =
    match scaled_size (width img) (height img) T with
    | Raise e => (Raise e, s)
    | Ok (new_width, new_height) =>
        match resized_image lanczos img new_width new_height with
        | Raise e => (Raise e, s)
        | Ok rz =>
            if T <? 0 then (Raise ValueError, with_heap s (heap s ++ [rz]))
            else (Ok (S (length (heap s))),
                  with_heap s (heap s ++ [rz; letterbox T rz]))
        end
    end.
Proof.
  intros H. unfold resize_and_pad. unfold bind at 1. rewrite (deref_run _ _ _ H).
  unfold bind at 1. unfold lift.
  destruct (scaled_size (width img) (height img) T) as [[nw nh]|e]; [|reflexivity].
  unfold bind at 1. rewrite (Image_resize_run _ _ _ _ _ H).
  destruct (resized_image lanczos img nw nh) as [rz|e] eqn:Erz; [|reflexivity].
  destruct (resized_image_size _ _ _ _ Erz) as [Ew Eh].
  unfold bind at 1. unfold Image_new. rewrite orb_diag.
  destruct (T <? 0); [reflexivity|].
  unfold alloc, with_heap. cbn [heap pipeline_calls displayed].
  unfold bind at 1. unfold Image_paste, bind, deref, store, ret.
  cbn [heap pipeline_calls displayed].
  rewrite (list_lookup_middle (heap s ++ [rz]) [] _ _ eq_refl).
  rewrite <- app_assoc. cbn [app heap pipeline_calls displayed].
  rewrite (list_lookup_middle (heap s) [_] rz _ eq_refl).
  cbn [heap pipeline_calls displayed width height getpixel].
  rewrite length_app. cbn [length].
  rewrite (insert_app_r (heap s) [rz; _] 1).
  cbn [insert list_insert]. unfold letterbox.
  rewrite Ew, Eh. cbn [width height].
  f_equal. f_equal. lia.
Qed.

Lemma resize_and_pad_normalized s image img T rz out :
  heap s !! image = Some img ->
  normalized lanczos img T = Ok (rz, out) ->
  resize_and_pad lanczos image T s =
    (Ok (S (length (heap s))), with_heap s (heap s ++ [rz; out])) /\
  width out = T /\ height out = T.
Proof.
  intros Himg Hn. rewrite (resize_and_pad_run s image img T Himg).
  unfold normalized in Hn.
  destruct (scaled_size (width img) (height img) T) as [[nw nh]|e]; [|discriminate].
  destruct (resized_image lanczos img nw nh) as [rz'|e]; [|discriminate].
  destruct (T <? 0); [discriminate|]. injection Hn as <- <-.
  split; [reflexivity|]. split; reflexivity.
Qed.

Lemma normalized_size img T rz out :
  normalized lanczos img T = Ok (rz, out) ->
  width out = T /\ height out = T /\ 0 <= T.
Proof.
  unfold normalized.
  destruct (scaled_size (width img) (height img) T) as [[nw nh]|e]; [|discriminate].
  destruct (resized_image lanczos img nw nh) as [rz'|e]; [|discriminate].
  destruct (Z.ltb_spec T 0); [discriminate|]. intros [= <- <-].
  split; [reflexivity|]. split; [reflexivity|lia].
Qed.

Lemma resize_loop_run images size : forall m k acc s,
  (forall j, (j < m)%nat -> exists r img,
     images !! (k + j)%nat = Some r /\ heap s !! r = Some img /\
     is_ok (normalized lanczos img size) = true) ->
  exists news refs,
    resize_loop lanczos (seq k m) images size acc s =
      (Ok (acc ++ refs), with_heap s (heap s ++ news)) /\
    length refs = m /\
    forall j, (j < m)%nat -> exists r img r' rz out,
      images !! (k + j)%nat = Some r /\ heap s !! r = Some img /\
      refs !! j = Some r' /\ normalized lanczos img size = Ok (rz, out) /\
      (heap s ++ news) !! r' = Some out /\ (length (heap s) <= r')%nat.
Proof.
  induction m as [|m IH]; intros k acc s H.
  - exists [], []. cbn [seq resize_loop ret]. rewrite !app_nil_r.
    split; [destruct s; reflexivity|]. split; [reflexivity|]. intros j Hj. lia.
  - destruct (H 0%nat ltac:(lia)) as (r & img & Hr & Himg & Hok).
    rewrite Nat.add_0_r in Hr.
    destruct (normalized lanczos img size) as [[rz out]|e] eqn:En; [|discriminate].
    destruct (resize_and_pad_normalized s r img size rz out Himg En) as (Erun & Hw & Hh).
    cbn [seq resize_loop]. unfold bind at 1. unfold list_index. rewrite Hr.
    cbn [ret]. unfold bind at 1. rewrite Erun.
    destruct (IH (S k) (acc ++ [S (length (heap s))])
                (with_heap s (heap s ++ [rz; out]))) as (news & refs & Eloop & Hlen & Hrefs).
    { intros j Hj. destruct (H (S j) ltac:(lia)) as (r1 & img1 & Hr1 & Himg1 & Hok1).
      exists r1, img1. replace (S k + j)%nat with (k + S j)%nat by lia.
      split; [exact Hr1|]. split; [|exact Hok1].
      cbn [with_heap heap]. apply lookup_app_l_Some. exact Himg1. }
    exists ([rz; out] ++ news), (S (length (heap s)) :: refs).
    split.
    { etransitivity; [exact Eloop|]. cbn [with_heap heap pipeline_calls displayed].
      rewrite <- !app_assoc. reflexivity. }
    split; [cbn; lia|].
    intros [|j] Hj.
    + exists r, img, (S (length (heap s))), rz, out. rewrite Nat.add_0_r.
      split; [exact Hr|]. split; [exact Himg|]. split; [reflexivity|].
      split; [exact En|]. split; [|lia].
      rewrite app_assoc. apply lookup_app_l_Some. apply lookup_new_canvas.
    + destruct (Hrefs j ltac:(lia)) as (r1 & img1 & r1' & rz1 & out1 & A & B & C & D & E & F).
      cbn [with_heap heap] in *.
      destruct (H (S j) ltac:(lia)) as (r2 & img2 & Hr2 & Himg2 & _).
      assert (images !! (k + S j)%nat = Some r1) as A'
        by (rewrite <- A; f_equal; lia).
      rewrite Hr2 in A'. injection A' as <-.
      pose proof (lookup_app_l_Some _ [rz; out] _ _ Himg2) as Himg2'.
      assert (Some img1 = Some img2) as X
        by (etransitivity; [symmetry; exact B|exact Himg2']).
      injection X as ->.
      exists r2, img2, r1', rz1, out1.
      split; [exact Hr2|]. split; [exact Himg2|]. split; [exact C|].
      split; [exact D|]. rewrite <- app_assoc in E. split; [exact E|].
      rewrite length_app in F. lia.
Qed.

End Runs.

Lemma paste_loop_run (h : list Image) cols w hh : forall items g s,
  heap s = h ++ [g] ->
  Forall (fun item => (snd item < length h)%nat) items ->
  exists g',
    paste_loop (length h) items cols w hh s = (Ok tt, with_heap s (h ++ [g'])) /\
    width g' = width g /\ height g' = height g.
Proof.
  induction items as [|[i r] items IH]; intros g s Hs Hall.
  - exists g. cbn [paste_loop ret]. rewrite <- Hs.
    split; [destruct s; reflexivity|]. split; reflexivity.
  - apply Forall_cons in Hall. destruct Hall as [Hr Hall]. cbn [snd] in Hr.
    destruct (lookup_lt_is_Some_2 h r Hr) as [im Him].
    assert (heap s !! length h = Some g) as Hg
      by (rewrite Hs; apply list_lookup_middle; reflexivity).
    assert (heap s !! r = Some im) as Hi
      by (rewrite Hs; apply lookup_app_l_Some; exact Him).
    cbn [paste_loop].
    rewrite (bind_run _ _ _ _ _ (Image_paste_run s _ _ g im _ _ Hg Hi)).
    set (g1 := pasted g im _ _).
    assert (<[length h := g1]> (heap s) = h ++ [g1]) as Eh.
    { rewrite Hs. replace (length h) with (length h + 0)%nat by lia.
      rewrite insert_app_r. reflexivity. }
    rewrite Eh.
    destruct (IH g1 (with_heap s (h ++ [g1])) eq_refl Hall) as (g' & Erun & Hw' & Hh').
    exists g'. split; [exact Erun|]. split; assumption.
Qed.

Lemma make_image_grid_run s refs first T :
  refs !! 0%nat = Some first ->
  Forall (fun r => (r < length (heap s))%nat) refs ->
  (exists im, heap s !! first = Some im /\ width im = T /\ height im = T) ->
  0 <= T ->
  exists g,
    make_image_grid refs 1 (Z.of_nat (length refs)) s =
      (Ok (length (heap s)), with_heap s (heap s ++ [g])) /\
    width g = Z.of_nat (length refs) * T /\ height g = T.
Proof.
  intros Hfirst Hall (im & Him & Hw & Hh) HT. unfold make_image_grid.
  replace (1 * Z.of_nat (length refs)) with (Z.of_nat (length refs)) by lia.
  rewrite Z.eqb_refl. cbn [negb].
  unfold list_index. rewrite Hfirst.
  rewrite (bind_run _ _ _ _ _ (eq_refl : ret first s = (Ok first, s))).
  rewrite (bind_run _ _ _ _ _ (deref_run s first im Him)).
  unfold Image_new. rewrite Hw, Hh.
  rewrite (proj2 (Z.ltb_ge (Z.of_nat (length refs) * T) 0)) by nia.
  rewrite (proj2 (Z.ltb_ge (1 * T) 0)) by lia. cbn [orb].
  unfold bind at 1. unfold alloc.
  set (g0 := mkImage _ _ _).
  destruct (paste_loop_run (heap s) (Z.of_nat (length refs)) T T
              (zip (seq 0 (length refs)) refs) g0
              (mkState (heap s ++ [g0]) (pipeline_calls s) (displayed s)) eq_refl)
    as (g' & Erun & Hw' & Hh').
  { apply Forall_forall. intros [i r] Hin. cbn [snd].
    apply elem_of_zip_r in Hin. cbn [snd] in Hin.
    rewrite Forall_forall in Hall. apply Hall. exact Hin. }
  exists g'. rewrite (bind_run _ _ _ _ _ Erun). cbn [ret].
  split; [reflexivity|]. rewrite Hw', Hh'. unfold g0. cbn [width height].
  split; lia.
Qed.

(** * The claims of the specification *)

(** ** C1: the size of the output *)

(** Claim C1: for every image with positive sides and every positive
    [target_size], [resize_and_pad] returns an image whose sides both equal
    [target_size].  The notebook breaks it on a thin image: for a
    three-by-one image and [target_size = 2], line 137 computes
    [new_height = int(2 / 3.0) = 0], [image.resize((2, 0))] raises
    [ValueError], and the call returns no image and leaves the store as it
    was. *)
Theorem resize_and_pad_raises_on_thin_image lanczos px :
  scaled_size 3 1 2 = Ok (2, 0) /\
  resize_and_pad lanczos 0%nat 2 (store_with (mkImage 3 1 px))
    = (Raise ValueError, store_with (mkImage 3 1 px)).
Proof.
  split; [reflexivity|].
  rewrite (resize_and_pad_run lanczos _ _ (mkImage 3 1 px)) by reflexivity.
  reflexivity.
Qed.

(** ** C2: the scaled size *)

(** Claim C2 as worded, with [round]: for a three-by-two image and
    [target_size = 4] the notebook computes [new_height = int(2.66...) = 2],
    the specification's wording [round(2.66...) = 3]. *)
Lemma scaled_size_truncates :
  scaled_size 3 2 4 = Ok (4, 2) /\ spec_scaled_size 3 2 4 = Ok (4, 3).
Proof. split; reflexivity. Qed.

(** Claim C2, amended: for an image with sides below [2 ^ 31] and a
    [target_size] from 1 to [2 ^ 53], the scaled size is computed by
    truncation, Python's [int].  The branch [aspect_ratio > 1] is taken
    exactly when the image is wider than tall; then [new_width =
    target_size] and [new_height] is the integer part of the float
    [target_size / aspect_ratio]; otherwise [new_height = target_size] and
    [new_width] is the integer part of the float [target_size *
    aspect_ratio]; a square image takes the second branch and gets
    [new_width = new_height = target_size]. *)
Theorem scaled_size_by_truncation w h T :
  0 < w < 2 ^ 31 -> 0 < h < 2 ^ 31 -> 0 < T <= 2 ^ 53 ->
  exists aspect_ratio new_width new_height,
    int_truediv w h = Ok aspect_ratio /\
    scaled_size w h T = Ok (new_width, new_height) /\
    (gt_one aspect_ratio = true <-> h < w) /\
    (h < w -> new_width = T /\
       exists q, int_div_float T aspect_ratio = Ok q /\ floor_of q new_height) /\
    (w <= h -> new_height = T /\
       exists q, int_mul_float T aspect_ratio = Ok q /\ floor_of q new_width) /\
    (w = h -> new_width = T /\ new_height = T).
Proof.
  intros Hw Hh HT.
  destruct (scaled_size_cases w h T) as [(a & Ea & Hfin & Hr & nw & nh & Es & Hnw & Hnh & Hb)|[_ Hbig]];
    [lia|lia|exact HT| |].
  2:{ exfalso. assert (2 ^ 31 < 2 ^ 1023) by (apply Z.pow_lt_mono_r; lia). lia. }
  assert (h <= 2 ^ 52) as Hh52.
  { assert (2 ^ 31 < 2 ^ 52) by (apply Z.pow_lt_mono_r; lia). lia. }
  pose proof (gt_one_aspect w h a ltac:(lia) ltac:(lia) Hr Hfin) as Hg.
  exists a, nw, nh. split; [exact Ea|]. split; [exact Es|]. split; [exact Hg|].
  destruct (gt_one a) eqn:Eg.
  - assert (h < w) as Hlt by (apply Hg; reflexivity).
    split; [intros _; exact Hb|]. split; [lia|]. lia.
  - assert (~ h < w) as Hge by (intros Hc; apply Hg in Hc; discriminate).
    split; [lia|]. split; [intros _; exact Hb|].
    intros ->. rewrite scaled_size_square in Es by lia. injection Es as <- <-.
    split; reflexivity.
Qed.

Lemma scaled_size_by_truncation_witness :
  exists aspect_ratio new_width new_height,
    int_truediv 3 2 = Ok aspect_ratio /\
    scaled_size 3 2 4 = Ok (new_width, new_height) /\
    (gt_one aspect_ratio = true <-> 2 < 3) /\
    (2 < 3 -> new_width = 4 /\
       exists q, int_div_float 4 aspect_ratio = Ok q /\ floor_of q new_height) /\
    (3 <= 2 -> new_height = 4 /\
       exists q, int_mul_float 4 aspect_ratio = Ok q /\ floor_of q new_width) /\
    (3 = 2 -> new_width = 4 /\ new_height = 4).
Proof. apply (scaled_size_by_truncation 3 2 4); lia. Defined.

(** ** C3: sizes that are not positive *)

(** Claim C3 as worded rejects every width that is not positive: an image
    of width 0 and height 5 with [target_size = 5] is accepted, and the call
    returns a black five-by-five canvas. *)
Lemma zero_width_image_accepted :
  resize_and_pad nearest 0%nat 5 (store_with (mkImage 0 5 gradient)) =
    (Ok 2%nat,
     mkState [mkImage 0 5 gradient; mkImage 0 5 gradient;
              letterbox 5 (mkImage 0 5 gradient)] [] []).
Proof.
  rewrite (resize_and_pad_run nearest _ _ (mkImage 0 5 gradient)) by reflexivity.
  reflexivity.
Qed.

Lemma scaled_size_zero_width h T :
  0 < h ->
  match scaled_size 0 h T with
  | Raise e => e = ValueError \/ e = OverflowError
  | Ok (nw, nh) => nw = 0 /\ nh = T
  end.
Proof.
  intros Hh. unfold scaled_size. rewrite int_truediv_zero by lia.
  rewrite (proj2 (Z.ltb_ge h 0)) by lia. cbn [rbind].
  change (gt_one (S754_zero false)) with false. cbv iota.
  unfold int_mul_float, of_int.
  destruct (binary_normalize prec emax T 0 false) as [sz|si| |sf m e];
    cbn [rbind SFmul to_int]; auto.
Qed.

(** ** A negative [target_size] *)

Lemma binary_round_aux_opp sx m e l :
  binary_round_aux prec emax (negb sx) m e l =
    SFopp (binary_round_aux prec emax sx m e l).
Proof.
  unfold binary_round_aux.
  destruct (shr_fexp prec emax m e l) as [mrs1 e1].
  destruct (shr_fexp prec emax _ e1 loc_Exact) as [mrs2 e2].
  destruct (shr_m mrs2) as [|p|p]; [reflexivity| |reflexivity].
  destruct (e2 <=? emax - prec); reflexivity.
Qed.

Lemma SFdiv_opp x y : SFdiv prec emax (SFopp x) y = SFopp (SFdiv prec emax x y).
Proof.
  destruct x as [sx|sx| |sx mx ex], y as [sy|sy| |sy my ey]; cbn [SFdiv SFopp];
    try reflexivity; try (destruct sx, sy; reflexivity).
  destruct (SFdiv_core_binary prec emax (Z.pos mx) ex (Z.pos my) ey) as [[mz ez] lz].
  rewrite <- binary_round_aux_opp. destruct sx, sy; reflexivity.
Qed.

Lemma SFmul_opp x y : SFmul prec emax (SFopp x) y = SFopp (SFmul prec emax x y).
Proof.
  destruct x as [sx|sx| |sx mx ex], y as [sy|sy| |sy my ey]; cbn [SFmul SFopp];
    try reflexivity; try (destruct sx, sy; reflexivity).
  rewrite <- binary_round_aux_opp. destruct sx, sy; reflexivity.
Qed.

Lemma to_int_opp x :
  to_int (SFopp x) = match to_int x with Ok n => Ok (- n) | Raise e => Raise e end.
Proof.
  destruct x as [sx|sx| |sx mx ex]; cbn [to_int SFopp]; try reflexivity.
  destruct sx; cbn [negb]; [rewrite Z.opp_involutive|]; reflexivity.
Qed.

Lemma of_int_opp T :
  0 < T ->
  of_int (- T) = match of_int T with Ok f => Ok (SFopp f) | Raise e => Raise e end.
Proof.
  intros HT. destruct T as [|p|p]; try lia.
  unfold of_int. change (- Z.pos p) with (Z.neg p).
  cbn [binary_normalize]. unfold binary_round.
  destruct (shl_align p 0 _) as [mz ez].
  pose proof (binary_round_aux_opp false (Z.pos mz) ez loc_Exact) as E.
  cbn [negb] in E. rewrite E.
  destruct (binary_round_aux prec emax false (Z.pos mz) ez loc_Exact); reflexivity.
Qed.

Lemma scaled_size_opp w h T :
  0 < T -> scaled_size w h (- T) = opp_size (scaled_size w h T).
Proof.
  intros HT. unfold scaled_size.
  destruct (int_truediv w h) as [a|e]; [|reflexivity]. cbn [rbind].
  unfold int_div_float, int_mul_float. rewrite (of_int_opp T HT).
  destruct (of_int T) as [fT|e]; cbn [rbind].
  2:{ destruct (gt_one a); reflexivity. }
  destruct (gt_one a).
  - destruct (is_zero a); [reflexivity|]. cbn [rbind].
    rewrite SFdiv_opp, to_int_opp.
    destruct (to_int (SFdiv prec emax fT a)); reflexivity.
  - rewrite SFmul_opp, to_int_opp.
    destruct (to_int (SFmul prec emax fT a)); reflexivity.
Qed.

Lemma int_truediv_valid w h a :
  0 <= w -> 0 < h -> int_truediv w h = Ok a ->
  a = S754_zero false \/
  exists m e, a = S754_finite false m e /\ bounded prec emax m e = true.
Proof.
  intros Hw Hh Ea. destruct (Z.eq_dec w 0) as [->|Hne].
  - rewrite int_truediv_zero in Ea by lia. injection Ea as <-.
    rewrite (proj2 (Z.ltb_ge h 0)) by lia. left. reflexivity.
  - destruct (int_truediv_rounds w h ltac:(lia) Hh) as [(a' & Ea' & Hfin & Hr)|[Ea' _]];
      [|congruence].
    assert (a' = a) as -> by congruence.
    apply valid_nonneg_cases; [exact (rt_valid _ _ Hr)|exact Hfin].
Qed.

Lemma of_int_valid T f :
  0 < T -> of_int T = Ok f ->
  exists m e, f = S754_finite false m e /\ bounded prec emax m e = true.
Proof.
  intros HT Ef. destruct T as [|p|p]; try lia.
  unfold of_int in Ef. cbn [binary_normalize] in Ef.
  pose proof (binary_round_rounds p 0) as Hr.
  pose proof (rt_valid _ _ Hr) as Hv.
  assert (in_format (F2R (Z.pos p) 0) -> True) as _ by auto.
  destruct (binary_round prec emax false p 0) as [[]|[]| |[] m e] eqn:Eb;
    cbn in Hv; try contradiction; try discriminate.
  - (* a positive integer does not round to zero *)
    exfalso.
    assert (in_format 1) as F1.
    { exists 1, 0. split; [unfold F2R; rewrite bpow_0; lra|lia]. }
    assert (1 <= F2R (Z.pos p) 0)%R as H1.
    { unfold F2R. rewrite bpow_0, Rmult_1_r. apply IZR_le. lia. }
    pose proof (rt_lower _ _ Hr 1%R F1 H1 eq_refl) as Hl. cbn [SF2R] in Hl. lra.
  - injection Ef as <-. exists m, e. split; [reflexivity|exact Hv].
Qed.

Lemma to_int_valid q e :
  valid_nonneg q -> to_int q = Raise e -> e = OverflowError.
Proof.
  destruct q as [[]|[]| |[] m x]; cbn; intros Hv; try contradiction;
    intros [= <-]; reflexivity.
Qed.

(** With a positive [target_size] the scaled size fails only by overflow. *)
Lemma scaled_size_raises_overflow w h T e :
  0 <= w -> 0 < h -> 0 < T -> scaled_size w h T = Raise e -> e = OverflowError.
Proof.
  intros Hw Hh HT. unfold scaled_size.
  destruct (int_truediv w h) as [a|e1] eqn:Ea; cbn [rbind].
  2:{ intros [= <-]. apply (int_truediv_raises w h); [lia|exact Ea]. }
  unfold int_div_float, int_mul_float.
  destruct (of_int T) as [fT|e1] eqn:ET; cbn [rbind].
  2:{ apply of_int_raises in ET. subst e1. destruct (gt_one a); intros [= <-]; reflexivity. }
  destruct (of_int_valid T fT HT ET) as (mT & eT & -> & HbT).
  destruct (int_truediv_valid w h a Hw Hh Ea) as [->|(m & x & -> & Hb)].
  - change (gt_one (S754_zero false)) with false. cbn [SFmul xorb to_int rbind].
    discriminate.
  - destruct (gt_one (S754_finite false m x)); cbn [is_zero rbind].
    + pose proof (rt_valid _ _ (SFdiv_rounds mT eT m x)) as Hv.
      destruct (to_int (SFdiv prec emax _ _)) as [n|e1] eqn:En; cbn [rbind];
        [discriminate|]. intros [= <-]. apply (to_int_valid _ _ Hv En).
    + pose proof (rt_valid _ _ (SFmul_rounds mT eT m x HbT Hb)) as Hv.
      destruct (to_int (SFmul prec emax _ _)) as [n|e1] eqn:En; cbn [rbind];
        [discriminate|]. intros [= <-]. apply (to_int_valid _ _ Hv En).
Qed.

Lemma scaled_size_zero_target w h :
  0 <= w -> 0 < h -> w < 2 ^ 1023 -> scaled_size w h 0 = Ok (0, 0).
Proof.
  intros Hw Hh Hbig. unfold scaled_size.
  destruct (int_truediv w h) as [a|e] eqn:Ea.
  2:{ exfalso. destruct (Z.eq_dec w 0) as [->|Hne].
      - rewrite int_truediv_zero in Ea by lia. discriminate.
      - destruct (int_truediv_rounds w h ltac:(lia) Hh) as [(a' & Ea' & _)|[_ Hc]];
          [congruence|lia]. }
  cbn [rbind].
  destruct (int_truediv_valid w h a Hw Hh Ea) as [->|(m & x & -> & Hb)].
  - reflexivity.
  - destruct (gt_one (S754_finite false m x)); reflexivity.
Qed.

Lemma scaled_size_zero_width_ok h T :
  0 < h -> 0 < T <= 2 ^ 53 -> scaled_size 0 h T = Ok (0, T).
Proof.
  intros Hh HT. unfold scaled_size. rewrite int_truediv_zero by lia.
  rewrite (proj2 (Z.ltb_ge h 0)) by lia. cbn [rbind].
  change (gt_one (S754_zero false)) with false. cbv iota.
  unfold int_mul_float.
  destruct (of_int_exact T HT) as (mT & eT & -> & _). reflexivity.
Qed.

(** The sides of the scaled size, for a [target_size] from 1 to [2 ^ 53]. *)
Lemma scaled_size_sides w h T :
  0 <= w < 2 ^ 31 -> 0 < h -> 0 < T <= 2 ^ 53 ->
  exists nw nh, scaled_size w h T = Ok (nw, nh) /\ 0 <= nw <= T /\ 0 <= nh <= T.
Proof.
  intros Hw Hh HT. destruct (Z.eq_dec w 0) as [->|Hne].
  - exists 0, T. rewrite scaled_size_zero_width_ok by assumption.
    split; [reflexivity|lia].
  - destruct (scaled_size_cases w h T ltac:(lia) Hh HT)
      as [(a & _ & _ & _ & nw & nh & Es & Hnw & Hnh & _)|[_ Hbig]].
    + exists nw, nh. split; [exact Es|]. split; assumption.
    + exfalso. assert (2 ^ 31 < 2 ^ 1023) by (apply Z.pow_lt_mono_r; lia). lia.
Qed.

Lemma c_int_iff z : c_int z = true <-> -2147483648 <= z <= 2147483647.
Proof. unfold c_int. rewrite andb_true_iff, !Z.leb_le. reflexivity. Qed.

(** Claim C3, amended: on an image Pillow holds, of height 0, or with a
    [target_size] that is not positive, or of width 0 with a height other
    than [target_size], [resize_and_pad] raises and the store is as it was
    before the call: no image has been allocated.  The exception is
    [ZeroDivisionError] for a height of 0; otherwise it is [ValueError]
    when [target_size] is a C int, from [Image.resize], and
    [OverflowError] when it is not, from [Image.resize] or, beyond the
    floats, from the arithmetic.  The notebook has no exception of its own
    for a bad size and no check of one. *)
Theorem resize_and_pad_rejects_bad_sizes lanczos s image img T :
  heap s !! image = Some img -> pil_image img ->
  height img = 0 \/ T <= 0 \/ (width img = 0 /\ height img <> T) ->
  resize_and_pad lanczos image T s =
    (Raise (if height img =? 0 then ZeroDivisionError
            else if c_int T then ValueError else OverflowError), s).
Proof.
  intros Himg [Hw Hh] Hbad. rewrite (resize_and_pad_run lanczos s image img T Himg).
  assert (2 ^ 31 < 2 ^ 53) as H53 by (apply Z.pow_lt_mono_r; lia).
  assert (2 ^ 31 < 2 ^ 1023) as H1023 by (apply Z.pow_lt_mono_r; lia).
  assert (2 ^ 31 = 2147483648) as E31 by reflexivity.
  destruct (Z.eqb_spec (height img) 0) as [E0|Hne].
  { rewrite E0, scaled_size_zero_height. reflexivity. }
  assert (0 < height img) as Hpos by lia.
  assert (forall a b, b <= 0 ->
            (width img =? a) && (height img =? b) = false) as Hnocopy.
  { intros a b Hb. rewrite (proj2 (Z.eqb_neq (height img) b)) by lia.
    apply andb_false_r. }
  destruct (Z_le_gt_dec T 0) as [HT|HT].
  - destruct (Z.eq_dec T 0) as [->|HT0].
    + rewrite scaled_size_zero_target by lia. unfold resized_image.
      rewrite Hnocopy by lia. reflexivity.
    + replace T with (- - T) at 1 by lia. rewrite scaled_size_opp by lia.
      destruct (c_int T) eqn:Ec.
      * apply c_int_iff in Ec.
        destruct (scaled_size_sides (width img) (height img) (- T))
          as (nw & nh & -> & Hnw & Hnh); [lia|lia|lia|].
        cbn [opp_size]. unfold resized_image. rewrite Hnocopy by lia.
        rewrite (proj2 (c_int_iff (- nw))), (proj2 (c_int_iff (- nh))) by lia.
        cbn [andb negb]. rewrite (proj2 (Z.ltb_lt (- nw) 1)) by lia. reflexivity.
      * assert (~ (-2147483648 <= T <= 2147483647)) as Hout
          by (rewrite <- c_int_iff; congruence).
        pose proof (scaled_size_shape (width img) (height img) (- T) ltac:(lia) Hpos)
          as Hs.
        destruct (scaled_size (width img) (height img) (- T)) as [[nw nh]|e] eqn:Es;
          cbn [opp_size].
        -- unfold resized_image.
           assert (c_int (- nw) && c_int (- nh) = false) as Eci.
           { destruct Hs as [[-> _]| ->].
             - rewrite Z.opp_involutive, Ec. reflexivity.
             - rewrite Z.opp_involutive, Ec. apply andb_false_r. }
           assert ((width img =? - nw) && (height img =? - nh) = false) as Enc.
           { destruct Hs as [[-> _]| ->]; rewrite Z.opp_involutive.
             - rewrite (proj2 (Z.eqb_neq (width img) T)) by lia. reflexivity.
             - rewrite (proj2 (Z.eqb_neq (height img) T)) by lia. apply andb_false_r. }
           rewrite Enc, Eci. reflexivity.
        -- rewrite (scaled_size_raises_overflow (width img) (height img) (- T) e
                      ltac:(lia) Hpos ltac:(lia) Es).
           reflexivity.
  - destruct Hbad as [?|[?|[E0 HhT]]]; [lia|lia|]. rewrite E0.
    pose proof (scaled_size_zero_width (height img) T Hpos) as Hs.
    destruct (Z_le_gt_dec T (2 ^ 53)) as [Hsmall|Hbig].
    + rewrite scaled_size_zero_width_ok by lia. unfold resized_image.
      rewrite (proj2 (Z.eqb_neq (height img) T)) by lia. rewrite andb_false_r.
      change (c_int 0) with true. cbn [andb].
      destruct (c_int T); reflexivity.
    + assert (c_int T = false) as Ec.
      { destruct (c_int T) eqn:Ec; [|reflexivity]. apply c_int_iff in Ec. lia. }
      rewrite Ec.
      destruct (scaled_size 0 (height img) T) as [[nw nh]|e] eqn:Es.
      * destruct Hs as [-> ->]. unfold resized_image.
        rewrite (proj2 (Z.eqb_neq (height img) T)) by lia. rewrite andb_false_r.
        rewrite Ec. reflexivity.
      * rewrite (scaled_size_raises_overflow 0 (height img) T e
                   ltac:(lia) Hpos ltac:(lia) Es).
        reflexivity.
Qed.

Lemma resize_and_pad_rejects_bad_sizes_witness :
  resize_and_pad nearest 0%nat 0 (store_with (mkImage 5 5 gradient)) =
    (Raise (if height (mkImage 5 5 gradient) =? 0 then ZeroDivisionError
            else if c_int 0 then ValueError else OverflowError),
     store_with (mkImage 5 5 gradient)).
Proof.
  apply (resize_and_pad_rejects_bad_sizes nearest
           (store_with (mkImage 5 5 gradient)) 0%nat (mkImage 5 5 gradient) 0).
  - reflexivity.
  - split; cbn; lia.
  - right. left. lia.
Defined.

(** ** C4: the two worked examples *)

(** Claim C4: a 200 by 100 image with [target_size = 100] is scaled to
    100 by 50 and pasted at (0, 25): when Pillow builds the resampled
    picture, the call returns a 100 by 100 image that carries this picture
    in rows 25 to 74 and is black in rows 0 to 24 and 75 to 99.  A 100 by
    200 image is scaled to 50 by 100 and pasted at (25, 0): the output
    carries the picture in columns 25 to 74 and is black beside them. *)
Theorem letterbox_examples lanczos s image img :
  heap s !! image = Some img ->
  (width img = 200 -> height img = 100 ->
     forall px, lanczos img 100 50 = Some px ->
     exists out,
       resize_and_pad lanczos image 100 s =
         (Ok (S (length (heap s))),
          with_heap s (heap s ++ [mkImage 100 50 px; out])) /\
       width out = 100 /\ height out = 100 /\
       (forall x y,
          getpixel out x y =
            if in_box 0 25 100 50 x y then px x (y - 25) else black) /\
       (forall x y, 0 <= y <= 24 \/ 75 <= y <= 99 -> getpixel out x y = black)) /\
  (width img = 100 -> height img = 200 ->
     forall px, lanczos img 50 100 = Some px ->
     exists out,
       resize_and_pad lanczos image 100 s =
         (Ok (S (length (heap s))),
          with_heap s (heap s ++ [mkImage 50 100 px; out])) /\
       width out = 100 /\ height out = 100 /\
       (forall x y,
          getpixel out x y =
            if in_box 25 0 50 100 x y then px (x - 25) y else black) /\
       (forall x y, 0 <= x <= 24 \/ 75 <= x <= 99 -> getpixel out x y = black)).
Proof.
  intros Himg. rewrite (resize_and_pad_run lanczos s image img 100 Himg). split.
  - intros Ew Eh px Hpx. rewrite Ew, Eh.
    change (scaled_size 200 100 100) with (Ok (A := Z * Z) (100, 50)).
    unfold resized_image. rewrite Ew, Eh, Hpx.
    exists (letterbox 100 (mkImage 100 50 px)). split; [reflexivity|].
    split; [reflexivity|]. split; [reflexivity|].
    assert (forall x y,
              getpixel (letterbox 100 (mkImage 100 50 px)) x y =
                if in_box 0 25 100 50 x y then px x (y - 25) else black) as Hpix.
    { intros x y. unfold letterbox, pasted. cbn [getpixel width height].
      change (paste_offset 100 100) with 0. change (paste_offset 100 50) with 25.
      rewrite Z.sub_0_r. reflexivity. }
    split; [exact Hpix|]. intros x y Hy. rewrite Hpix.
    destruct (in_box 0 25 100 50 x y) eqn:Eb; [|reflexivity].
    apply in_box_iff in Eb. lia.
  - intros Ew Eh px Hpx. rewrite Ew, Eh.
    change (scaled_size 100 200 100) with (Ok (A := Z * Z) (50, 100)).
    unfold resized_image. rewrite Ew, Eh, Hpx.
    exists (letterbox 100 (mkImage 50 100 px)). split; [reflexivity|].
    split; [reflexivity|]. split; [reflexivity|].
    assert (forall x y,
              getpixel (letterbox 100 (mkImage 50 100 px)) x y =
                if in_box 25 0 50 100 x y then px (x - 25) y else black) as Hpix.
    { intros x y. unfold letterbox, pasted. cbn [getpixel width height].
      change (paste_offset 100 100) with 0. change (paste_offset 100 50) with 25.
      rewrite Z.sub_0_r. reflexivity. }
    split; [exact Hpix|]. intros x y Hx. rewrite Hpix.
    destruct (in_box 25 0 50 100 x y) eqn:Eb; [|reflexivity].
    apply in_box_iff in Eb. lia.
Qed.

Lemma letterbox_examples_witness :
  exists out,
    resize_and_pad nearest 0%nat 100 (store_with (mkImage 200 100 gradient)) =
      (Ok 2%nat,
       mkState [mkImage 200 100 gradient;
                mkImage 100 50 (fun x y => gradient (x * 200 / 100) (y * 100 / 50));
                out] [] []) /\
    width out = 100 /\ height out = 100 /\
    (forall x y,
       getpixel out x y =
         if in_box 0 25 100 50 x y
         then gradient (x * 200 / 100) ((y - 25) * 100 / 50) else black) /\
    (forall x y, 0 <= y <= 24 \/ 75 <= y <= 99 -> getpixel out x y = black).
Proof.
  apply (proj1 (letterbox_examples nearest (store_with (mkImage 200 100 gradient))
                  0%nat (mkImage 200 100 gradient) eq_refl)
           eq_refl eq_refl
           (fun x y => gradient (x * 200 / 100) (y * 100 / 50)) eq_refl).
Defined.

(** ** C5: where the picture is pasted *)

(** Claim C5: for every valid input the scaled picture is pasted at
    [((target_size - new_width) // 2, (target_size - new_height) // 2)] and
    the rest of the canvas is black.  The notebook breaks it where claim C1
    breaks: for an image of width 1 and height 49 and [target_size = 49],
    line 140 computes [new_width = int(49 * (1 / 49)) = int(0.99...) = 0],
    the picture should go to column 24, and [image.resize((0, 49))] raises
    [ValueError] before any canvas exists. *)
Theorem resize_and_pad_places_nothing_for_thin_image lanczos px :
  scaled_size 1 49 49 = Ok (0, 49) /\
  paste_offset 49 0 = 24 /\
  resize_and_pad lanczos 0%nat 49 (store_with (mkImage 1 49 px))
    = (Raise ValueError, store_with (mkImage 1 49 px)).
Proof.
  split; [reflexivity|]. split; [reflexivity|].
  rewrite (resize_and_pad_run lanczos _ _ (mkImage 1 49 px)) by reflexivity.
  reflexivity.
Qed.

(** ** C6: the input image is left as it was *)

(** Claim C6: whatever the call does, the images the store held before it
    are unchanged, the input among them; the call only adds objects (at
    most the resized copy and the canvas), calls no pipeline and displays
    nothing. *)
Theorem resize_and_pad_frame lanczos s image T :
  let s' := snd (resize_and_pad lanczos image T s) in
  (exists new, heap s' = heap s ++ new /\ (length new <= 2)%nat) /\
  pipeline_calls s' = pipeline_calls s /\
  displayed s' = displayed s /\
  (forall r im, heap s !! r = Some im -> heap s' !! r = Some im).
Proof.
  cbn zeta.
  assert ((exists new, heap (snd (resize_and_pad lanczos image T s)) = heap s ++ new /\
                       (length new <= 2)%nat) /\
          pipeline_calls (snd (resize_and_pad lanczos image T s)) = pipeline_calls s /\
          displayed (snd (resize_and_pad lanczos image T s)) = displayed s) as H.
  { destruct (heap s !! image) as [img|] eqn:Himg.
    - rewrite (resize_and_pad_run lanczos s image img T Himg).
      destruct (scaled_size (width img) (height img) T) as [[nw nh]|e].
      + destruct (resized_image lanczos img nw nh) as [rz|e].
        * destruct (T <? 0); cbn [snd with_heap heap pipeline_calls displayed];
            (split; [eexists; split; [reflexivity|cbn; lia]|split; reflexivity]).
        * cbn [snd]. split; [exists []; rewrite app_nil_r; split; [reflexivity|cbn; lia]|].
          split; reflexivity.
      + cbn [snd]. split; [exists []; rewrite app_nil_r; split; [reflexivity|cbn; lia]|].
        split; reflexivity.
    - unfold resize_and_pad, bind, deref. rewrite Himg. cbn [snd].
      split; [exists []; rewrite app_nil_r; split; [reflexivity|cbn; lia]|].
      split; reflexivity. }
  destruct H as ((new & Hnew & Hlen) & Hc & Hd).
  split; [exists new; split; assumption|]. split; [exact Hc|]. split; [exact Hd|].
  intros r im Hr. rewrite Hnew. apply lookup_app_l_Some. exact Hr.
Qed.

(** ** C7: an image that already has the size *)

(** Claim C7: on an image Pillow can hold whose sides both equal
    [target_size], [resize_and_pad] returns a new image with the same
    pixels. *)
Theorem resize_and_pad_idempotent lanczos s image img T :
  heap s !! image = Some img -> pil_image img ->
  0 < T -> width img = T -> height img = T ->
  exists r s' out,
    resize_and_pad lanczos image T s = (Ok r, s') /\
    heap s' !! r = Some out /\ r <> image /\
    same_pixels out img.
Proof.
  intros Himg [Hpw _] HT Ew Eh.
  rewrite (resize_and_pad_run lanczos s image img T Himg). rewrite Ew, Eh.
  assert (T <= 2 ^ 53) as HT53.
  { assert (2 ^ 31 < 2 ^ 53) by (apply Z.pow_lt_mono_r; lia). lia. }
  rewrite scaled_size_square by lia.
  unfold resized_image. rewrite Ew, Eh, !Z.eqb_refl. cbn [andb].
  rewrite (proj2 (Z.ltb_ge T 0)) by lia.
  eexists _, _, _. split; [reflexivity|]. split; [apply lookup_new_canvas|].
  split.
  - apply lookup_lt_Some in Himg. lia.
  - unfold same_pixels, letterbox, pasted, inside. cbn [width height getpixel].
    split; [lia|]. split; [lia|]. intros x y Hin.
    assert (paste_offset T T = 0) as ->.
    { unfold paste_offset. rewrite Z.sub_diag. reflexivity. }
    rewrite Hin, !Z.sub_0_r. reflexivity.
Qed.

Lemma resize_and_pad_idempotent_witness :
  exists r s' out,
    resize_and_pad nearest 0%nat 4 (store_with (mkImage 4 4 gradient))
      = (Ok r, s') /\
    heap s' !! r = Some out /\ r <> 0%nat /\
    same_pixels out (mkImage 4 4 gradient).
Proof.
  apply (resize_and_pad_idempotent nearest (store_with (mkImage 4 4 gradient))
           0%nat (mkImage 4 4 gradient) 4).
  - reflexivity.
  - split; cbn; lia.
  - lia.
  - reflexivity.
  - reflexivity.
Defined.

(** ** C8: the sweep driver *)

(** Claim C8: given [n] and a pipeline that returns [n] images,
    [generate_images] calls the pipeline once, with the fixed negative
    prompt, normalises each output and returns the [n] raw outputs.  The
    notebook breaks it where claim C1 breaks: when the pipeline returns a
    three-by-one image and [size = 2], the pipeline has been called once,
    [resize_and_pad] raises [ValueError] on the output, nothing is
    displayed and no list is returned. *)
Theorem generate_images_raises_on_thin_output lanczos px :
  generate_images lanczos thin_pipeline "studio ghibli" 0%nat 30 1
    (PyFloatLit one) (PyInt 10) 2 true (store_with (mkImage 4 4 px)) =
  (Raise ValueError,
   mkState [mkImage 4 4 px; mkImage 3 1 gradient]
     [mkCall "studio ghibli" 0%nat 30 1 (PyFloatLit one) (PyInt 10)
        NEGATIVE_PROMPT]
     []).
Proof.
  vm_compute. reflexivity.
Qed.

(** ** C9: a pipeline that raises *)

(** Claim C9: when the pipeline raises, [generate_images] raises the same
    exception; the call has been recorded, and no image has been created,
    normalised or displayed. *)
Theorem generate_images_propagates lanczos pipeline_model
    prompt image steps n strength guidance size show s e :
  pipeline_model (mkCall prompt image steps n strength guidance NEGATIVE_PROMPT)
                 (heap s) = Raise e ->
  generate_images lanczos pipeline_model prompt image steps n strength guidance
                  size show s =
    (Raise e,
     mkState (heap s)
       (pipeline_calls s ++
          [mkCall prompt image steps n strength guidance NEGATIVE_PROMPT])
       (displayed s)).
Proof.
  intros H. unfold generate_images, bind, pipeline. rewrite H. reflexivity.
Qed.

Lemma generate_images_propagates_witness :
  generate_images nearest failing_pipeline "studio ghibli" 0%nat 30 2
                  (PyFloatLit one) (PyInt 10) 1024 true
                  (store_with (mkImage 4 4 gradient)) =
    (Raise (ExternalError "OutOfMemoryError"),
     mkState (heap (store_with (mkImage 4 4 gradient)))
       (pipeline_calls (store_with (mkImage 4 4 gradient)) ++
          [mkCall "studio ghibli" 0%nat 30 2 (PyFloatLit one) (PyInt 10)
                  NEGATIVE_PROMPT])
       (displayed (store_with (mkImage 4 4 gradient)))).
Proof.
  apply (generate_images_propagates nearest failing_pipeline). reflexivity.
Defined.

(** ** C10: the scaled picture fits the canvas *)

(** Claim C10 as worded holds for every positive [target_size]: for a
    one-by-one image and [target_size = 2 ^ 53 + 3], which no float holds,
    line 140 computes [new_width = int(float(target_size) * 1.0) =
    2 ^ 53 + 4], one more than the canvas has, and [paste_x = -1]. *)
Lemma scaled_size_exceeds_huge_canvas :
  scaled_size 1 1 9007199254740995 = Ok (9007199254740996, 9007199254740995) /\
  paste_offset 9007199254740995 9007199254740996 = -1.
Proof. split; reflexivity. Qed.

(** Claim C10, amended: for an image Pillow can hold, with positive sides,
    and a [target_size] from 1 to [2 ^ 53], the scaled sides are computed
    and lie between 0 and [target_size], so both paste offsets are
    non-negative and the pasted region lies within the canvas. *)
Theorem scaled_size_within_canvas img T :
  pil_image img -> 0 < width img -> 0 < height img -> 0 < T <= 2 ^ 53 ->
  exists new_width new_height,
    scaled_size (width img) (height img) T = Ok (new_width, new_height) /\
    0 <= new_width <= T /\ 0 <= new_height <= T /\
    0 <= paste_offset T new_width /\ 0 <= paste_offset T new_height /\
    paste_offset T new_width + new_width <= T /\
    paste_offset T new_height + new_height <= T.
Proof.
  intros [Hpw Hph] Hw Hh HT.
  destruct (scaled_size_cases (width img) (height img) T Hw Hh HT)
    as [(a & _ & _ & _ & nw & nh & Es & Hnw & Hnh & _)|[_ Hbig]].
  2:{ exfalso. assert (2 ^ 31 < 2 ^ 1023) by (apply Z.pow_lt_mono_r; lia). lia. }
  exists nw, nh. split; [exact Es|].
  pose proof (paste_offset_bounds T nw Hnw). pose proof (paste_offset_bounds T nh Hnh).
  lia.
Qed.

Lemma scaled_size_within_canvas_witness :
  exists new_width new_height,
    scaled_size 200 100 100 = Ok (new_width, new_height) /\
    0 <= new_width <= 100 /\ 0 <= new_height <= 100 /\
    0 <= paste_offset 100 new_width /\ 0 <= paste_offset 100 new_height /\
    paste_offset 100 new_width + new_width <= 100 /\
    paste_offset 100 new_height + new_height <= 100.
Proof.
  apply (scaled_size_within_canvas (mkImage 200 100 gradient) 100).
  - split; cbn; lia.
  - cbn. lia.
  - cbn. lia.
  - lia.
Defined.

(** * Further properties *)

(** A call of [resize_and_pad] that returns has built a canvas of side
    [target_size] on which the resized picture lies at
    [((target_size - new_width) // 2, (target_size - new_height) // 2)],
    every other pixel black; the padding before the picture is the
    padding after it or one pixel less. *)
Theorem resize_and_pad_placement lanczos s image img T r s' :
  heap s !! image = Some img ->
  resize_and_pad lanczos image T s = (Ok r, s') ->
  exists new_width new_height resized out,
    scaled_size (width img) (height img) T = Ok (new_width, new_height) /\
    resized_image lanczos img new_width new_height = Ok resized /\
    heap s' !! r = Some out /\ width out = T /\ height out = T /\
    let paste_x := (T - new_width) / 2 in
    let paste_y := (T - new_height) / 2 in
    (forall x y,
       getpixel out x y =
         if in_box paste_x paste_y new_width new_height x y
         then getpixel resized (x - paste_x) (y - paste_y)
         else black) /\
    paste_x <= T - new_width - paste_x <= paste_x + 1 /\
    paste_y <= T - new_height - paste_y <= paste_y + 1.
Proof.
  intros Himg. rewrite (resize_and_pad_run lanczos s image img T Himg).
  destruct (scaled_size (width img) (height img) T) as [[nw nh]|e]; [|discriminate].
  destruct (resized_image lanczos img nw nh) as [rz|e] eqn:Erz; [|discriminate].
  destruct (T <? 0); [discriminate|]. intros [= <- <-].
  destruct (resized_image_size _ _ _ _ _ Erz) as [Ew Eh].
  exists nw, nh, rz, (letterbox T rz).
  split; [reflexivity|]. split; [exact Erz|].
  cbn [with_heap heap]. split; [apply lookup_new_canvas|].
  split; [reflexivity|]. split; [reflexivity|].
  unfold letterbox, pasted, paste_offset. cbn [getpixel width height]. rewrite Ew, Eh.
  split; [intros x y; reflexivity|].
  pose proof (Z.div_mod (T - nw) 2 ltac:(lia)).
  pose proof (Z.mod_pos_bound (T - nw) 2 ltac:(lia)).
  pose proof (Z.div_mod (T - nh) 2 ltac:(lia)).
  pose proof (Z.mod_pos_bound (T - nh) 2 ltac:(lia)).
  lia.
Qed.

Lemma resize_and_pad_placement_witness :
  exists new_width new_height resized out,
    scaled_size 200 100 100 = Ok (new_width, new_height) /\
    resized_image nearest (mkImage 200 100 gradient) new_width new_height
      = Ok resized /\
    heap (snd (resize_and_pad nearest 0%nat 100
                 (store_with (mkImage 200 100 gradient)))) !! 2%nat = Some out /\
    width out = 100 /\ height out = 100 /\
    let paste_x := (100 - new_width) / 2 in
    let paste_y := (100 - new_height) / 2 in
    (forall x y,
       getpixel out x y =
         if in_box paste_x paste_y new_width new_height x y
         then getpixel resized (x - paste_x) (y - paste_y)
         else black) /\
    paste_x <= 100 - new_width - paste_x <= paste_x + 1 /\
    paste_y <= 100 - new_height - paste_y <= paste_y + 1.
Proof.
  apply (resize_and_pad_placement nearest
           (store_with (mkImage 200 100 gradient)) 0%nat
           (mkImage 200 100 gradient) 100 2%nat).
  - reflexivity.
  - reflexivity.
Defined.

(** When the pipeline returns [n] images that [resize_and_pad] accepts,
    [generate_images] calls it once, with the fixed negative prompt,
    builds the normalised copy of each output, displays their grid when
    [show] is set, and returns the references of the raw outputs in the
    pipeline's order, each output unchanged. *)
Theorem generate_images_returns_raw_outputs lanczos pipeline_model
    prompt image steps n strength guidance size show s imgs :
  pipeline_model (mkCall prompt image steps n strength guidance NEGATIVE_PROMPT)
                 (heap s) = Ok imgs ->
  Z.of_nat (length imgs) = n ->
  Forall (fun img => is_ok (normalized lanczos img size) = true) imgs ->
  (show = true -> 1 <= n) ->
  exists s' images_resized,
    generate_images lanczos pipeline_model prompt image steps n strength
                    guidance size show s =
      (Ok (seq (length (heap s)) (length imgs)), s') /\
    pipeline_calls s' =
      pipeline_calls s ++
        [mkCall prompt image steps n strength guidance NEGATIVE_PROMPT] /\
    (forall i img, imgs !! i = Some img ->
       heap s' !! (length (heap s) + i)%nat = Some img) /\
    length images_resized = length imgs /\
    (forall i img, imgs !! i = Some img ->
       exists r rz out,
         images_resized !! i = Some r /\
         normalized lanczos img size = Ok (rz, out) /\
         heap s' !! r = Some out /\ width out = size /\ height out = size) /\
    (show = false -> displayed s' = displayed s) /\
    (show = true -> exists grid g,
       displayed s' = displayed s ++ [grid] /\ heap s' !! grid = Some g /\
       width g = n * size /\ height g = size).
Proof.
  intros Hpipe Hn Hall Hshow.
  set (c := mkCall prompt image steps n strength guidance NEGATIVE_PROMPT) in *.
  set (s1 := mkState (heap s ++ imgs) (pipeline_calls s ++ [c]) (displayed s)).
  assert (pipeline pipeline_model c s = (Ok (seq (length (heap s)) (length imgs)), s1)) as Ep.
  { unfold pipeline. rewrite Hpipe. reflexivity. }
  unfold generate_images. fold c. rewrite (bind_run _ _ _ _ _ Ep).
  unfold range. rewrite <- Hn, Nat2Z.id.
  destruct (resize_loop_run lanczos (seq (length (heap s)) (length imgs)) size
              (length imgs) 0%nat [] s1) as (news & refs & Eloop & Hlen & Hrefs).
  { intros j Hj. destruct (lookup_lt_is_Some_2 imgs j Hj) as [img Himg].
    exists (length (heap s) + j)%nat, img. split; [apply lookup_seq; split; [reflexivity|exact Hj]|].
    split.
    - unfold s1. cbn [heap]. rewrite lookup_app_r by lia.
      replace (length (heap s) + j - length (heap s))%nat with j by lia. exact Himg.
    - rewrite Forall_forall in Hall. apply Hall. eapply list_elem_of_lookup_2. exact Himg. }
  cbn [app] in Eloop. rewrite (bind_run _ _ _ _ _ Eloop).
  set (s2 := with_heap s1 (heap s1 ++ news)) in *.
  assert (forall i img, imgs !! i = Some img ->
            exists r rz out, refs !! i = Some r /\
              normalized lanczos img size = Ok (rz, out) /\
              heap s2 !! r = Some out /\ width out = size /\ height out = size /\
              0 <= size) as Hnorm.
  { intros i img Himg. pose proof (lookup_lt_Some _ _ _ Himg) as Hi.
    destruct (Hrefs i Hi) as (r & img' & r' & rz & out & A & B & C & D & E & F).
    rewrite Nat.add_0_l in A. apply lookup_seq in A. destruct A as [-> _].
    unfold s1 in B. cbn [heap] in B. rewrite lookup_app_r in B by lia.
    replace (length (heap s) + i - length (heap s))%nat with i in B by lia.
    assert (img' = img) as -> by congruence.
    destruct (normalized_size _ _ _ _ _ D) as (Hw & Hh & HT).
    exists r', rz, out. repeat split; assumption. }
  assert (forall i img, imgs !! i = Some img ->
            heap s2 !! (length (heap s) + i)%nat = Some img) as Hraw.
  { intros i img Himg. unfold s2, s1. cbn [with_heap heap].
    apply lookup_app_l_Some. rewrite lookup_app_r by lia.
    replace (length (heap s) + i - length (heap s))%nat with i by lia. exact Himg. }
  destruct show.
  - specialize (Hshow eq_refl).
    destruct imgs as [|img0 imgs'] eqn:Eimgs; [cbn in Hn; lia|]. rewrite <- Eimgs in *.
    assert (imgs !! 0%nat = Some img0) as H0 by (rewrite Eimgs; reflexivity).
    destruct (Hnorm 0%nat img0 H0) as (first & rz0 & out0 & Hf & _ & Hout0 & Hw0 & Hh0 & HT).
    destruct (make_image_grid_run s2 refs first size Hf) as (g & Egrid & Hgw & Hgh).
    { apply Forall_forall. intros r Hin. apply list_elem_of_lookup_1 in Hin.
      destruct Hin as [j Hj]. pose proof (lookup_lt_Some _ _ _ Hj) as Hjlt.
      rewrite Hlen in Hjlt.
      destruct (Hrefs j Hjlt) as (_ & _ & r' & _ & out & _ & _ & C & _ & E & _).
      assert (r' = r) as -> by congruence.
      apply lookup_lt_Some in E. exact E. }
    { exists out0. repeat split; assumption. }
    { exact HT. }
    rewrite Hlen in Egrid. cbv iota.
    rewrite (bind_run _ _ _ _ _ (bind_run _ _ _ _ _ Egrid)).
    unfold display, ret. cbn [with_heap heap pipeline_calls displayed].
    eexists _, refs. split; [reflexivity|]. cbn [heap pipeline_calls displayed].
    split; [reflexivity|]. split.
    { intros i img Himg. apply lookup_app_l_Some. apply Hraw. exact Himg. }
    split; [exact Hlen|]. split.
    { intros i img Himg.
      destruct (Hnorm i img Himg) as (r & rz & out & A & B & C & D & E & _).
      exists r, rz, out. repeat split; try assumption.
      apply lookup_app_l_Some. exact C. }
    split; [discriminate|]. intros _.
    exists (length (heap s2)), g. split; [reflexivity|].
    split; [apply list_lookup_middle; reflexivity|]. rewrite Hlen in Hgw.
    split; assumption.
  - cbv iota. rewrite (bind_run _ _ _ _ _ (eq_refl : ret tt s2 = (Ok tt, s2))). cbn [ret].
    exists s2, refs. split; [reflexivity|].
    split; [reflexivity|]. split; [exact Hraw|]. split; [exact Hlen|]. split.
    { intros i img Himg.
      destruct (Hnorm i img Himg) as (r & rz & out & A & B & C & D & E & _).
      exists r, rz, out. repeat split; assumption. }
    split; [reflexivity|discriminate].
Qed.

Lemma generate_images_returns_raw_outputs_witness :
  exists s' (images_resized : list nat),
    generate_images nearest square_pipeline "studio ghibli" 0%nat 30 2
      (PyFloatLit one) (PyInt 10) 8 true (store_with (mkImage 4 4 gradient)) =
      (Ok [1%nat; 2%nat], s') /\
    pipeline_calls s' =
      [mkCall "studio ghibli" 0%nat 30 2 (PyFloatLit one) (PyInt 10)
         NEGATIVE_PROMPT] /\
    length images_resized = 2%nat.
Proof.
  destruct (generate_images_returns_raw_outputs nearest square_pipeline
              "studio ghibli" 0%nat 30 2 (PyFloatLit one) (PyInt 10) 8 true
              (store_with (mkImage 4 4 gradient))
              [mkImage 4 4 gradient; mkImage 4 4 gradient])
    as (s' & refs & Hrun & Hcalls & _ & Hlen & _).
  - reflexivity.
  - reflexivity.
  - repeat constructor.
  - lia.
  - exists s', refs. split; [exact Hrun|]. split; [exact Hcalls|exact Hlen].
Defined.

(** * The scaled side is at least one pixel *)

Lemma in_format_1 : in_format 1.
Proof. exists 1, 0. split; [unfold F2R; rewrite bpow_0; lra|lia]. Qed.

Lemma in_format_bpow k : -1074 <= k -> in_format (bpow k).
Proof. intros Hk. exists 1, k. split; [unfold F2R; lra|lia]. Qed.

Lemma one_below_overflow : (1 < bpow 1024)%R.
Proof. rewrite <- bpow_0. apply bpow_lt. lia. Qed.

(** A power of two between [1 / T] and [2 / T]. *)
Lemma pow2_inverse T :
  0 < T <= 2 ^ 53 ->
  exists k, 0 <= k <= 53 /\ (1 <= IZR T * bpow (- k))%R /\ (IZR T * bpow (- k) < 2)%R.
Proof.
  intros HT. exists (Z.log2 T).
  pose proof (Z.log2_spec T ltac:(lia)) as [Hlo Hhi].
  pose proof (Z.log2_nonneg T) as H0.
  assert (Z.log2 T <= 53) as H53.
  { destruct (Z_le_gt_dec (Z.log2 T) 53) as [|Hgt]; [assumption|exfalso].
    assert (2 ^ 54 <= 2 ^ Z.log2 T) by (apply Z.pow_le_mono_r; lia). lia. }
  split; [lia|].
  assert (bpow (Z.log2 T) * bpow (- Z.log2 T) = 1)%R as Einv.
  { rewrite <- bpow_plus. replace (Z.log2 T + - Z.log2 T) with 0 by lia. apply bpow_0. }
  pose proof (bpow_gt_0 (- Z.log2 T)) as Hp.
  apply IZR_le in Hlo. apply IZR_lt in Hhi.
  rewrite <- bpow_IZR in Hlo by lia.
  rewrite <- Z.add_1_r in Hhi. rewrite <- bpow_IZR, bpow_succ in Hhi by lia.
  set (b := bpow (Z.log2 T)) in *. set (c := bpow (- Z.log2 T)) in *.
  clearbody b c. split; nra.
Qed.

Lemma scaled_size_lower w h T :
  0 < w -> 0 < h <= 2 ^ 52 -> 0 < T <= 2 ^ 53 ->
  (h < w -> w <= T * h) -> (w < h -> 2 * h <= T * w) ->
  exists nw nh,
    scaled_size w h T = Ok (nw, nh) /\ 1 <= nw <= T /\ 1 <= nh <= T.
Proof.
  intros Hw Hh HT Hwide Htall.
  destruct (Z.eq_dec w h) as [->|Hne].
  { exists T, T. rewrite scaled_size_square by lia. split; [reflexivity|lia]. }
  destruct (scaled_size_cases w h T Hw ltac:(lia) HT)
    as [(a & Ea & Hfin & Hr & nw & nh & Es & Hnw & Hnh & Hbr)|[_ Hbig]].
  2:{ exfalso. assert (2 ^ 105 < 2 ^ 1023) by (apply Z.pow_lt_mono_r; lia).
      change (2 ^ 105) with (2 ^ 53 * 2 ^ 52) in *.
      destruct (Z_lt_le_dec h w) as [Hlt|Hle]; [specialize (Hwide Hlt); nia|lia]. }
  exists nw, nh. split; [exact Es|].
  pose proof (gt_one_aspect w h a Hw Hh Hr Hfin) as Hg.
  destruct (of_int_exact T HT) as (mT & eT & ET & HbT & HvT).
  assert (0 < IZR h)%R as Hh' by (apply IZR_lt; lia).
  assert (0 < IZR w)%R as Hw' by (apply IZR_lt; lia).
  assert (1 <= IZR T)%R as HT' by (apply IZR_le; lia).
  assert (IZR w / IZR h * IZR h = IZR w)%R as Ew by (field; lra).
  destruct (valid_nonneg_cases _ (rt_valid _ _ Hr) Hfin) as [E|(m & e & E & Hb)];
    subst a.
  - (* the ratio cannot underflow to zero *)
    exfalso. assert (w < h) as Hlt.
    { destruct (Z_lt_le_dec w h) as [|Hle]; [assumption|].
      assert (h < w) as Hc by lia. apply Hg in Hc. discriminate. }
    specialize (Htall Hlt).
    destruct (pow2_inverse T HT) as (k & Hk & Hk1 & Hk2).
    assert (bpow (- k) <= IZR w / IZR h)%R as Hle.
    { apply IZR_le in Htall. rewrite !mult_IZR in Htall.
      pose proof (bpow_gt_0 (- k)) as Hp.
      apply Rmult_le_reg_r with (IZR h); [lra|]. rewrite Ew.
      apply Rmult_le_reg_l with (IZR T); [lra|]. nra. }
    pose proof (rt_lower _ _ Hr _ (in_format_bpow (- k) ltac:(lia)) Hle eq_refl) as Hl.
    cbn [SF2R] in Hl. pose proof (bpow_gt_0 (- k)). lra.
  - pose proof (F2R_pos m e) as HApos. cbn [SF2R] in *.
    destruct (gt_one (S754_finite false m e)) eqn:Eg.
    + destruct Hbr as (-> & q & Eq & Hfl).
      assert (h < w) as Hlt by (apply Hg; reflexivity).
      specialize (Hwide Hlt).
      assert (1 < F2R (Z.pos m) e)%R as H1 by (apply (gt_one_finite m e Hb); exact Eg).
      destruct (rt_upper _ _ Hr (IZR T)) as [_ HA];
        [apply in_format_Z; lia| |apply IZR_below_overflow; lia|].
      { apply IZR_le in Hwide. rewrite mult_IZR in Hwide.
        apply Rmult_le_reg_r with (IZR h); [lra|]. rewrite Ew. exact Hwide. }
      cbn [SF2R] in HA.
      assert (q = SFdiv prec emax (S754_finite false mT eT) (S754_finite false m e))
        as ->.
      { unfold int_div_float in Eq. rewrite ET in Eq. cbn [rbind is_zero] in Eq.
        injection Eq as <-. reflexivity. }
      pose proof (SFdiv_rounds mT eT m e) as Hq. rewrite HvT in Hq.
      set (A := F2R (Z.pos m) e) in *. clearbody A.
      assert (1 <= IZR T / A <= IZR T)%R as [Hq1 HqT].
      { split.
        - apply Rmult_le_reg_r with A; [lra|].
          unfold Rdiv. rewrite Rmult_assoc, Rinv_l by lra. lra.
        - apply Rmult_le_reg_r with A; [lra|].
          unfold Rdiv. rewrite Rmult_assoc, Rinv_l by lra. nra. }
      destruct (rt_upper _ _ Hq (IZR T)) as [Hqf _];
        [apply in_format_Z; lia|exact HqT|apply IZR_below_overflow; lia|].
      pose proof (rt_lower _ _ Hq 1%R in_format_1 Hq1 Hqf) as Hlow.
      destruct Hfl as [_ Hhi].
      assert (0 < nh); [|lia].
      apply lt_IZR. lra.
    + destruct Hbr as (-> & q & Eq & Hfl).
      assert (w < h) as Hlt.
      { destruct (Z_lt_le_dec w h) as [|Hle]; [assumption|].
        assert (h < w) as Hc by lia. apply Hg in Hc. discriminate. }
      specialize (Htall Hlt).
      assert (F2R (Z.pos m) e <= 1)%R as H1.
      { destruct (Rle_lt_dec (F2R (Z.pos m) e) 1) as [|Hc]; [assumption|].
        apply (gt_one_finite m e Hb) in Hc. congruence. }
      destruct (pow2_inverse T HT) as (k & Hk & Hk1 & Hk2).
      assert (bpow (- k) <= IZR w / IZR h)%R as Hle.
      { apply IZR_le in Htall. rewrite !mult_IZR in Htall.
        pose proof (bpow_gt_0 (- k)) as Hp.
        apply Rmult_le_reg_r with (IZR h); [lra|]. rewrite Ew.
        apply Rmult_le_reg_l with (IZR T); [lra|]. nra. }
      pose proof (rt_lower _ _ Hr _ (in_format_bpow (- k) ltac:(lia)) Hle eq_refl) as Hl.
      cbn [SF2R] in Hl.
      assert (q = SFmul prec emax (S754_finite false mT eT) (S754_finite false m e))
        as ->.
      { unfold int_mul_float in Eq. rewrite ET in Eq. cbn [rbind] in Eq.
        injection Eq as <-. reflexivity. }
      pose proof (SFmul_rounds mT eT m e HbT Hb) as Hq. rewrite HvT in Hq.
      set (A := F2R (Z.pos m) e) in *. clearbody A.
      destruct (rt_upper _ _ Hq (IZR T)) as [Hqf _];
        [apply in_format_Z; lia|nra|apply IZR_below_overflow; lia|].
      assert (1 <= IZR T * A)%R as Hq1.
      { pose proof (bpow_gt_0 (- k)). nra. }
      pose proof (rt_lower _ _ Hq 1%R in_format_1 Hq1 Hqf) as Hlow.
      destruct Hfl as [_ Hhi].
      assert (0 < nw); [|lia].
      apply lt_IZR. lra.
Qed.

(** * Outcomes of [resize_and_pad] on an image with positive sides *)

(** A request for a size of at least one pixel a side, within a C int,
    gives the picture or runs out of memory. *)
Lemma resized_image_outcome lanczos img w h :
  1 <= w <= 2147483647 -> 1 <= h <= 2147483647 ->
  (exists rz, resized_image lanczos img w h = Ok rz) \/
  resized_image lanczos img w h = Raise MemoryError.
Proof.
  intros Hw Hh. unfold resized_image.
  destruct ((width img =? w) && (height img =? h)); [left; eauto|].
  rewrite (proj2 (c_int_iff w)), (proj2 (c_int_iff h)) by lia. cbn [andb negb].
  rewrite (proj2 (Z.ltb_ge w 1)), (proj2 (Z.ltb_ge h 1)) by lia. cbn [orb].
  destruct (MAX_XSIZE <? w); [right; reflexivity|].
  destruct (lanczos img w h); [left; eauto|right; reflexivity].
Qed.

(** A request for an empty picture, of an image that is not empty, is
    refused. *)
Lemma resized_image_empty lanczos img w h :
  0 < width img -> 0 < height img ->
  0 <= w <= 2147483647 -> 0 <= h <= 2147483647 -> w = 0 \/ h = 0 ->
  resized_image lanczos img w h = Raise ValueError.
Proof.
  intros Hiw Hih Hw Hh H0. unfold resized_image.
  replace ((width img =? w) && (height img =? h)) with false.
  2:{ symmetry. apply andb_false_iff.
      destruct H0; [left|right]; apply Z.eqb_neq; lia. }
  rewrite (proj2 (c_int_iff w)), (proj2 (c_int_iff h)) by lia. cbn [andb negb].
  replace ((w <? 1) || (h <? 1)) with true; [reflexivity|].
  symmetry. apply orb_true_iff. destruct H0; [left|right]; apply Z.ltb_lt; lia.
Qed.

(** A picture [resized_image] gives has at least one pixel a side, when
    the image has. *)
Lemma resized_image_sides lanczos img w h rz :
  0 < width img -> 0 < height img ->
  resized_image lanczos img w h = Ok rz -> 1 <= w /\ 1 <= h.
Proof.
  intros Hiw Hih. unfold resized_image.
  destruct ((width img =? w) && (height img =? h)) eqn:E.
  - apply andb_true_iff in E. lia.
  - destruct (negb (c_int w && c_int h)); [discriminate|].
    destruct (Z.ltb_spec w 1); [discriminate|].
    destruct (Z.ltb_spec h 1); [discriminate|]. lia.
Qed.

Lemma pil_sides_small img :
  pil_image img -> width img <= 2 ^ 52 /\ height img <= 2 ^ 52.
Proof.
  intros [Hw Hh]. assert (2 ^ 31 < 2 ^ 52) by (apply Z.pow_lt_mono_r; lia). lia.
Qed.

Lemma c_int_below_53 T : T <= 2147483647 -> T <= 2 ^ 53.
Proof.
  intros H. assert (2 ^ 31 < 2 ^ 53) by (apply Z.pow_lt_mono_r; lia).
  change (2 ^ 31) with 2147483648 in *. lia.
Qed.

(** The run of [resize_and_pad] once the scaled size is known to have two
    sides of at least one pixel: a [target_size] by [target_size] image, or
    no memory for it. *)
Lemma resize_and_pad_positive_sides lanczos s image img T nw nh :
  heap s !! image = Some img ->
  scaled_size (width img) (height img) T = Ok (nw, nh) ->
  1 <= nw <= 2147483647 -> 1 <= nh <= 2147483647 -> 0 <= T ->
  fst (resize_and_pad lanczos image T s) = Raise MemoryError \/
  exists r out,
    fst (resize_and_pad lanczos image T s) = Ok r /\
    heap (snd (resize_and_pad lanczos image T s)) !! r = Some out /\
    width out = T /\ height out = T.
Proof.
  intros Himg Es Hnw Hnh HT.
  rewrite (resize_and_pad_run lanczos s image img T Himg), Es.
  destruct (resized_image_outcome lanczos img nw nh Hnw Hnh) as [[rz Erz]|Erz];
    rewrite Erz; [|left; reflexivity].
  rewrite (proj2 (Z.ltb_ge T 0) HT). right.
  exists (S (length (heap s))), (letterbox T rz). cbn [fst snd with_heap heap].
  split; [reflexivity|]. split; [apply lookup_new_canvas|]. split; reflexivity.
Qed.

(** For an image at most [target_size] times wider than tall, or at most
    [target_size / 2] times taller than wide, and a [target_size] within a
    C int, both sides of the scaled size are at least one pixel, and
    [resize_and_pad] does not refuse the image: it returns a [target_size]
    by [target_size] image, unless Pillow has no memory for it. *)
Theorem resize_and_pad_fits_moderate_aspect lanczos s image img T :
  heap s !! image = Some img -> pil_image img ->
  0 < width img -> 0 < height img -> 0 < T <= 2147483647 ->
  (height img < width img -> width img <= T * height img) ->
  (width img < height img -> 2 * height img <= T * width img) ->
  exists new_width new_height,
    scaled_size (width img) (height img) T = Ok (new_width, new_height) /\
    1 <= new_width <= T /\ 1 <= new_height <= T /\
    (fst (resize_and_pad lanczos image T s) = Raise MemoryError \/
     exists r out,
       fst (resize_and_pad lanczos image T s) = Ok r /\
       heap (snd (resize_and_pad lanczos image T s)) !! r = Some out /\
       width out = T /\ height out = T).
Proof.
  intros Himg Hpil Hw Hh HT Hwide Htall.
  destruct (pil_sides_small img Hpil) as [_ Hh52].
  pose proof (c_int_below_53 T ltac:(lia)) as HT53.
  destruct (scaled_size_lower (width img) (height img) T Hw ltac:(lia)
              ltac:(lia) Hwide Htall)
    as (nw & nh & Es & Hnw & Hnh).
  exists nw, nh. split; [exact Es|]. split; [lia|]. split; [lia|].
  apply (resize_and_pad_positive_sides lanczos s image img T nw nh Himg Es); lia.
Qed.

Lemma resize_and_pad_fits_moderate_aspect_witness :
  exists new_width new_height,
    scaled_size 1920 1080 1024 = Ok (new_width, new_height) /\
    1 <= new_width <= 1024 /\ 1 <= new_height <= 1024 /\
    (fst (resize_and_pad nearest 0%nat 1024
            (store_with (mkImage 1920 1080 gradient))) = Raise MemoryError \/
     exists r out,
       fst (resize_and_pad nearest 0%nat 1024
              (store_with (mkImage 1920 1080 gradient))) = Ok r /\
       heap (snd (resize_and_pad nearest 0%nat 1024
                    (store_with (mkImage 1920 1080 gradient)))) !! r = Some out /\
       width out = 1024 /\ height out = 1024).
Proof.
  apply (resize_and_pad_fits_moderate_aspect nearest
           (store_with (mkImage 1920 1080 gradient)) 0%nat
           (mkImage 1920 1080 gradient) 1024).
  - reflexivity.
  - split; cbn; lia.
  - cbn. lia.
  - cbn. lia.
  - lia.
  - cbn. lia.
  - cbn. lia.
Defined.

(** On an image with positive sides and a [target_size] from 1 to
    [2 ^ 31 - 1], the scaled size decides what [resize_and_pad] does: when
    one of its sides is 0 the call raises [ValueError] with the store as
    it was; when both are at least one pixel it returns a [target_size] by
    [target_size] image, unless Pillow has no memory for it.  So
    [ValueError] is raised exactly when a side truncates to 0. *)
Theorem resize_and_pad_outcome lanczos s image img T :
  heap s !! image = Some img -> pil_image img ->
  0 < width img -> 0 < height img -> 0 < T <= 2147483647 ->
  exists new_width new_height,
    scaled_size (width img) (height img) T = Ok (new_width, new_height) /\
    0 <= new_width <= T /\ 0 <= new_height <= T /\
    (new_width = 0 \/ new_height = 0 ->
       resize_and_pad lanczos image T s = (Raise ValueError, s)) /\
    (1 <= new_width -> 1 <= new_height ->
       fst (resize_and_pad lanczos image T s) = Raise MemoryError \/
       exists r out,
         fst (resize_and_pad lanczos image T s) = Ok r /\
         heap (snd (resize_and_pad lanczos image T s)) !! r = Some out /\
         width out = T /\ height out = T) /\
    (fst (resize_and_pad lanczos image T s) = Raise ValueError <->
       new_width = 0 \/ new_height = 0).
Proof.
  intros Himg [Hpw Hph] Hw Hh HT.
  pose proof (c_int_below_53 T ltac:(lia)) as HT53.
  destruct (scaled_size_cases (width img) (height img) T Hw Hh ltac:(lia))
    as [(a & _ & _ & _ & nw & nh & Es & Hnw & Hnh & _)|[_ Hbig]].
  2:{ exfalso. assert (2 ^ 31 < 2 ^ 1023) by (apply Z.pow_lt_mono_r; lia). lia. }
  exists nw, nh. split; [exact Es|]. split; [exact Hnw|]. split; [exact Hnh|].
  assert (nw = 0 \/ nh = 0 ->
          resize_and_pad lanczos image T s = (Raise ValueError, s)) as Hzero.
  { intros H0. rewrite (resize_and_pad_run lanczos s image img T Himg), Es.
    rewrite (resized_image_empty lanczos img nw nh Hw Hh) by lia. reflexivity. }
  assert (1 <= nw -> 1 <= nh ->
          fst (resize_and_pad lanczos image T s) = Raise MemoryError \/
          exists r out,
            fst (resize_and_pad lanczos image T s) = Ok r /\
            heap (snd (resize_and_pad lanczos image T s)) !! r = Some out /\
            width out = T /\ height out = T) as Hpos.
  { intros H1w H1h.
    apply (resize_and_pad_positive_sides lanczos s image img T nw nh Himg Es); lia. }
  split; [exact Hzero|]. split; [exact Hpos|].
  split.
  - intros Hv.
    destruct (Z_le_gt_dec 1 nw) as [H1w|]; [|lia].
    destruct (Z_le_gt_dec 1 nh) as [H1h|]; [|lia].
    destruct (Hpos H1w H1h) as [E|(r & out & E & _)]; rewrite E in Hv; discriminate.
  - intros H0. rewrite (Hzero H0). reflexivity.
Qed.

Lemma resize_and_pad_outcome_witness :
  exists new_width new_height,
    scaled_size 1 49 49 = Ok (new_width, new_height) /\
    0 <= new_width <= 49 /\ 0 <= new_height <= 49 /\
    (new_width = 0 \/ new_height = 0 ->
       resize_and_pad nearest 0%nat 49 (store_with (mkImage 1 49 gradient))
         = (Raise ValueError, store_with (mkImage 1 49 gradient))) /\
    (1 <= new_width -> 1 <= new_height ->
       fst (resize_and_pad nearest 0%nat 49 (store_with (mkImage 1 49 gradient)))
         = Raise MemoryError \/
       exists r out,
         fst (resize_and_pad nearest 0%nat 49 (store_with (mkImage 1 49 gradient)))
           = Ok r /\
         heap (snd (resize_and_pad nearest 0%nat 49
                      (store_with (mkImage 1 49 gradient)))) !! r = Some out /\
         width out = 49 /\ height out = 49) /\
    (fst (resize_and_pad nearest 0%nat 49 (store_with (mkImage 1 49 gradient)))
       = Raise ValueError <->
       new_width = 0 \/ new_height = 0).
Proof.
  apply (resize_and_pad_outcome nearest (store_with (mkImage 1 49 gradient))
           0%nat (mkImage 1 49 gradient) 49).
  - reflexivity.
  - split; cbn; lia.
  - cbn. lia.
  - cbn. lia.
  - lia.
Defined.

(** A square image fills the canvas: when [resize_and_pad] returns on it,
    the output has no padding, every pixel of it is the pixel of the
    resized picture at the same place (of the image itself when it already
    has the size). *)
Theorem resize_and_pad_square_fills_canvas lanczos s image img T r s' :
  heap s !! image = Some img -> pil_image img ->
  0 < width img -> height img = width img -> 0 < T <= 2 ^ 53 ->
  resize_and_pad lanczos image T s = (Ok r, s') ->
  exists resized out,
    resized_image lanczos img T T = Ok resized /\
    heap s' !! r = Some out /\ width out = T /\ height out = T /\
    (forall x y, 0 <= x < T -> 0 <= y < T ->
       getpixel out x y = getpixel resized x y) /\
    (width img = T -> forall x y, getpixel resized x y = getpixel img x y).
Proof.
  intros Himg _ Hw Esq HT.
  rewrite (resize_and_pad_run lanczos s image img T Himg). rewrite Esq.
  rewrite scaled_size_square by lia.
  destruct (resized_image lanczos img T T) as [rz|e] eqn:Erz; [|discriminate].
  rewrite (proj2 (Z.ltb_ge T 0)) by lia. intros [= <- <-].
  destruct (resized_image_size _ _ _ _ _ Erz) as [Ew Eh].
  exists rz, (letterbox T rz). split; [reflexivity|]. cbn [with_heap heap].
  split; [apply lookup_new_canvas|]. split; [reflexivity|]. split; [reflexivity|].
  assert (paste_offset T T = 0) as E0.
  { unfold paste_offset. rewrite Z.sub_diag. reflexivity. }
  split.
  - intros x y Hx Hy. unfold letterbox, pasted. cbn [getpixel width height].
    rewrite Ew, Eh, E0, !Z.sub_0_r.
    rewrite (proj2 (in_box_iff 0 0 T T x y)) by lia. reflexivity.
  - intros ET x y. unfold resized_image in Erz.
    rewrite Esq, ET, Z.eqb_refl in Erz. cbn [andb] in Erz.
    injection Erz as <-. reflexivity.
Qed.

Lemma resize_and_pad_square_fills_canvas_witness :
  exists resized out,
    resized_image nearest (mkImage 4 4 gradient) 8 8 = Ok resized /\
    heap (snd (resize_and_pad nearest 0%nat 8
                 (store_with (mkImage 4 4 gradient)))) !! 2%nat = Some out /\
    width out = 8 /\ height out = 8 /\
    (forall x y, 0 <= x < 8 -> 0 <= y < 8 ->
       getpixel out x y = getpixel resized x y) /\
    (width (mkImage 4 4 gradient) = 8 ->
     forall x y, getpixel resized x y = getpixel (mkImage 4 4 gradient) x y).
Proof.
  apply (resize_and_pad_square_fills_canvas nearest
           (store_with (mkImage 4 4 gradient)) 0%nat (mkImage 4 4 gradient) 8
           2%nat).
  - reflexivity.
  - split; cbn; lia.
  - cbn. lia.
  - reflexivity.
  - lia.
  - reflexivity.
Defined.

(** Nothing of the picture is cropped: when [resize_and_pad] returns on an
    image with positive sides, the resized picture has its long side on
    the canvas's and every pixel of it is on the output, at the paste
    offset. *)
Theorem resize_and_pad_shows_whole_picture lanczos s image img T r s' :
  heap s !! image = Some img -> pil_image img ->
  0 < width img -> 0 < height img -> 0 < T <= 2 ^ 53 ->
  resize_and_pad lanczos image T s = (Ok r, s') ->
  exists new_width new_height resized out,
    scaled_size (width img) (height img) T = Ok (new_width, new_height) /\
    resized_image lanczos img new_width new_height = Ok resized /\
    heap s' !! r = Some out /\
    (new_width = T \/ new_height = T) /\
    1 <= new_width <= T /\ 1 <= new_height <= T /\
    forall x y, 0 <= x < new_width -> 0 <= y < new_height ->
      0 <= paste_offset T new_width + x < T /\
      0 <= paste_offset T new_height + y < T /\
      getpixel out (paste_offset T new_width + x) (paste_offset T new_height + y)
        = getpixel resized x y.
Proof.
  intros Himg [Hpw Hph] Hw Hh HT.
  rewrite (resize_and_pad_run lanczos s image img T Himg).
  destruct (scaled_size_cases (width img) (height img) T Hw Hh HT)
    as [(a & _ & _ & _ & nw & nh & Es & Hnw & Hnh & Hbr)|[_ Hbig]].
  2:{ exfalso. assert (2 ^ 31 < 2 ^ 1023) by (apply Z.pow_lt_mono_r; lia). lia. }
  rewrite Es.
  destruct (resized_image lanczos img nw nh) as [rz|e] eqn:Erz; [|discriminate].
  rewrite (proj2 (Z.ltb_ge T 0)) by lia. intros [= <- <-].
  destruct (resized_image_size _ _ _ _ _ Erz) as [Ew Eh].
  destruct (resized_image_sides _ _ _ _ _ Hw Hh Erz) as [H1w H1h].
  exists nw, nh, rz, (letterbox T rz).
  split; [reflexivity|]. split; [exact Erz|]. cbn [with_heap heap].
  split; [apply lookup_new_canvas|].
  split; [destruct (gt_one a); [left|right]; apply Hbr|].
  split; [lia|]. split; [lia|].
  intros x y Hx Hy.
  pose proof (paste_offset_bounds T nw Hnw). pose proof (paste_offset_bounds T nh Hnh).
  split; [lia|]. split; [lia|].
  unfold letterbox, pasted. cbn [getpixel width height]. rewrite Ew, Eh.
  rewrite (proj2 (in_box_iff _ _ nw nh _ _)) by lia.
  f_equal; lia.
Qed.

Lemma resize_and_pad_shows_whole_picture_witness :
  exists new_width new_height resized out,
    scaled_size 200 100 100 = Ok (new_width, new_height) /\
    resized_image nearest (mkImage 200 100 gradient) new_width new_height
      = Ok resized /\
    heap (snd (resize_and_pad nearest 0%nat 100
                 (store_with (mkImage 200 100 gradient)))) !! 2%nat = Some out /\
    (new_width = 100 \/ new_height = 100) /\
    1 <= new_width <= 100 /\ 1 <= new_height <= 100 /\
    forall x y, 0 <= x < new_width -> 0 <= y < new_height ->
      0 <= paste_offset 100 new_width + x < 100 /\
      0 <= paste_offset 100 new_height + y < 100 /\
      getpixel out (paste_offset 100 new_width + x) (paste_offset 100 new_height + y)
        = getpixel resized x y.
Proof.
  apply (resize_and_pad_shows_whole_picture nearest
           (store_with (mkImage 200 100 gradient)) 0%nat
           (mkImage 200 100 gradient) 100 2%nat).
  - reflexivity.
  - split; cbn; lia.
  - cbn. lia.
  - cbn. lia.
  - lia.
  - reflexivity.
Defined.

(** * Aspect ratios that are powers of two *)

Lemma bpow_opp_inv k : (bpow k * bpow (- k) = 1)%R.
Proof. rewrite <- bpow_plus. replace (k + - k) with 0 by lia. apply bpow_0. Qed.

Lemma in_format_scaled T k :
  0 < T <= 2 ^ 53 -> 0 <= k <= 1000 -> in_format (IZR T * bpow (- k)).
Proof.
  intros HT Hk. destruct (Z.eq_dec T (2 ^ 53)) as [->|Hne].
  - exists (2 ^ 52), (1 - k). split; [|split; [reflexivity|lia]].
    rewrite F2R_bpow by lia. rewrite <- bpow_IZR, <- bpow_plus by lia.
    f_equal. lia.
  - exists T, (- k). split; [reflexivity|lia].
Qed.

Lemma floor_scaled T k n :
  0 <= k -> (IZR n <= IZR T * bpow (- k) < IZR n + 1)%R -> n = T / 2 ^ k.
Proof.
  intros Hk [Hlo Hhi].
  assert (0 < 2 ^ k) as HP by (apply Z.pow_pos_nonneg; lia).
  pose proof (bpow_opp_inv k) as Einv. pose proof (bpow_gt_0 k) as Hp.
  rewrite bpow_IZR in Einv, Hp by lia.
  set (c := bpow (- k)) in *. clearbody c.
  set (P := IZR (2 ^ k)) in *.
  assert (IZR n * P <= IZR T /\ IZR T < (IZR n + 1) * P)%R as [H1 H2].
  { clearbody P.
    assert (IZR T * c * P = IZR T)%R as ET
      by (rewrite Rmult_assoc, (Rmult_comm c), Einv; ring).
    assert (0 <= (IZR T * c - IZR n) * P)%R by (apply Rmult_le_pos; lra).
    assert (0 < (IZR n + 1 - IZR T * c) * P)%R by (apply Rmult_lt_0_compat; lra).
    split; lra. }
  unfold P in H1, H2.
  rewrite <- mult_IZR in H1. apply le_IZR in H1.
  rewrite <- plus_IZR, <- mult_IZR in H2. apply lt_IZR in H2.
  apply Z.div_unique with (T - n * 2 ^ k); lia.
Qed.

(** For an image [2 ^ k] times wider than tall the short side is exactly
    [target_size // 2 ^ k], and likewise for one [2 ^ k] times taller than
    wide: ratios that are powers of two go through the floats without
    error. *)
Theorem scaled_size_power_of_two_ratio w h T k :
  0 < h -> 0 <= k -> w = 2 ^ k * h -> w < 2 ^ 31 -> 0 < T <= 2 ^ 53 ->
  scaled_size w h T = Ok (T, T / 2 ^ k) /\
  scaled_size h w T = Ok (T / 2 ^ k, T).
Proof.
  intros Hh Hk Ew Hw HT.
  assert (0 < 2 ^ k) as HP by (apply Z.pow_pos_nonneg; lia).
  assert (2 ^ 31 < 2 ^ 52) as H52 by (apply Z.pow_lt_mono_r; lia).
  assert (2 ^ 31 < 2 ^ 1023) as H1023 by (apply Z.pow_lt_mono_r; lia).
  assert (0 < w) as Hwpos by nia.
  assert (h <= w) as Hhw by nia.
  assert (k <= 31) as Hk31.
  { destruct (Z_le_gt_dec k 31) as [|Hgt]; [assumption|exfalso].
    assert (2 ^ 32 <= 2 ^ k) by (apply Z.pow_le_mono_r; lia).
    assert (2 ^ 31 < 2 ^ 32) by (apply Z.pow_lt_mono_r; lia). nia. }
  destruct (Z.eq_dec k 0) as [->|Hk0].
  { change (2 ^ 0) with 1 in *. rewrite Z.div_1_r.
    assert (w = h) as -> by lia. rewrite scaled_size_square by lia. split; reflexivity. }
  assert (2 <= 2 ^ k) as HP2.
  { change 2 with (2 ^ 1) at 1. apply Z.pow_le_mono_r; lia. }
  assert (h < w) as Hlt by nia.
  assert (0 < IZR h)%R as Hh' by (apply IZR_lt; lia).
  assert (IZR w = bpow k * IZR h)%R as EwR.
  { rewrite Ew, mult_IZR, bpow_IZR by lia. reflexivity. }
  pose proof (bpow_opp_inv k) as Einv. pose proof (bpow_gt_0 k) as Hbk.
  pose proof (bpow_gt_0 (- k)) as Hbnk.
  destruct (of_int_exact T HT) as (mT & eT & ET & HbT & HvT).
  split.
  - destruct (scaled_size_cases w h T Hwpos Hh HT)
      as [(a & Ea & Hfin & Hr & nw & nh & Es & Hnw & Hnh & Hbr)|[_ Hbig]]; [|lia].
    pose proof (proj2 (gt_one_aspect w h a Hwpos ltac:(lia) Hr Hfin) Hlt) as Eg.
    rewrite Eg in Hbr. destruct Hbr as (-> & q & Eq & Hfl).
    rewrite Es. f_equal. f_equal.
    assert (IZR w / IZR h = bpow k)%R as Ex by (rewrite EwR; field; lra).
    rewrite Ex in Hr.
    destruct (rounds_to_exact _ _ Hr) as [_ Hv];
      [apply in_format_bpow; lia|apply bpow_lt; lia|].
    destruct (valid_nonneg_cases _ (rt_valid _ _ Hr) Hfin) as [E|(m & e & E & Hb)];
      subst a; [discriminate|]. cbn [SF2R] in Hv.
    assert (q = SFdiv prec emax (S754_finite false mT eT) (S754_finite false m e))
      as ->.
    { unfold int_div_float in Eq. rewrite ET in Eq. cbn [rbind is_zero] in Eq.
      injection Eq as <-. reflexivity. }
    pose proof (SFdiv_rounds mT eT m e) as Hq. rewrite HvT, Hv in Hq.
    assert (IZR T / bpow k = IZR T * bpow (- k))%R as Ey.
    { apply Rmult_eq_reg_r with (bpow k); [|lra].
      unfold Rdiv. rewrite !Rmult_assoc, Rinv_l by lra.
      rewrite (Rmult_comm (bpow (- k))), Einv. reflexivity. }
    rewrite Ey in Hq.
    destruct (rounds_to_exact _ _ Hq) as [_ Hqv];
      [apply in_format_scaled; lia| |].
    { apply Rle_lt_trans with (IZR T); [|apply IZR_below_overflow; lia].
      assert (0 < IZR T)%R by (apply IZR_lt; lia).
      assert (bpow (- k) <= 1)%R by (rewrite <- bpow_0; apply bpow_le; lia). nra. }
    unfold floor_of in Hfl. rewrite Hqv in Hfl.
    apply (floor_scaled T k nh Hk Hfl).
  - destruct (scaled_size_cases h w T Hh Hwpos HT)
      as [(a & Ea & Hfin & Hr & nw & nh & Es & Hnw & Hnh & Hbr)|[_ Hbig]]; [|lia].
    assert (gt_one a = false) as Eg.
    { destruct (gt_one a) eqn:Eg; [|reflexivity].
      apply (gt_one_aspect h w a Hh ltac:(lia) Hr Hfin) in Eg. lia. }
    rewrite Eg in Hbr. destruct Hbr as (-> & q & Eq & Hfl).
    rewrite Es. f_equal. f_equal.
    assert (0 < IZR w)%R as Hw' by (apply IZR_lt; lia).
    assert (IZR h / IZR w = bpow (- k))%R as Ex.
    { apply Rmult_eq_reg_r with (IZR w); [|lra].
      unfold Rdiv. rewrite Rmult_assoc, Rinv_l by lra. rewrite EwR.
      rewrite <- Rmult_assoc, (Rmult_comm (bpow (- k))), Einv. lra. }
    rewrite Ex in Hr.
    destruct (rounds_to_exact _ _ Hr) as [_ Hv];
      [apply in_format_bpow; lia|apply bpow_lt; lia|].
    destruct (valid_nonneg_cases _ (rt_valid _ _ Hr) Hfin) as [E|(m & e & E & Hb)];
      subst a; cbn [SF2R] in Hv; [lra|].
    assert (q = SFmul prec emax (S754_finite false mT eT) (S754_finite false m e))
      as ->.
    { unfold int_mul_float in Eq. rewrite ET in Eq. cbn [rbind] in Eq.
      injection Eq as <-. reflexivity. }
    pose proof (SFmul_rounds mT eT m e HbT Hb) as Hq. rewrite HvT, Hv in Hq.
    destruct (rounds_to_exact _ _ Hq) as [_ Hqv];
      [apply in_format_scaled; lia| |].
    { apply Rle_lt_trans with (IZR T); [|apply IZR_below_overflow; lia].
      assert (0 < IZR T)%R by (apply IZR_lt; lia).
      assert (bpow (- k) <= 1)%R by (rewrite <- bpow_0; apply bpow_le; lia). nra. }
    unfold floor_of in Hfl. rewrite Hqv in Hfl.
    apply (floor_scaled T k nw Hk Hfl).
Qed.

Lemma scaled_size_power_of_two_ratio_witness :
  scaled_size 1600 400 1024 = Ok (1024, 1024 / 2 ^ 2) /\
  scaled_size 400 1600 1024 = Ok (1024 / 2 ^ 2, 1024).
Proof.
  apply (scaled_size_power_of_two_ratio 1600 400 1024 2); lia.
Defined.

(** * The relative error of a rounding *)

Lemma bracket_exponent (x : R) lo : forall n : nat,
  (bpow lo <= x < bpow (lo + Z.of_nat n))%R ->
  exists e, lo < e <= lo + Z.of_nat n /\ (bpow (e - 1) <= x < bpow e)%R.
Proof.
  induction n as [|n IH]; intros [Hlo Hhi].
  - exfalso. replace (lo + Z.of_nat 0) with lo in Hhi by lia. lra.
  - destruct (Rlt_le_dec x (bpow (lo + Z.of_nat n))) as [Hlt|Hge].
    + destruct (IH (conj Hlo Hlt)) as (e & He & Hx). exists e. split; [lia|exact Hx].
    + exists (lo + Z.of_nat (S n)). split; [lia|].
      replace (lo + Z.of_nat (S n) - 1) with (lo + Z.of_nat n) by lia. split; assumption.
Qed.

Lemma real_floor (y : R) : exists m : Z, (IZR m <= y < IZR m + 1)%R.
Proof.
  exists (up y - 1). destruct (archimed y) as [H1 H2].
  rewrite minus_IZR. lra.
Qed.

Lemma rounds_to_relative x z :
  rounds_to x z -> (bpow (-1022) <= x < bpow 1023)%R ->
  is_finite z = true /\
  (x * (1 - bpow (-52)) <= SF2R z <= x * (1 + bpow (-52)))%R.
Proof.
  intros Hr Hx.
  destruct (bracket_exponent x (-1022) 2045%nat) as (e & He & Hlo & Hhi).
  { change (-1022 + Z.of_nat 2045) with 1023. exact Hx. }
  change (-1022 + Z.of_nat 2045) with 1023 in He.
  destruct (real_floor (x * bpow (53 - e))) as (m & Hm1 & Hm2).
  pose proof (bpow_gt_0 (53 - e)) as Hs. pose proof (bpow_gt_0 (e - 53)) as Hu.
  assert (bpow (53 - e) * bpow (e - 53) = 1)%R as Einv.
  { rewrite <- bpow_plus. replace (53 - e + (e - 53)) with 0 by lia. apply bpow_0. }
  assert (bpow (e - 1) * bpow (53 - e) = bpow 52)%R as E52.
  { rewrite <- bpow_plus. f_equal. lia. }
  assert (bpow e * bpow (53 - e) = bpow 53)%R as E53.
  { rewrite <- bpow_plus. f_equal. lia. }
  assert (bpow (e - 53) = bpow (e - 1) * bpow (-52))%R as Eulp.
  { rewrite <- bpow_plus. f_equal. lia. }
  assert (2 ^ 52 <= m < 2 ^ 53) as Hm.
  { rewrite (bpow_IZR 52), (bpow_IZR 53) in * by lia. split.
    - assert (IZR (2 ^ 52) < IZR m + 1)%R as H by nra.
      rewrite <- plus_IZR in H. apply lt_IZR in H. lia.
    - apply lt_IZR. nra. }
  set (y := (x * bpow (53 - e))%R) in *.
  assert (x = y * bpow (e - 53))%R as Ex.
  { unfold y. rewrite Rmult_assoc, Einv. ring. }
  assert (in_format (F2R m (e - 53))) as FL.
  { exists m, (e - 53). split; [reflexivity|]. split; lia. }
  assert (in_format (F2R (m + 1) (e - 53))) as FU.
  { destruct (Z.eq_dec (m + 1) (2 ^ 53)) as [E|Hne].
    - exists 1, e. split; [|lia]. rewrite E, F2R_bpow by lia.
      unfold F2R. replace (53 + (e - 53)) with e by lia. lra.
    - exists (m + 1), (e - 53). split; [reflexivity|]. split; lia. }
  assert (F2R m (e - 53) <= x)%R as HL.
  { unfold F2R. rewrite Ex. apply Rmult_le_compat_r; lra. }
  assert (x <= F2R (m + 1) (e - 53))%R as HU.
  { unfold F2R. rewrite plus_IZR, Ex. apply Rmult_le_compat_r; lra. }
  assert (F2R (m + 1) (e - 53) = F2R m (e - 53) + bpow (e - 53))%R as EU.
  { unfold F2R. rewrite plus_IZR. ring. }
  assert (F2R (m + 1) (e - 53) < bpow 1024)%R as HUmax.
  { apply Rle_lt_trans with (bpow e).
    - apply Rle_trans with (F2R (2 ^ 53) (e - 53)); [apply F2R_le; lia|].
      rewrite F2R_bpow by lia. replace (53 + (e - 53)) with e by lia. lra.
    - apply bpow_lt. lia. }
  destruct (rt_upper _ _ Hr _ FU HU HUmax) as [Hfin Hzu].
  pose proof (rt_lower _ _ Hr _ FL HL Hfin) as Hzl.
  split; [exact Hfin|].
  pose proof (bpow_gt_0 (-52)) as H52. pose proof (bpow_gt_0 (e - 1)) as He1.
  assert (bpow (e - 53) <= x * bpow (-52))%R as Hulp.
  { rewrite Eulp. apply Rmult_le_compat_r; lra. }
  split; lra.
Qed.

(** * How far the scaled side is from the exact one *)

(** The division branch, in the reals: [A] is the rounded aspect ratio,
    [q] the rounded quotient and [n] its integer part. *)
Lemma quotient_accuracy (Tr hr wr n q A eps : R) :
  (0 < hr)%R -> (0 < wr)%R -> (0 < Tr)%R -> (0 <= n)%R -> (0 < A)%R ->
  (0 <= eps <= 1)%R ->
  (wr * (1 - eps) <= A * hr <= wr * (1 + eps))%R ->
  (Tr * (1 - eps) <= q * A <= Tr * (1 + eps))%R ->
  (n <= q < n + 1)%R ->
  (eps * ((n + 1) * wr + Tr * hr) < 1)%R ->
  (n * wr < Tr * hr + 1 /\ Tr * hr - 1 < (n + 1) * wr)%R.
Proof.
  intros Hh Hw HT Hn HA Heps [HA1 HA2] [Hq1 Hq2] [Hn1 Hn2] Hsmall.
  assert (0 <= q)%R as Hq by lra.
  assert (q * (wr * (1 - eps)) <= q * (A * hr))%R as P1
    by (apply Rmult_le_compat_l; lra).
  assert (q * (A * hr) <= q * (wr * (1 + eps)))%R as P2
    by (apply Rmult_le_compat_l; lra).
  assert (q * A * hr <= Tr * (1 + eps) * hr)%R as P3
    by (apply Rmult_le_compat_r; lra).
  assert (Tr * (1 - eps) * hr <= q * A * hr)%R as P4
    by (apply Rmult_le_compat_r; lra).
  assert (n * (wr * (1 - eps)) <= q * (wr * (1 - eps)))%R as P5.
  { apply Rmult_le_compat_r; [|lra]. apply Rmult_le_pos; lra. }
  assert (q * (wr * (1 + eps)) <= (n + 1) * (wr * (1 + eps)))%R as P6.
  { apply Rmult_le_compat_r; [|lra]. apply Rmult_le_pos; lra. }
  assert (0 <= eps * wr)%R by (apply Rmult_le_pos; lra).
  assert (0 <= eps * (n * wr))%R.
  { apply Rmult_le_pos; [lra|]. apply Rmult_le_pos; lra. }
  assert (0 <= eps * (Tr * hr))%R.
  { apply Rmult_le_pos; [lra|]. apply Rmult_le_pos; lra. }
  split; lra.
Qed.

(** The multiplication branch. *)
Lemma product_accuracy (Tr hr wr n q A eps : R) :
  (0 < hr)%R -> (0 < wr)%R -> (0 < Tr)%R -> (0 <= n)%R -> (0 < A)%R ->
  (0 <= eps <= 1)%R ->
  (wr * (1 - eps) <= A * hr <= wr * (1 + eps))%R ->
  (Tr * A * (1 - eps) <= q <= Tr * A * (1 + eps))%R ->
  (n <= q < n + 1)%R ->
  (3 * eps * (Tr * wr) < 1)%R ->
  (n * hr < Tr * wr + 1 /\ Tr * wr - 1 < (n + 1) * hr)%R.
Proof.
  intros Hh Hw HT Hn HA Heps [HA1 HA2] [Hq1 Hq2] [Hn1 Hn2] Hsmall.
  assert (0 <= Tr * wr)%R as Htw by (apply Rmult_le_pos; lra).
  assert (q * hr <= Tr * A * (1 + eps) * hr)%R as P1
    by (apply Rmult_le_compat_r; lra).
  assert (Tr * A * (1 - eps) * hr <= q * hr)%R as P2
    by (apply Rmult_le_compat_r; lra).
  assert (Tr * (1 + eps) * (A * hr) <= Tr * (1 + eps) * (wr * (1 + eps)))%R as P3.
  { apply Rmult_le_compat_l; [|lra]. apply Rmult_le_pos; lra. }
  assert (Tr * (1 - eps) * (wr * (1 - eps)) <= Tr * (1 - eps) * (A * hr))%R as P4.
  { apply Rmult_le_compat_l; [|lra]. apply Rmult_le_pos; lra. }
  assert (n * hr <= q * hr)%R as P5 by (apply Rmult_le_compat_r; lra).
  assert (q * hr < (n + 1) * hr)%R as P6 by (apply Rmult_lt_compat_r; lra).
  assert (0 <= eps * eps <= eps)%R as Hee.
  { split; [apply Rmult_le_pos; lra|].
    rewrite <- (Rmult_1_r eps) at 3. apply Rmult_le_compat_l; lra. }
  assert (0 <= eps * (Tr * wr))%R as X1 by (apply Rmult_le_pos; lra).
  assert (eps * eps * (Tr * wr) <= eps * (Tr * wr))%R as X2
    by (apply Rmult_le_compat_r; lra).
  assert (0 <= eps * eps * (Tr * wr))%R as X3.
  { apply Rmult_le_pos; lra. }
  split; lra.
Qed.

Lemma floor_or_one_less n a b :
  0 < b -> n * b <= a <= (n + 1) * b ->
  n = a / b \/ (n = a / b - 1 /\ a mod b = 0).
Proof.
  intros Hb [Hlo Hhi]. destruct (Z.eq_dec a ((n + 1) * b)) as [->|Hne].
  - right. rewrite Z.div_mul, Z.mod_mul by lia. lia.
  - left. apply Z.div_unique with (a - n * b); lia.
Qed.

Lemma eps_small : (0 < bpow (-52) <= / 2)%R.
Proof.
  split; [apply bpow_gt_0|].
  apply Rle_trans with (bpow (-1)); [apply bpow_le; lia|].
  change (-1) with (0 - 1). rewrite bpow_pred, bpow_0. lra.
Qed.

(** The ratio of two sides below [2 ^ 31], and its rounding. *)
Lemma aspect_ratio_relative w h a :
  0 < w < 2 ^ 31 -> 0 < h < 2 ^ 31 ->
  rounds_to (IZR w / IZR h) a -> is_finite a = true ->
  exists m e,
    a = S754_finite false m e /\ bounded prec emax m e = true /\
    (IZR w * (1 - bpow (-52)) <= F2R (Z.pos m) e * IZR h
       <= IZR w * (1 + bpow (-52)))%R /\
    (bpow (-32) <= F2R (Z.pos m) e <= bpow 32)%R.
Proof.
  intros Hw Hh Hr Hfin.
  assert (0 < IZR h)%R as Hh' by (apply IZR_lt; lia).
  assert (1 <= IZR w)%R as Hw1 by (apply IZR_le; lia).
  assert (1 <= IZR h)%R as Hh1 by (apply IZR_le; lia).
  assert (IZR w < bpow 31 /\ IZR h < bpow 31)%R as [Hw31 Hh31].
  { rewrite bpow_IZR by lia. split; apply IZR_lt; lia. }
  assert (IZR w / IZR h * IZR h = IZR w)%R as Ew by (field; lra).
  assert (bpow (-31) * bpow 31 = 1)%R as E31.
  { rewrite <- bpow_plus. apply bpow_0. }
  pose proof (bpow_gt_0 (-31)) as Hp31.
  set (x := (IZR w / IZR h)%R) in *.
  assert (bpow (-31) <= x <= bpow 31)%R as [Hx1 Hx2].
  { split.
    - apply Rmult_le_reg_r with (IZR h); [lra|]. rewrite Ew.
      apply Rle_trans with (bpow (-31) * bpow 31)%R; [|lra].
      apply Rmult_le_compat_l; lra.
    - apply Rmult_le_reg_r with (IZR h); [lra|]. rewrite Ew.
      pose proof (bpow_gt_0 31). nra. }
  destruct (rounds_to_relative x a Hr) as [_ [Hlo Hhi]].
  { split.
    - apply Rle_trans with (bpow (-31)); [apply bpow_le; lia|exact Hx1].
    - apply Rle_lt_trans with (bpow 31); [exact Hx2|apply bpow_lt; lia]. }
  destruct eps_small as [He0 He1].
  destruct (valid_nonneg_cases _ (rt_valid _ _ Hr) Hfin) as [E|(m & e & E & Hb)];
    subst a; cbn [SF2R] in Hlo, Hhi.
  { exfalso. nra. }
  exists m, e. split; [reflexivity|]. split; [exact Hb|].
  set (A := F2R (Z.pos m) e) in *. clearbody A.
  assert (bpow (-32) = bpow (-31) * / 2 /\ bpow 32 = bpow 31 * 2)%R as [E32 E32'].
  { split.
    - change (-32) with (-31 - 1). rewrite bpow_pred. lra.
    - change 32 with (31 + 1). rewrite bpow_succ. lra. }
  split; [|split].
  - split.
    + rewrite <- Ew. replace (x * IZR h * (1 - bpow (-52)))%R
        with (x * (1 - bpow (-52)) * IZR h)%R by ring.
      apply Rmult_le_compat_r; lra.
    + rewrite <- Ew. replace (x * IZR h * (1 + bpow (-52)))%R
        with (x * (1 + bpow (-52)) * IZR h)%R by ring.
      apply Rmult_le_compat_r; lra.
  - rewrite E32. nra.
  - rewrite E32'. nra.
Qed.

(** The short side is the exact quotient rounded down, or one less than
    it when the division is exact. *)
Theorem scaled_size_accuracy w h T :
  0 < w < 2 ^ 31 -> 0 < h < 2 ^ 31 -> 0 < T <= 2 ^ 19 ->
  exists new_width new_height,
    scaled_size w h T = Ok (new_width, new_height) /\
    (h < w ->
       new_width = T /\
       (new_height = T * h / w \/
        (new_height = T * h / w - 1 /\ (T * h) mod w = 0))) /\
    (w <= h ->
       new_height = T /\
       (new_width = T * w / h \/
        (new_width = T * w / h - 1 /\ (T * w) mod h = 0))).
Proof.
  intros Hw Hh HT.
  assert (2 ^ 19 < 2 ^ 53) as H1953 by (apply Z.pow_lt_mono_r; lia).
  assert (2 ^ 31 < 2 ^ 52) as H3152 by (apply Z.pow_lt_mono_r; lia).
  assert (2 ^ 31 < 2 ^ 1023) as H1023 by (apply Z.pow_lt_mono_r; lia).
  destruct (scaled_size_cases w h T ltac:(lia) ltac:(lia) ltac:(lia))
    as [(a & Ea & Hfin & Hr & nw & nh & Es & Hnw & Hnh & Hbr)|[_ Hbig]]; [|lia].
  exists nw, nh. split; [exact Es|].
  pose proof (gt_one_aspect w h a ltac:(lia) ltac:(lia) Hr Hfin) as Hg.
  destruct (aspect_ratio_relative w h a Hw Hh Hr Hfin)
    as (m & e & -> & Hb & HAh & HA32).
  destruct (of_int_exact T ltac:(lia)) as (mT & eT & ET & HbT & HvT).
  destruct eps_small as [He0 He1].
  assert (0 < IZR h)%R as Hh' by (apply IZR_lt; lia).
  assert (0 < IZR w)%R as Hw' by (apply IZR_lt; lia).
  assert (1 <= IZR T)%R as HT1 by (apply IZR_le; lia).
  assert (IZR T <= bpow 19)%R as HT19 by (rewrite bpow_IZR by lia; apply IZR_le; lia).
  pose proof (F2R_pos m e) as HApos.
  assert (bpow (-52) * bpow 52 = 1)%R as E52.
  { rewrite <- bpow_plus. apply bpow_0. }
  assert (bpow (-32) * bpow 32 = 1)%R as E32.
  { rewrite <- bpow_plus. apply bpow_0. }
  pose proof (bpow_gt_0 (-32)) as Hp32. pose proof (bpow_gt_0 32) as Hq32.
  assert (bpow (-1022) <= bpow (-32))%R as Hmin by (apply bpow_le; lia).
  assert (bpow 19 * bpow 32 = bpow 51)%R as E51.
  { rewrite <- bpow_plus. reflexivity. }
  assert (bpow 51 < bpow 1023)%R as Hmax by (apply bpow_lt; lia).
  assert (forall S, S < 2 ^ 52 -> 0 <= S -> (bpow (-52) * IZR S < 1)%R) as Hsmall.
  { intros S HS HS0. rewrite <- E52. apply Rmult_lt_compat_l; [exact He0|].
    rewrite bpow_IZR by lia. apply IZR_lt. exact HS. }
  destruct (gt_one (S754_finite false m e)) eqn:Eg.
  - destruct Hbr as (-> & q & Eq & Hfl).
    assert (h < w) as Hlt by (apply Hg; reflexivity).
    split; [|intros Hc; lia]. intros _. split; [reflexivity|].
    assert (q = SFdiv prec emax (S754_finite false mT eT) (S754_finite false m e))
      as ->.
    { unfold int_div_float in Eq. rewrite ET in Eq. cbn [rbind is_zero] in Eq.
      injection Eq as <-. reflexivity. }
    pose proof (SFdiv_rounds mT eT m e) as Hq. rewrite HvT in Hq.
    set (A := F2R (Z.pos m) e) in *. clearbody A.
    set (y := (IZR T / A)%R) in *.
    assert (y * A = IZR T)%R as Ey by (unfold y; field; lra).
    assert (0 < y)%R as Hy by (unfold y; apply Rdiv_lt_0_compat; lra).
    destruct (rounds_to_relative y _ Hq) as [_ [Hlo Hhi]].
    { split.
      - apply Rle_trans with (bpow (-32)); [exact Hmin|].
        destruct (Rle_lt_dec (bpow (-32)) y) as [|Hc]; [assumption|exfalso].
        assert (y * A < bpow (-32) * bpow 32)%R; [|lra].
        apply Rle_lt_trans with (y * bpow 32)%R;
          [apply Rmult_le_compat_l; lra|apply Rmult_lt_compat_r; lra].
      - apply Rle_lt_trans with (bpow 51); [|exact Hmax].
        destruct (Rle_lt_dec y (bpow 51)) as [|Hc]; [assumption|exfalso].
        assert (bpow 19 < y * A)%R; [|lra].
        apply Rle_lt_trans with (bpow 51 * bpow (-32))%R.
        { rewrite <- E51, Rmult_assoc, (Rmult_comm (bpow 32)), E32. lra. }
        apply Rlt_le_trans with (y * bpow (-32))%R;
          [apply Rmult_lt_compat_r; lra|apply Rmult_le_compat_l; lra]. }
    set (Q := SF2R (SFdiv prec emax (S754_finite false mT eT) (S754_finite false m e))) in *.
    unfold floor_of in Hfl. fold Q in Hfl. clearbody Q.
    destruct (quotient_accuracy (IZR T) (IZR h) (IZR w) (IZR nh) Q A (bpow (-52)))
      as [R1 R2]; try lra.
    + apply IZR_le. lia.
    + split.
      * replace (IZR T * (1 - bpow (-52)))%R with (y * (1 - bpow (-52)) * A)%R
          by (rewrite <- Ey; ring).
        apply Rmult_le_compat_r; lra.
      * replace (IZR T * (1 + bpow (-52)))%R with (y * (1 + bpow (-52)) * A)%R
          by (rewrite <- Ey; ring).
        apply Rmult_le_compat_r; lra.
    + rewrite <- plus_IZR, <- !mult_IZR, <- plus_IZR. apply Hsmall; nia.
    + apply floor_or_one_less; [lia|]. split.
      * rewrite <- !mult_IZR, <- plus_IZR in R1. apply lt_IZR in R1. lia.
      * rewrite <- plus_IZR, <- !mult_IZR, <- minus_IZR in R2. apply lt_IZR in R2. lia.
  - destruct Hbr as (-> & q & Eq & Hfl).
    assert (w <= h) as Hle.
    { destruct (Z_le_gt_dec w h) as [|Hc]; [assumption|].
      assert (h < w) as Hc' by lia. apply Hg in Hc'. discriminate. }
    split; [intros Hc; lia|]. intros _. split; [reflexivity|].
    assert (q = SFmul prec emax (S754_finite false mT eT) (S754_finite false m e))
      as ->.
    { unfold int_mul_float in Eq. rewrite ET in Eq. cbn [rbind] in Eq.
      injection Eq as <-. reflexivity. }
    pose proof (SFmul_rounds mT eT m e HbT Hb) as Hq. rewrite HvT in Hq.
    set (A := F2R (Z.pos m) e) in *. clearbody A.
    set (y := (IZR T * A)%R) in *.
    assert (0 < y)%R as Hy by (unfold y; apply Rmult_lt_0_compat; lra).
    destruct (rounds_to_relative y _ Hq) as [_ [Hlo Hhi]].
    { split.
      - apply Rle_trans with (bpow (-32)); [exact Hmin|].
        apply Rle_trans with (1 * A)%R; [lra|].
        unfold y. apply Rmult_le_compat_r; lra.
      - apply Rle_lt_trans with (bpow 51); [|exact Hmax].
        rewrite <- E51. unfold y.
        apply Rmult_le_compat; lra. }
    set (Q := SF2R (SFmul prec emax (S754_finite false mT eT) (S754_finite false m e))) in *.
    unfold floor_of in Hfl. fold Q in Hfl. clearbody Q.
    destruct (product_accuracy (IZR T) (IZR h) (IZR w) (IZR nw) Q A (bpow (-52)))
      as [R1 R2]; try lra.
    + apply IZR_le. lia.
    + unfold y in Hlo, Hhi. lra.
    + replace (3 * bpow (-52) * (IZR T * IZR w))%R
        with (bpow (-52) * IZR (3 * (T * w)))%R by (rewrite !mult_IZR; ring).
      apply Hsmall; nia.
    + apply floor_or_one_less; [lia|]. split.
      * rewrite <- !mult_IZR, <- plus_IZR in R1. apply lt_IZR in R1. lia.
      * rewrite <- plus_IZR, <- !mult_IZR, <- minus_IZR in R2. apply lt_IZR in R2. lia.
Qed.

Lemma scaled_size_accuracy_witness :
  exists new_width new_height,
    scaled_size 1920 1080 1024 = Ok (new_width, new_height) /\
    (1080 < 1920 ->
       new_width = 1024 /\
       (new_height = 1024 * 1080 / 1920 \/
        (new_height = 1024 * 1080 / 1920 - 1 /\ (1024 * 1080) mod 1920 = 0))) /\
    (1920 <= 1080 ->
       new_height = 1024 /\
       (new_width = 1024 * 1920 / 1080 \/
        (new_width = 1024 * 1920 / 1080 - 1 /\ (1024 * 1920) mod 1080 = 0))).
Proof.
  apply (scaled_size_accuracy 1920 1080 1024); lia.
Defined.

(** * What the notebook's functions leave as it was *)

Lemma keeps_refl h0 s : (exists new, heap s = h0 ++ new) -> keeps h0 s s.
Proof. intros H. split; [exact H|]. split; reflexivity. Qed.

Lemma keeps_trans h0 s1 s2 s3 : keeps h0 s1 s2 -> keeps h0 s2 s3 -> keeps h0 s1 s3.
Proof.
  intros (_ & Hc1 & Hd1) (Hh & Hc2 & Hd2).
  split; [exact Hh|]. split; congruence.
Qed.

Lemma keeps_lookup h0 s s' r im :
  keeps h0 s s' -> h0 !! r = Some im -> heap s' !! r = Some im.
Proof.
  intros ((new & ->) & _) Hr. apply lookup_app_l_Some. exact Hr.
Qed.

Lemma resize_and_pad_keeps lanczos h0 s image T :
  (exists new, heap s = h0 ++ new) ->
  keeps h0 s (snd (resize_and_pad lanczos image T s)).
Proof.
  intros (new & Hs).
  assert (forall s' more, s' = with_heap s (heap s ++ more) -> keeps h0 s s') as Hmore.
  { intros s' more ->. split; [|split; reflexivity].
    exists (new ++ more). cbn [with_heap heap]. rewrite Hs, app_assoc. reflexivity. }
  assert (keeps h0 s s) as Hsame by (apply keeps_refl; eauto).
  destruct (heap s !! image) as [img|] eqn:Himg.
  - rewrite (resize_and_pad_run lanczos s image img T Himg).
    destruct (scaled_size (width img) (height img) T) as [[nw nh]|e]; [|exact Hsame].
    destruct (resized_image lanczos img nw nh) as [rz|e]; [|exact Hsame].
    destruct (T <? 0); cbn [snd]; eapply Hmore; reflexivity.
  - unfold resize_and_pad, bind, deref. rewrite Himg. exact Hsame.
Qed.

Lemma resize_loop_keeps lanczos h0 images size : forall indices acc s,
  (exists new, heap s = h0 ++ new) ->
  keeps h0 s (snd (resize_loop lanczos indices images size acc s)).
Proof.
  induction indices as [|i rest IH]; intros acc s Hs.
  - apply keeps_refl. exact Hs.
  - cbn [resize_loop]. unfold bind at 1. unfold list_index.
    destruct (images !! i) as [r|]; [|apply keeps_refl; exact Hs].
    cbn [ret]. unfold bind at 1.
    pose proof (resize_and_pad_keeps lanczos h0 s r size Hs) as Hk.
    destruct (resize_and_pad lanczos r size s) as [[padded|e] s1]; cbn [snd] in Hk.
    + eapply keeps_trans; [exact Hk|]. apply IH. apply Hk.
    + exact Hk.
Qed.

Lemma Image_paste_keeps h0 s dst src box :
  (length h0 <= dst)%nat -> (exists new, heap s = h0 ++ new) ->
  keeps h0 s (snd (Image_paste dst src box s)).
Proof.
  intros Hdst (new & Hs). unfold Image_paste, bind, deref.
  destruct (heap s !! dst) as [d|]; [|apply keeps_refl; eauto].
  destruct (heap s !! src) as [sm|]; [|apply keeps_refl; eauto].
  destruct box as [x0 y0]. unfold store. cbn [snd with_heap].
  split; [|split; reflexivity]. cbn [heap].
  rewrite Hs, insert_app_r_alt by exact Hdst. eauto.
Qed.

Lemma paste_loop_keeps h0 grid cols w hh : forall items s,
  (length h0 <= grid)%nat -> (exists new, heap s = h0 ++ new) ->
  keeps h0 s (snd (paste_loop grid items cols w hh s)).
Proof.
  induction items as [|[i img] rest IH]; intros s Hg Hs.
  - apply keeps_refl. exact Hs.
  - cbn [paste_loop]. unfold bind at 1.
    pose proof (Image_paste_keeps h0 s grid img
                  (Z.of_nat i mod cols * w, Z.of_nat i / cols * hh) Hg Hs) as Hk.
    destruct (Image_paste grid img _ s) as [[u|e] s1]; cbn [snd] in Hk.
    + eapply keeps_trans; [exact Hk|]. apply IH; [exact Hg|apply Hk].
    + exact Hk.
Qed.

Lemma make_image_grid_keeps images rows cols s :
  keeps (heap s) s (snd (make_image_grid images rows cols s)).
Proof.
  assert (keeps (heap s) s s) as Hsame
    by (apply keeps_refl; exists []; rewrite app_nil_r; reflexivity).
  unfold make_image_grid.
  destruct (negb (Z.of_nat (length images) =? rows * cols)); [exact Hsame|].
  unfold bind at 1. unfold list_index.
  destruct (images !! 0%nat) as [first|]; [|exact Hsame]. cbn [ret].
  unfold bind at 1. unfold deref.
  destruct (heap s !! first) as [im0|]; [|exact Hsame].
  unfold bind at 1. unfold Image_new.
  destruct ((cols * width im0 <? 0) || (rows * height im0 <? 0)); [exact Hsame|].
  unfold alloc. set (s1 := with_heap s _).
  assert (keeps (heap s) s s1) as H1.
  { split; [eexists; reflexivity|split; reflexivity]. }
  unfold bind at 1.
  pose proof (paste_loop_keeps (heap s) (length (heap s)) cols (width im0) (height im0)
                (zip (seq 0 (length images)) images) s1 (le_n _) (proj1 H1)) as Hk.
  destruct (paste_loop _ _ _ _ _ s1) as [[u|e] s2]; cbn [snd ret] in *;
    exact (keeps_trans _ _ _ _ H1 Hk).
Qed.

(** The effects of one call of [generate_images]. *)
Lemma generate_images_effects lanczos pipeline_model
    prompt image steps n strength guidance size show s :
  let run := generate_images lanczos pipeline_model prompt image steps n
               strength guidance size show s in
  (exists new, heap (snd run) = heap s ++ new) /\
  pipeline_calls (snd run) =
    pipeline_calls s ++
      [mkCall prompt image steps n strength guidance NEGATIVE_PROMPT] /\
  if show && is_ok (fst run)
  then exists grid, displayed (snd run) = displayed s ++ [grid] /\
                    (length (heap s) <= grid)%nat
  else displayed (snd run) = displayed s.
Proof.
  cbn zeta.
  set (c := mkCall prompt image steps n strength guidance NEGATIVE_PROMPT).
  set (calls := pipeline_calls s ++ [c]).
  destruct (generate_images lanczos pipeline_model prompt image steps n
              strength guidance size show s) as [r s'] eqn:Erun.
  cbn [fst snd]. revert Erun.
  unfold generate_images. fold c. unfold bind at 1. unfold pipeline. fold calls.
  destruct (pipeline_model c (heap s)) as [imgs|e].
  2:{ intros [= <- <-]. cbn [heap pipeline_calls displayed is_ok].
      rewrite andb_false_r.
      split; [exists []; rewrite app_nil_r; reflexivity|]. split; reflexivity. }
  set (s1 := mkState (heap s ++ imgs) calls (displayed s)).
  set (images := seq (length (heap s)) (length imgs)).
  assert (exists new, heap s1 = heap s ++ new) as H1 by (exists imgs; reflexivity).
  unfold bind at 1.
  pose proof (resize_loop_keeps lanczos (heap s) images size (range n) [] s1 H1)
    as (Hh2 & Hc2 & Hd2).
  destruct (resize_loop lanczos (range n) images size [] s1) as [[refs|e] s2];
    cbn [snd] in Hh2, Hc2, Hd2.
  2:{ intros [= <- <-]. cbn [is_ok]. rewrite andb_false_r.
      split; [exact Hh2|]. split; [exact Hc2|exact Hd2]. }
  destruct show; cbn [andb].
  - unfold bind at 1. unfold bind at 1.
    pose proof (make_image_grid_keeps refs 1 n s2) as (Hh3 & Hc3 & Hd3).
    assert (forall g s3, make_image_grid refs 1 n s2 = (Ok g, s3) ->
              (length (heap s2) <= g)%nat) as Hfresh.
    { unfold make_image_grid.
      destruct (negb (Z.of_nat (length refs) =? 1 * n)); [discriminate|].
      unfold bind at 1. unfold list_index.
      destruct (refs !! 0%nat) as [first|]; [|discriminate]. cbn [ret].
      unfold bind at 1. unfold deref.
      destruct (heap s2 !! first) as [im0|]; [|discriminate].
      unfold bind at 1. unfold Image_new.
      destruct ((n * width im0 <? 0) || (1 * height im0 <? 0)); [discriminate|].
      unfold alloc. unfold bind at 1.
      destruct (paste_loop _ _ _ _ _ _) as [[u|e] s4]; [|discriminate].
      cbn [ret]. intros g s3 [= <- _]. reflexivity. }
    destruct (make_image_grid refs 1 n s2) as [[g|e] s3] eqn:Eg;
      cbn [snd] in Hh3, Hc3, Hd3.
    + unfold display, ret. intros [= <- <-]. cbn [heap pipeline_calls displayed is_ok].
      destruct Hh3 as (new3 & Hh3). destruct Hh2 as (new2 & Hh2).
      split; [exists (new2 ++ new3); rewrite Hh3, Hh2, app_assoc; reflexivity|].
      split; [rewrite Hc3, Hc2; reflexivity|].
      exists g. split; [rewrite Hd3, Hd2; reflexivity|].
      specialize (Hfresh g s3 eq_refl). rewrite Hh2, length_app in Hfresh. lia.
    + intros [= <- <-]. cbn [is_ok].
      destruct Hh3 as (new3 & Hh3). destruct Hh2 as (new2 & Hh2).
      split; [exists (new2 ++ new3); rewrite Hh3, Hh2, app_assoc; reflexivity|].
      split; [rewrite Hc3, Hc2; reflexivity|]. rewrite Hd3, Hd2. reflexivity.
  - unfold bind at 1. unfold ret at 1. unfold ret. intros [= <- <-].
    split; [exact Hh2|]. split; [exact Hc2|exact Hd2].
Qed.

(** Whatever [generate_images] does, it changes no image the store held
    before the call, the seed image among them; it records exactly one
    pipeline call, the one its arguments describe; and it displays one
    grid, a new object, when [show] is set and the call returns, and
    nothing otherwise. *)
Theorem generate_images_frame lanczos pipeline_model
    prompt image steps n strength guidance size show s :
  let run := generate_images lanczos pipeline_model prompt image steps n
               strength guidance size show s in
  (forall r im, heap s !! r = Some im -> heap (snd run) !! r = Some im) /\
  pipeline_calls (snd run) =
    pipeline_calls s ++
      [mkCall prompt image steps n strength guidance NEGATIVE_PROMPT] /\
  if show && is_ok (fst run)
  then exists grid, displayed (snd run) = displayed s ++ [grid] /\
                    (length (heap s) <= grid)%nat
  else displayed (snd run) = displayed s.
Proof.
  cbn zeta.
  destruct (generate_images_effects lanczos pipeline_model prompt image steps n
              strength guidance size show s) as ((new & Hnew) & Hc & Hd).
  split; [|split; assumption].
  intros r im Hr. rewrite Hnew. apply lookup_app_l_Some. exact Hr.
Qed.

(** * Runs of [generate_images] *)

Lemma resize_loop_app lanczos images size l2 : forall l1 acc s,
  resize_loop lanczos (l1 ++ l2) images size acc s =
    bind (resize_loop lanczos l1 images size acc)
         (fun acc' => resize_loop lanczos l2 images size acc') s.
Proof.
  induction l1 as [|i l1 IH]; intros acc s.
  - reflexivity.
  - cbn [app resize_loop]. unfold bind.
    destruct (list_index images i s) as [[im|e] s1]; [|reflexivity].
    destruct (resize_and_pad lanczos im size s1) as [[padded|e] s2]; [|reflexivity].
    rewrite IH. reflexivity.
Qed.

Lemma resize_and_pad_rejects lanczos s image img T e :
  heap s !! image = Some img -> normalized lanczos img T = Raise e ->
  fst (resize_and_pad lanczos image T s) = Raise e.
Proof.
  intros Himg Hn. rewrite (resize_and_pad_run lanczos s image img T Himg).
  unfold normalized in Hn.
  destruct (scaled_size (width img) (height img) T) as [[nw nh]|e1];
    [|injection Hn as ->; reflexivity].
  destruct (resized_image lanczos img nw nh) as [rz|e1];
    [|injection Hn as ->; reflexivity].
  destruct (T <? 0); [injection Hn as <-; reflexivity|discriminate].
Qed.

Lemma pipeline_run pipeline_model c s imgs :
  pipeline_model c (heap s) = Ok imgs ->
  pipeline pipeline_model c s =
    (Ok (seq (length (heap s)) (length imgs)),
     mkState (heap s ++ imgs) (pipeline_calls s ++ [c]) (displayed s)).
Proof. intros H. unfold pipeline. rewrite H. reflexivity. Qed.

Lemma lookup_outputs (h imgs : list Image) i :
  (h ++ imgs) !! (length h + i)%nat = imgs !! i.
Proof.
  rewrite lookup_app_r by lia. f_equal. lia.
Qed.

(** The first [m] outputs go through the loop when [resize_and_pad]
    accepts each of them. *)
Lemma resize_loop_outputs lanczos (h imgs : list Image) calls shown size m :
  (m <= length imgs)%nat ->
  Forall (fun img => is_ok (normalized lanczos img size) = true) (take m imgs) ->
  exists news refs,
    resize_loop lanczos (seq 0 m) (seq (length h) (length imgs)) size []
                (mkState (h ++ imgs) calls shown) =
      (Ok refs, mkState ((h ++ imgs) ++ news) calls shown) /\
    length refs = m /\
    Forall (fun r => (r < length ((h ++ imgs) ++ news))%nat) refs /\
    forall i img, (i < m)%nat -> imgs !! i = Some img ->
      exists r rz out,
        refs !! i = Some r /\ normalized lanczos img size = Ok (rz, out) /\
        ((h ++ imgs) ++ news) !! r = Some out /\
        width out = size /\ height out = size /\ 0 <= size.
Proof.
  intros Hm Hall.
  set (s1 := mkState (h ++ imgs) calls shown).
  destruct (resize_loop_run lanczos (seq (length h) (length imgs)) size m 0%nat [] s1)
    as (news & refs & Eloop & Hlen & Hrefs).
  { intros j Hj. destruct (lookup_lt_is_Some_2 imgs j ltac:(lia)) as [img Himg].
    exists (length h + j)%nat, img.
    split; [apply lookup_seq; split; [reflexivity|lia]|].
    split; [unfold s1; cbn [heap]; rewrite lookup_outputs; exact Himg|].
    rewrite Forall_forall in Hall. apply Hall.
    apply (list_elem_of_lookup_2 _ j). rewrite lookup_take_lt by exact Hj. exact Himg. }
  exists news, refs. cbn [app] in Eloop. split; [exact Eloop|]. split; [exact Hlen|].
  cbn [heap s1] in Hrefs. split.
  - apply Forall_forall. intros r Hin. apply list_elem_of_lookup_1 in Hin.
    destruct Hin as [j Hj]. pose proof (lookup_lt_Some _ _ _ Hj) as Hjlt.
    rewrite Hlen in Hjlt.
    destruct (Hrefs j Hjlt) as (_ & _ & r' & _ & out & _ & _ & C & _ & E & _).
    assert (r' = r) as -> by congruence.
    apply lookup_lt_Some in E. exact E.
  - intros i img Hi Himg.
    destruct (Hrefs i Hi) as (r & img' & r' & rz & out & A & B & C & D & E & F).
    rewrite Nat.add_0_l in A. apply lookup_seq in A. destruct A as [-> _].
    rewrite lookup_outputs in B.
    assert (img' = img) as -> by congruence.
    destruct (normalized_size _ _ _ _ _ D) as (Hw & Hh & HT).
    exists r', rz, out. repeat split; assumption.
Qed.

Lemma generate_images_ok lanczos pipeline_model
    prompt image steps n strength guidance size show s imgs :
  pipeline_model (mkCall prompt image steps n strength guidance NEGATIVE_PROMPT)
                 (heap s) = Ok imgs ->
  (Z.to_nat n <= length imgs)%nat ->
  Forall (fun img => is_ok (normalized lanczos img size) = true)
         (take (Z.to_nat n) imgs) ->
  (show = true -> 1 <= n) ->
  exists s' images_resized,
    generate_images lanczos pipeline_model prompt image steps n strength
                    guidance size show s =
      (Ok (seq (length (heap s)) (length imgs)), s') /\
    (exists new, heap s' = (heap s ++ imgs) ++ new) /\
    pipeline_calls s' =
      pipeline_calls s ++
        [mkCall prompt image steps n strength guidance NEGATIVE_PROMPT] /\
    length images_resized = Z.to_nat n /\
    (forall i img, (i < Z.to_nat n)%nat -> imgs !! i = Some img ->
       exists r rz out,
         images_resized !! i = Some r /\
         normalized lanczos img size = Ok (rz, out) /\
         heap s' !! r = Some out /\ width out = size /\ height out = size) /\
    (show = false -> displayed s' = displayed s) /\
    (show = true -> exists grid g,
       displayed s' = displayed s ++ [grid] /\ heap s' !! grid = Some g /\
       width g = n * size /\ height g = size).
Proof.
  intros Hpipe Hn Hall Hshow.
  set (c := mkCall prompt image steps n strength guidance NEGATIVE_PROMPT) in *.
  unfold generate_images. fold c.
  rewrite (bind_run _ _ _ _ _ (pipeline_run pipeline_model c s imgs Hpipe)).
  destruct (resize_loop_outputs lanczos (heap s) imgs (pipeline_calls s ++ [c])
              (displayed s) size (Z.to_nat n) Hn Hall)
    as (news & refs & Eloop & Hlen & Hin & Hnorm).
  unfold range. rewrite (bind_run _ _ _ _ _ Eloop).
  set (s2 := mkState ((heap s ++ imgs) ++ news) (pipeline_calls s ++ [c]) (displayed s))
    in *.
  destruct show.
  - specialize (Hshow eq_refl).
    destruct (lookup_lt_is_Some_2 imgs 0%nat ltac:(lia)) as [img0 H0].
    destruct (Hnorm 0%nat img0 ltac:(lia) H0)
      as (first & rz0 & out0 & Hf & _ & Hout0 & Hw0 & Hh0 & HT).
    destruct (make_image_grid_run s2 refs first size Hf Hin) as (g & Egrid & Hgw & Hgh).
    { exists out0. repeat split; assumption. }
    { exact HT. }
    rewrite Hlen, Z2Nat.id in Egrid, Hgw by lia. cbv iota.
    rewrite (bind_run _ _ _ _ _ (bind_run _ _ _ _ _ Egrid)).
    unfold display, ret. cbn [with_heap heap pipeline_calls displayed s2].
    eexists _, refs. split; [reflexivity|]. cbn [heap pipeline_calls displayed].
    split; [exists (news ++ [g]); rewrite !app_assoc; reflexivity|].
    split; [reflexivity|]. split; [exact Hlen|]. split.
    { intros i img Hi Himg.
      destruct (Hnorm i img Hi Himg) as (r & rz & out & A & B & C & D & E & _).
      exists r, rz, out. repeat split; try assumption.
      apply lookup_app_l_Some. exact C. }
    split; [discriminate|]. intros _.
    exists (length ((heap s ++ imgs) ++ news)), g. split; [reflexivity|].
    split; [apply list_lookup_middle; reflexivity|]. split; assumption.
  - cbv iota. rewrite (bind_run _ _ _ _ _ (eq_refl : ret tt s2 = (Ok tt, s2))). cbn [ret].
    exists s2, refs. split; [reflexivity|].
    split; [exists news; reflexivity|].
    split; [reflexivity|]. split; [exact Hlen|]. split.
    { intros i img Hi Himg.
      destruct (Hnorm i img Hi Himg) as (r & rz & out & A & B & C & D & E & _).
      exists r, rz, out. repeat split; assumption. }
    split; [reflexivity|discriminate].
Qed.

(** The loop stops at the first output it cannot normalise: a missing
    one is an [IndexError], a rejected one the exception of
    [resize_and_pad]. *)
Lemma generate_images_stops lanczos pipeline_model
    prompt image steps n strength guidance size show s imgs j e :
  pipeline_model (mkCall prompt image steps n strength guidance NEGATIVE_PROMPT)
                 (heap s) = Ok imgs ->
  (j < Z.to_nat n)%nat -> (j <= length imgs)%nat ->
  Forall (fun img => is_ok (normalized lanczos img size) = true) (take j imgs) ->
  match imgs !! j with
  | Some img => normalized lanczos img size = Raise e
  | None => e = IndexError
  end ->
  exists s',
    generate_images lanczos pipeline_model prompt image steps n strength
                    guidance size show s = (Raise e, s') /\
    displayed s' = displayed s /\
    pipeline_calls s' =
      pipeline_calls s ++
        [mkCall prompt image steps n strength guidance NEGATIVE_PROMPT] /\
    forall i img, imgs !! i = Some img ->
      heap s' !! (length (heap s) + i)%nat = Some img.
Proof.
  intros Hpipe Hj Hjlen Hall Hbad.
  set (c := mkCall prompt image steps n strength guidance NEGATIVE_PROMPT) in *.
  unfold generate_images. fold c.
  rewrite (bind_run _ _ _ _ _ (pipeline_run pipeline_model c s imgs Hpipe)).
  destruct (resize_loop_outputs lanczos (heap s) imgs (pipeline_calls s ++ [c])
              (displayed s) size j Hjlen Hall)
    as (news & refs & Eloop & Hlen & Hin & Hnorm).
  set (s2 := mkState ((heap s ++ imgs) ++ news) (pipeline_calls s ++ [c]) (displayed s))
    in *.
  set (images := seq (length (heap s)) (length imgs)) in *.
  assert (range n = seq 0 j ++ j :: seq (S j) (Z.to_nat n - S j)) as Er.
  { unfold range. replace (Z.to_nat n) with (j + S (Z.to_nat n - S j))%nat at 1 by lia.
    rewrite seq_app. reflexivity. }
  assert (forall i img, imgs !! i = Some img ->
            heap s2 !! (length (heap s) + i)%nat = Some img) as Hraw.
  { intros i img Himg. unfold s2. cbn [heap]. apply lookup_app_l_Some.
    rewrite lookup_outputs. exact Himg. }
  assert (exists s3, resize_loop lanczos (range n) images size []
                       (mkState (heap s ++ imgs) (pipeline_calls s ++ [c]) (displayed s))
                     = (Raise e, s3) /\ keeps (heap s2) s2 s3) as (s3 & E3 & Hk).
  { rewrite Er, resize_loop_app. rewrite (bind_run _ _ _ _ _ Eloop).
    cbn [resize_loop]. unfold bind at 1. unfold list_index.
    destruct (imgs !! j) as [img|] eqn:Himg.
    - assert (images !! j = Some (length (heap s) + j)%nat) as ->.
      { apply lookup_seq. split; [reflexivity|]. apply lookup_lt_Some in Himg. exact Himg. }
      cbn [ret]. unfold bind at 1.
      pose proof (resize_and_pad_rejects lanczos s2 _ img size e (Hraw j img Himg) Hbad)
        as Hfst.
      pose proof (resize_and_pad_keeps lanczos (heap s2) s2 (length (heap s) + j)%nat size)
        as Hkeep.
      destruct (resize_and_pad lanczos _ size s2) as [[r|e1] s3]; cbn [fst snd] in *;
        [discriminate|].
      injection Hfst as ->. exists s3. split; [reflexivity|]. apply Hkeep.
      exists []. rewrite app_nil_r. reflexivity.
    - assert (images !! j = None) as ->.
      { apply lookup_ge_None. unfold images. rewrite length_seq.
        apply lookup_ge_None in Himg. exact Himg. }
      subst e. exists s2. split; [reflexivity|]. apply keeps_refl.
      exists []. rewrite app_nil_r. reflexivity. }
  rewrite (bind_raise _ _ _ _ _ E3). exists s3. split; [reflexivity|].
  destruct Hk as (Hh & Hc & Hd).
  split; [rewrite Hd; reflexivity|]. split; [rewrite Hc; reflexivity|].
  intros i img Himg. destruct Hh as (new & ->). apply lookup_app_l_Some.
  apply Hraw. exact Himg.
Qed.

(** When the pipeline returns fewer than [n] images, [generate_images]
    raises the [IndexError] of [images[i]] after normalising those it
    got: nothing is displayed and nothing is returned. *)
Theorem generate_images_too_few_outputs lanczos pipeline_model
    prompt image steps n strength guidance size show s imgs :
  pipeline_model (mkCall prompt image steps n strength guidance NEGATIVE_PROMPT)
                 (heap s) = Ok imgs ->
  Z.of_nat (length imgs) < n ->
  Forall (fun img => is_ok (normalized lanczos img size) = true) imgs ->
  exists s',
    generate_images lanczos pipeline_model prompt image steps n strength
                    guidance size show s = (Raise IndexError, s') /\
    displayed s' = displayed s /\
    pipeline_calls s' =
      pipeline_calls s ++
        [mkCall prompt image steps n strength guidance NEGATIVE_PROMPT].
Proof.
  intros Hpipe Hn Hall.
  destruct (generate_images_stops lanczos pipeline_model prompt image steps n
              strength guidance size show s imgs (length imgs) IndexError Hpipe)
    as (s' & Erun & Hd & Hc & _).
  - lia.
  - lia.
  - rewrite firstn_all. exact Hall.
  - rewrite (proj2 (lookup_ge_None imgs (length imgs))) by lia. reflexivity.
  - exists s'. split; [exact Erun|]. split; assumption.
Qed.

Lemma generate_images_too_few_outputs_witness :
  exists s',
    generate_images nearest single_pipeline "studio ghibli" 0%nat 30 2
      (PyFloatLit one) (PyInt 10) 8 true (store_with (mkImage 4 4 gradient))
      = (Raise IndexError, s') /\
    displayed s' = displayed (store_with (mkImage 4 4 gradient)) /\
    pipeline_calls s' =
      pipeline_calls (store_with (mkImage 4 4 gradient)) ++
      [mkCall "studio ghibli" 0%nat 30 2 (PyFloatLit one) (PyInt 10)
         NEGATIVE_PROMPT].
Proof.
  apply (generate_images_too_few_outputs nearest single_pipeline "studio ghibli"
           0%nat 30 2 (PyFloatLit one) (PyInt 10) 8 true
           (store_with (mkImage 4 4 gradient)) [mkImage 4 4 gradient]).
  - reflexivity.
  - cbn. lia.
  - repeat constructor.
Defined.

(** When [resize_and_pad] rejects one of the first [n] outputs,
    [generate_images] raises its exception at the first such output:
    nothing is displayed and nothing is returned, and the raw outputs
    stay in the store. *)
Theorem generate_images_rejected_output lanczos pipeline_model
    prompt image steps n strength guidance size show s imgs j img e :
  pipeline_model (mkCall prompt image steps n strength guidance NEGATIVE_PROMPT)
                 (heap s) = Ok imgs ->
  imgs !! j = Some img -> Z.of_nat j < n ->
  Forall (fun img => is_ok (normalized lanczos img size) = true) (take j imgs) ->
  normalized lanczos img size = Raise e ->
  exists s',
    generate_images lanczos pipeline_model prompt image steps n strength
                    guidance size show s = (Raise e, s') /\
    displayed s' = displayed s /\
    pipeline_calls s' =
      pipeline_calls s ++
        [mkCall prompt image steps n strength guidance NEGATIVE_PROMPT] /\
    forall i img, imgs !! i = Some img ->
      heap s' !! (length (heap s) + i)%nat = Some img.
Proof.
  intros Hpipe Himg Hj Hall Hbad.
  apply (generate_images_stops lanczos pipeline_model prompt image steps n
           strength guidance size show s imgs j e Hpipe).
  - lia.
  - apply lookup_lt_Some in Himg. lia.
  - exact Hall.
  - rewrite Himg. exact Hbad.
Qed.

Lemma generate_images_rejected_output_witness :
  exists s',
    generate_images nearest thin_pipeline "studio ghibli" 0%nat 30 1
      (PyFloatLit one) (PyInt 10) 2 true (store_with (mkImage 4 4 gradient))
      = (Raise ValueError, s') /\
    displayed s' = displayed (store_with (mkImage 4 4 gradient)) /\
    pipeline_calls s' =
      pipeline_calls (store_with (mkImage 4 4 gradient)) ++
      [mkCall "studio ghibli" 0%nat 30 1 (PyFloatLit one) (PyInt 10)
         NEGATIVE_PROMPT] /\
    forall i img, [mkImage 3 1 gradient] !! i = Some img ->
      heap s' !! (length (heap (store_with (mkImage 4 4 gradient))) + i)%nat
        = Some img.
Proof.
  apply (generate_images_rejected_output nearest thin_pipeline "studio ghibli"
           0%nat 30 1 (PyFloatLit one) (PyInt 10) 2 true
           (store_with (mkImage 4 4 gradient)) [mkImage 3 1 gradient]
           0%nat (mkImage 3 1 gradient) ValueError).
  - reflexivity.
  - reflexivity.
  - lia.
  - constructor.
  - reflexivity.
Defined.

(** [generate_images] returns every image the pipeline produced, each
    unchanged and in the pipeline's order, also when there are more than
    [n] of them; only the first [n] are normalised. *)
Theorem generate_images_returns_every_output lanczos pipeline_model
    prompt image steps n strength guidance size show s imgs :
  pipeline_model (mkCall prompt image steps n strength guidance NEGATIVE_PROMPT)
                 (heap s) = Ok imgs ->
  n <= Z.of_nat (length imgs) ->
  Forall (fun img => is_ok (normalized lanczos img size) = true)
         (take (Z.to_nat n) imgs) ->
  (show = true -> 1 <= n) ->
  exists s' images_resized,
    generate_images lanczos pipeline_model prompt image steps n strength
                    guidance size show s =
      (Ok (seq (length (heap s)) (length imgs)), s') /\
    (forall i img, imgs !! i = Some img ->
       heap s' !! (length (heap s) + i)%nat = Some img) /\
    length images_resized = Z.to_nat n /\
    (forall i img, (i < Z.to_nat n)%nat -> imgs !! i = Some img ->
       exists r rz out,
         images_resized !! i = Some r /\
         normalized lanczos img size = Ok (rz, out) /\
         heap s' !! r = Some out /\ width out = size /\ height out = size).
Proof.
  intros Hpipe Hn Hall Hshow.
  destruct (generate_images_ok lanczos pipeline_model prompt image steps n
              strength guidance size show s imgs Hpipe ltac:(lia) Hall Hshow)
    as (s' & refs & Erun & (new & Hheap) & _ & Hlen & Hnorm & _).
  exists s', refs. split; [exact Erun|]. split; [|split; assumption].
  intros i img Himg. rewrite Hheap. apply lookup_app_l_Some.
  rewrite lookup_outputs. exact Himg.
Qed.

Lemma generate_images_returns_every_output_witness :
  exists s' (images_resized : list nat),
    generate_images nearest triple_pipeline "studio ghibli" 0%nat 30 2
      (PyFloatLit one) (PyInt 10) 8 true (store_with (mkImage 4 4 gradient)) =
      (Ok [1%nat; 2%nat; 3%nat], s') /\
    length images_resized = 2%nat.
Proof.
  destruct (generate_images_returns_every_output nearest triple_pipeline
              "studio ghibli" 0%nat 30 2 (PyFloatLit one) (PyInt 10) 8 true
              (store_with (mkImage 4 4 gradient))
              [mkImage 4 4 gradient; mkImage 4 4 gradient; mkImage 4 4 gradient])
    as (s' & refs & Hrun & _ & Hlen & _).
  - reflexivity.
  - cbn. lia.
  - repeat constructor.
  - lia.
  - exists s', refs. split; [exact Hrun|exact Hlen].
Defined.

(** With [n <= 0] the loop runs no step.  With [show] set the grid of no
    image cannot be built and [generate_images] raises, [IndexError] for
    [n = 0] and [AssertionError] for a negative [n], although the pipeline
    returned; with [show] unset it returns the pipeline's output. *)
Theorem generate_images_without_images lanczos pipeline_model
    prompt image steps n strength guidance size s imgs :
  pipeline_model (mkCall prompt image steps n strength guidance NEGATIVE_PROMPT)
                 (heap s) = Ok imgs ->
  n <= 0 ->
  let s' := mkState (heap s ++ imgs)
              (pipeline_calls s ++
                 [mkCall prompt image steps n strength guidance NEGATIVE_PROMPT])
              (displayed s) in
  generate_images lanczos pipeline_model prompt image steps n strength
                  guidance size true s =
    (Raise (if n =? 0 then IndexError else AssertionError), s') /\
  generate_images lanczos pipeline_model prompt image steps n strength
                  guidance size false s =
    (Ok (seq (length (heap s)) (length imgs)), s').
Proof.
  intros Hpipe Hn. cbn zeta.
  set (c := mkCall prompt image steps n strength guidance NEGATIVE_PROMPT) in *.
  unfold generate_images. fold c.
  rewrite !(bind_run _ _ _ _ _ (pipeline_run pipeline_model c s imgs Hpipe)).
  unfold range. replace (Z.to_nat n) with 0%nat by lia.
  cbn [seq resize_loop]. split.
  - unfold bind, ret, make_image_grid. cbn [length]. change (Z.of_nat 0) with 0.
    destruct (Z.eqb_spec n 0) as [->|Hne].
    + reflexivity.
    + rewrite (proj2 (Z.eqb_neq 0 (1 * n))) by lia. reflexivity.
  - reflexivity.
Qed.

Lemma generate_images_without_images_witness :
  generate_images nearest square_pipeline "studio ghibli" 0%nat 30 0
    (PyFloatLit one) (PyInt 10) 8 true (store_with (mkImage 4 4 gradient)) =
    (Raise IndexError,
     mkState [mkImage 4 4 gradient]
       [mkCall "studio ghibli" 0%nat 30 0 (PyFloatLit one) (PyInt 10)
          NEGATIVE_PROMPT] []).
Proof.
  apply (generate_images_without_images nearest square_pipeline "studio ghibli"
           0%nat 30 0 (PyFloatLit one) (PyInt 10) 8
           (store_with (mkImage 4 4 gradient)) []).
  - reflexivity.
  - lia.
Defined.

(** * The grid of the normalised images *)

Lemma paste_loop_value (h : list Image) cols w hh : forall items g s,
  heap s = h ++ [g] ->
  Forall (fun item => (snd item < length h)%nat) items ->
  paste_loop (length h) items cols w hh s =
    (Ok tt, with_heap s (h ++ [pasted_all h items cols w hh g])).
Proof.
  induction items as [|[i r] items IH]; intros g s Hs Hall.
  - cbn [paste_loop ret pasted_all]. rewrite <- Hs. destruct s; reflexivity.
  - apply Forall_cons in Hall. destruct Hall as [Hr Hall]. cbn [snd] in Hr.
    destruct (lookup_lt_is_Some_2 h r Hr) as [im Him].
    assert (heap s !! length h = Some g) as Hg
      by (rewrite Hs; apply list_lookup_middle; reflexivity).
    assert (heap s !! r = Some im) as Hi
      by (rewrite Hs; apply lookup_app_l_Some; exact Him).
    cbn [paste_loop pasted_all]. rewrite Him.
    rewrite (bind_run _ _ _ _ _ (Image_paste_run s _ _ g im _ _ Hg Hi)).
    set (g1 := pasted g im _ _).
    assert (<[length h := g1]> (heap s) = h ++ [g1]) as Eh.
    { rewrite Hs. replace (length h) with (length h + 0)%nat by lia.
      rewrite insert_app_r. reflexivity. }
    rewrite Eh. apply (IH g1 (with_heap s (h ++ [g1])) eq_refl Hall).
Qed.

Lemma pasted_all_size h cols w hh : forall items g,
  width (pasted_all h items cols w hh g) = width g /\
  height (pasted_all h items cols w hh g) = height g.
Proof.
  induction items as [|[i r] items IH]; intros g; cbn [pasted_all].
  - split; reflexivity.
  - destruct (h !! r) as [im|]; [|split; reflexivity].
    destruct (IH (pasted g im (Z.of_nat i mod cols * w) (Z.of_nat i / cols * hh)))
      as [Hw Hh].
    rewrite Hw, Hh. split; reflexivity.
Qed.

(** One row of square tiles: tile [j] carries image [j], and a pixel
    outside the tiles is the grid's own. *)
Lemma pasted_all_tiles (h : list Image) T cols :
  0 < T -> forall refs k g,
  Z.of_nat (k + length refs) <= cols ->
  Forall (fun r => exists im, h !! r = Some im /\ width im = T /\ height im = T) refs ->
  (forall j r im x y,
     refs !! j = Some r -> h !! r = Some im -> 0 <= x < T -> 0 <= y < T ->
     getpixel (pasted_all h (zip (seq k (length refs)) refs) cols T T g)
              (Z.of_nat (k + j) * T + x) y = getpixel im x y) /\
  (forall x y,
     ~ (Z.of_nat k * T <= x < Z.of_nat (k + length refs) * T /\ 0 <= y < T) ->
     getpixel (pasted_all h (zip (seq k (length refs)) refs) cols T T g) x y
       = getpixel g x y).
Proof.
  intros HT. induction refs as [|r refs IH]; intros k g Hk Hall.
  - split; [intros j r im x y Hj; discriminate|]. intros x y _. reflexivity.
  - apply Forall_cons in Hall. destruct Hall as [(im0 & Him0 & Hw0 & Hh0) Hall].
    cbn [length] in Hk. cbn [length seq zip zip_with pasted_all]. rewrite Him0.
    rewrite Z.mod_small, Z.div_small by lia. rewrite Z.mul_0_l.
    set (g1 := pasted g im0 (Z.of_nat k * T) 0).
    destruct (IH (S k) g1 ltac:(lia) Hall) as [IH1 IH2].
    split.
    + intros [|j] r' im x y Hj Him Hx Hy.
      * cbn in Hj. injection Hj as <-.
        assert (im = im0) as -> by congruence.
        rewrite IH2.
        2:{ intros [Hc _]. rewrite Nat.add_0_r in Hc. nia. }
        unfold g1, pasted. cbn [getpixel]. rewrite Hw0, Hh0.
        rewrite (proj2 (in_box_iff _ _ T T _ _)) by (rewrite Nat.add_0_r; lia).
        f_equal; rewrite ?Nat.add_0_r; lia.
      * cbn in Hj. replace (k + S j)%nat with (S k + j)%nat by lia.
        apply (IH1 j r' im x y Hj Him Hx Hy).
    + intros x y Hout. rewrite IH2.
      2:{ intros [Hc Hy]. apply Hout. split; [|exact Hy].
          replace (k + S (length refs))%nat with (S k + length refs)%nat by lia.
          nia. }
      unfold g1, pasted. cbn [getpixel]. rewrite Hw0, Hh0.
      destruct (in_box (Z.of_nat k * T) 0 T T x y) eqn:Ebox; [|reflexivity].
      exfalso. apply in_box_iff in Ebox. apply Hout. split; [|lia]. nia.
Qed.

(** The run of [make_image_grid] on one row of square images. *)
Lemma make_image_grid_row s refs T :
  0 < T -> (0 < length refs)%nat ->
  Forall (fun r => exists im, heap s !! r = Some im /\ width im = T /\ height im = T)
         refs ->
  exists g,
    make_image_grid refs 1 (Z.of_nat (length refs)) s =
      (Ok (length (heap s)), with_heap s (heap s ++ [g])) /\
    width g = Z.of_nat (length refs) * T /\ height g = T /\
    forall j r im x y,
      refs !! j = Some r -> heap s !! r = Some im -> 0 <= x < T -> 0 <= y < T ->
      getpixel g (Z.of_nat j * T + x) y = getpixel im x y.
Proof.
  intros HT Hlen Hall. unfold make_image_grid.
  replace (1 * Z.of_nat (length refs)) with (Z.of_nat (length refs)) by lia.
  rewrite Z.eqb_refl. cbn [negb].
  destruct refs as [|first rest] eqn:Erefs; [cbn in Hlen; lia|]. rewrite <- Erefs in *.
  assert (refs !! 0%nat = Some first) as Hfirst by (rewrite Erefs; reflexivity).
  pose proof Hall as Hall'. rewrite Forall_forall in Hall'.
  destruct (Hall' first (list_elem_of_lookup_2 _ _ _ Hfirst)) as (im & Him & Hw & Hh).
  unfold list_index. rewrite Hfirst.
  rewrite (bind_run _ _ _ _ _ (eq_refl : ret first s = (Ok first, s))).
  rewrite (bind_run _ _ _ _ _ (deref_run s first im Him)).
  unfold Image_new. rewrite Hw, Hh.
  rewrite (proj2 (Z.ltb_ge (Z.of_nat (length refs) * T) 0)) by nia.
  rewrite (proj2 (Z.ltb_ge (1 * T) 0)) by lia. cbn [orb].
  unfold bind at 1. unfold alloc.
  set (g0 := mkImage _ _ _).
  rewrite (bind_run _ _ _ _ _
             (paste_loop_value (heap s) (Z.of_nat (length refs)) T T
                (zip (seq 0 (length refs)) refs) g0
                (with_heap s (heap s ++ [g0])) eq_refl
                ltac:(apply Forall_forall; intros [i r] Hin; cbn [snd];
                      apply elem_of_zip_r in Hin; cbn [snd] in Hin;
                      destruct (Hall' r Hin) as (im' & Him' & _);
                      apply lookup_lt_Some in Him'; exact Him'))).
  cbn [ret with_heap heap pipeline_calls displayed].
  eexists. split; [reflexivity|].
  destruct (pasted_all_size (heap s) (Z.of_nat (length refs)) T T
              (zip (seq 0 (length refs)) refs) g0) as [Hgw Hgh].
  rewrite Hgw, Hgh. unfold g0 at 1 2. cbn [width height].
  split; [reflexivity|]. split; [lia|].
  destruct (pasted_all_tiles (heap s) T (Z.of_nat (length refs)) HT refs 0%nat g0
              ltac:(lia) Hall) as [Htiles _].
  intros j r im' x y Hj Him' Hx Hy.
  apply (Htiles j r im' x y Hj Him' Hx Hy).
Qed.

(** The grid [generate_images] displays is one row of the normalised
    outputs, left to right in the pipeline's order: tile [i], [size]
    wide, is the normalised copy of output [i]. *)
Theorem generate_images_grid_shows_outputs lanczos pipeline_model
    prompt image steps n strength guidance size s imgs :
  pipeline_model (mkCall prompt image steps n strength guidance NEGATIVE_PROMPT)
                 (heap s) = Ok imgs ->
  Z.of_nat (length imgs) = n -> 1 <= n -> 0 < size ->
  Forall (fun img => is_ok (normalized lanczos img size) = true) imgs ->
  exists s' grid g,
    generate_images lanczos pipeline_model prompt image steps n strength
                    guidance size true s =
      (Ok (seq (length (heap s)) (length imgs)), s') /\
    displayed s' = displayed s ++ [grid] /\
    heap s' !! grid = Some g /\
    width g = n * size /\ height g = size /\
    forall i img rz out x y,
      imgs !! i = Some img -> normalized lanczos img size = Ok (rz, out) ->
      0 <= x < size -> 0 <= y < size ->
      getpixel g (Z.of_nat i * size + x) y = getpixel out x y.
Proof.
  intros Hpipe Hn Hn1 Hpos Hall.
  set (c := mkCall prompt image steps n strength guidance NEGATIVE_PROMPT) in *.
  unfold generate_images. fold c.
  rewrite (bind_run _ _ _ _ _ (pipeline_run pipeline_model c s imgs Hpipe)).
  destruct (resize_loop_outputs lanczos (heap s) imgs (pipeline_calls s ++ [c])
              (displayed s) size (length imgs) (le_n _)
              ltac:(rewrite firstn_all; exact Hall))
    as (news & refs & Eloop & Hlen & Hin & Hnorm).
  unfold range. rewrite <- Hn, Nat2Z.id. rewrite (bind_run _ _ _ _ _ Eloop).
  set (s2 := mkState ((heap s ++ imgs) ++ news) (pipeline_calls s ++ [c]) (displayed s))
    in *.
  destruct (make_image_grid_row s2 refs size Hpos ltac:(lia))
    as (g & Egrid & Hgw & Hgh & Htiles).
  { apply Forall_forall. intros r Hr. apply list_elem_of_lookup_1 in Hr.
    destruct Hr as [j Hj]. pose proof (lookup_lt_Some _ _ _ Hj) as Hjlt.
    rewrite Hlen in Hjlt.
    destruct (lookup_lt_is_Some_2 imgs j Hjlt) as [img Himg].
    destruct (Hnorm j img Hjlt Himg) as (r' & rz & out & A & _ & C & D & E & _).
    assert (r' = r) as -> by congruence.
    exists out. repeat split; assumption. }
  rewrite Hlen in Egrid, Hgw. cbv iota.
  rewrite (bind_run _ _ _ _ _ (bind_run _ _ _ _ _ Egrid)).
  unfold display, ret. cbn [with_heap heap pipeline_calls displayed s2].
  eexists _, (length ((heap s ++ imgs) ++ news)), g.
  split; [reflexivity|]. cbn [heap displayed].
  split; [reflexivity|]. split; [apply list_lookup_middle; reflexivity|].
  split; [lia|]. split; [exact Hgh|].
  intros i img rz out x y Himg Hno Hx Hy.
  pose proof (lookup_lt_Some _ _ _ Himg) as Hi.
  destruct (Hnorm i img Hi Himg) as (r & rz' & out' & A & B & C & _).
  assert (out' = out) as -> by congruence.
  apply (Htiles i r out x y A C Hx Hy).
Qed.

Lemma generate_images_grid_shows_outputs_witness :
  exists s' grid g,
    generate_images nearest square_pipeline "studio ghibli" 0%nat 30 2
      (PyFloatLit one) (PyInt 10) 8 true (store_with (mkImage 4 4 gradient)) =
      (Ok [1%nat; 2%nat], s') /\
    displayed s' = [grid] /\ heap s' !! grid = Some g /\
    width g = 2 * 8 /\ height g = 8.
Proof.
  destruct (generate_images_grid_shows_outputs nearest square_pipeline
              "studio ghibli" 0%nat 30 2 (PyFloatLit one) (PyInt 10) 8
              (store_with (mkImage 4 4 gradient))
              [mkImage 4 4 gradient; mkImage 4 4 gradient])
    as (s' & grid & g & Hrun & Hd & Hg & Hw & Hh & _).
  - reflexivity.
  - reflexivity.
  - lia.
  - lia.
  - repeat constructor.
  - exists s', grid, g. repeat split; assumption.
Defined.

(** * The style sweep *)

Section SweepRuns.

Variable lanczos : resampler.
Variable pipeline_model : PipelineCall -> list Image -> result (list Image).

Lemma style_loop_step ps image kw a m s p :
  ps !! a = Some p ->
  style_loop lanczos pipeline_model (seq a (S m)) ps image kw s =
    match generate_images lanczos pipeline_model (String.append p STYLE_SUFFIX) image
            (kw_steps kw) (kw_n kw) (kw_strength kw) (kw_guidance kw)
            (kw_size kw) true s with
    | (Ok _, s1) => style_loop lanczos pipeline_model (seq (S a) m) ps image kw s1
    | (Raise e, s1) => (Raise e, s1)
    end.
Proof.
  intros Hp. cbn [seq style_loop]. unfold bind at 1. unfold list_index. rewrite Hp.
  cbn [ret]. unfold bind at 1. reflexivity.
Qed.

Lemma style_loop_app ps image kw l2 : forall l1 s,
  style_loop lanczos pipeline_model (l1 ++ l2) ps image kw s =
    bind (style_loop lanczos pipeline_model l1 ps image kw)
         (fun _ => style_loop lanczos pipeline_model l2 ps image kw) s.
Proof.
  induction l1 as [|i l1 IH]; intros s.
  - reflexivity.
  - cbn [app style_loop]. unfold bind.
    destruct (list_index ps i s) as [[p|e] s1]; [|reflexivity].
    destruct (generate_images _ _ _ _ _ _ _ _ _ _ s1) as [[imgs|e] s2]; [|reflexivity].
    rewrite IH. reflexivity.
Qed.

Lemma style_loop_effects ps image kw : forall m a s,
  (a + m <= length ps)%nat ->
  let run := style_loop lanczos pipeline_model (seq a m) ps image kw s in
  exists k grids,
    (k <= m)%nat /\
    (exists new, heap (snd run) = heap s ++ new) /\
    pipeline_calls (snd run) =
      pipeline_calls s ++ map (style_call image kw) (take k (drop a ps)) /\
    displayed (snd run) = displayed s ++ grids /\
    match fst run with
    | Ok _ => k = m /\ length grids = m
    | Raise _ => S (length grids) = k
    end.
Proof.
  induction m as [|m IH]; intros a s Ha; cbn zeta.
  - exists 0%nat, []. cbn [seq style_loop ret fst snd take map].
    rewrite !app_nil_r. split; [lia|]. split; [exists []; rewrite app_nil_r; reflexivity|].
    repeat split.
  - destruct (lookup_lt_is_Some_2 ps a ltac:(lia)) as [p Hp].
    rewrite (style_loop_step ps image kw a m s p Hp).
    rewrite (drop_S ps p a Hp).
    pose proof (generate_images_effects lanczos pipeline_model
                  (String.append p STYLE_SUFFIX) image (kw_steps kw) (kw_n kw)
                  (kw_strength kw) (kw_guidance kw) (kw_size kw) true s)
      as ((new1 & Hh1) & Hc1 & Hd1).
    cbn zeta in Hh1, Hc1, Hd1. fold (style_call image kw p) in Hc1.
    destruct (generate_images _ _ _ _ _ _ _ _ _ _ s) as [[imgs|e] s1];
      cbn [fst snd is_ok andb] in Hh1, Hc1, Hd1.
    + destruct Hd1 as (grid & Hd1 & _).
      destruct (IH (S a) s1 ltac:(lia)) as (k & grids & Hk & (new & Hh) & Hc & Hd & Hres).
      cbn zeta in Hh, Hc, Hd, Hres.
      exists (S k), (grid :: grids). split; [lia|].
      split; [exists (new1 ++ new); rewrite Hh, Hh1, app_assoc; reflexivity|].
      split; [rewrite Hc, Hc1; cbn [take map]; rewrite <- app_assoc; reflexivity|].
      split; [rewrite Hd, Hd1, <- app_assoc; reflexivity|].
      destruct (fst (style_loop _ _ _ _ _ _ s1)); cbn [length]; lia.
    + exists 1%nat, []. cbn [fst snd take map length]. rewrite app_nil_r.
      split; [lia|]. split; [exists new1; exact Hh1|].
      split; [exact Hc1|]. split; [exact Hd1|reflexivity].
Qed.

Lemma style_loop_ok ps image kw :
  1 <= kw_n kw -> forall m a s,
  (a + m <= length ps)%nat ->
  (forall i p, (a <= i < a + m)%nat -> ps !! i = Some p ->
     answers lanczos pipeline_model (style_call image kw p) (kw_size kw)) ->
  exists s' grids,
    style_loop lanczos pipeline_model (seq a m) ps image kw s = (Ok tt, s') /\
    (exists new, heap s' = heap s ++ new) /\
    pipeline_calls s' =
      pipeline_calls s ++ map (style_call image kw) (take m (drop a ps)) /\
    displayed s' = displayed s ++ grids /\ length grids = m /\
    Forall (fun grid => exists g, heap s' !! grid = Some g /\
                          width g = kw_n kw * kw_size kw /\ height g = kw_size kw)
           grids.
Proof.
  intros Hn. induction m as [|m IH]; intros a s Ha Hans.
  - exists s, []. cbn [seq style_loop ret take map]. rewrite !app_nil_r.
    split; [reflexivity|]. split; [exists []; rewrite app_nil_r; reflexivity|].
    repeat split. constructor.
  - destruct (lookup_lt_is_Some_2 ps a ltac:(lia)) as [p Hp].
    rewrite (style_loop_step ps image kw a m s p Hp).
    rewrite (drop_S ps p a Hp).
    destruct (Hans a p ltac:(lia) Hp (heap s)) as (imgs & Hpipe & Hlen & Hall).
    cbn [style_call num_images_per_prompt] in Hlen.
    destruct (generate_images_ok lanczos pipeline_model
                (String.append p STYLE_SUFFIX) image (kw_steps kw) (kw_n kw)
                (kw_strength kw) (kw_guidance kw) (kw_size kw) true s imgs Hpipe)
      as (s1 & refs & Erun & (new1 & Hh1) & Hc1 & _ & _ & _ & Hgrid).
    { lia. }
    { apply Forall_take. exact Hall. }
    { intros _. exact Hn. }
    destruct (Hgrid eq_refl) as (grid & g & Hd1 & Hg & Hgw & Hgh).
    rewrite Erun. fold (style_call image kw p) in Hc1.
    destruct (IH (S a) s1 ltac:(lia)) as (s' & grids & Eloop & (new & Hh) & Hc & Hd & Hl & Hgs).
    { intros i q Hi Hq. apply (Hans i q); [lia|exact Hq]. }
    exists s', (grid :: grids). split; [exact Eloop|].
    split; [exists ((imgs ++ new1) ++ new); rewrite Hh, Hh1, <- !app_assoc; reflexivity|].
    split; [rewrite Hc, Hc1; cbn [take map]; rewrite <- app_assoc; reflexivity|].
    split; [rewrite Hd, Hd1, <- app_assoc; reflexivity|].
    split; [cbn [length]; lia|].
    constructor; [|exact Hgs].
    exists g. split; [rewrite Hh; apply lookup_app_l_Some; exact Hg|]. split; assumption.
Qed.

Lemma generate_images_pipeline_raises prompt image steps n strength guidance size show s e :
  pipeline_model (mkCall prompt image steps n strength guidance NEGATIVE_PROMPT)
                 (heap s) = Raise e ->
  generate_images lanczos pipeline_model prompt image steps n strength guidance
                  size show s =
    (Raise e,
     mkState (heap s)
       (pipeline_calls s ++
          [mkCall prompt image steps n strength guidance NEGATIVE_PROMPT])
       (displayed s)).
Proof.
  intros H. unfold generate_images, bind, pipeline. rewrite H. reflexivity.
Qed.

End SweepRuns.

(** The sweep sends the prompts in their order, each with the suffix, the
    seed image and the keyword arguments, and stops at the first call of
    [generate_images] that raises: the pipeline calls it records are those
    of the first [k] prompts, with one grid displayed for each of them but
    a failing last one; when it returns, [k] is the number of prompts.  No
    image the store held before, the seed image among them, is changed. *)
Theorem style_sweep_calls lanczos pipeline_model ps image kw s :
  let run := style_sweep lanczos pipeline_model ps image kw s in
  exists k grids,
    (k <= length ps)%nat /\
    pipeline_calls (snd run) =
      pipeline_calls s ++ map (style_call image kw) (take k ps) /\
    displayed (snd run) = displayed s ++ grids /\
    (forall r im, heap s !! r = Some im -> heap (snd run) !! r = Some im) /\
    match fst run with
    | Ok _ => k = length ps /\ length grids = length ps
    | Raise _ => S (length grids) = k
    end.
Proof.
  cbn zeta. unfold style_sweep, range. rewrite Nat2Z.id.
  destruct (style_loop_effects lanczos pipeline_model ps image kw (length ps) 0%nat s
              ltac:(lia)) as (k & grids & Hk & (new & Hh) & Hc & Hd & Hres).
  cbn zeta in Hh, Hc, Hd, Hres. rewrite drop_0 in Hc.
  exists k, grids. split; [exact Hk|]. split; [exact Hc|]. split; [exact Hd|].
  split; [|exact Hres].
  intros r im Hr. rewrite Hh. apply lookup_app_l_Some. exact Hr.
Qed.

(** When the pipeline answers every prompt of the sweep with [n >= 1]
    images that [resize_and_pad] accepts, the sweep returns: it has sent
    every prompt, in order, and displayed one grid per prompt, each
    [n * size] wide and [size] high. *)
Theorem style_sweep_completes lanczos pipeline_model ps image kw s :
  1 <= kw_n kw ->
  (forall p, p ∈ ps ->
     answers lanczos pipeline_model (style_call image kw p) (kw_size kw)) ->
  exists s' grids,
    style_sweep lanczos pipeline_model ps image kw s = (Ok tt, s') /\
    pipeline_calls s' = pipeline_calls s ++ map (style_call image kw) ps /\
    displayed s' = displayed s ++ grids /\ length grids = length ps /\
    Forall (fun grid => exists g, heap s' !! grid = Some g /\
                          width g = kw_n kw * kw_size kw /\ height g = kw_size kw)
           grids.
Proof.
  intros Hn Hans. unfold style_sweep, range. rewrite Nat2Z.id.
  destruct (style_loop_ok lanczos pipeline_model ps image kw Hn (length ps) 0%nat s
              ltac:(lia)) as (s' & grids & Erun & _ & Hc & Hd & Hl & Hg).
  { intros i p _ Hp. apply Hans. apply (list_elem_of_lookup_2 _ i). exact Hp. }
  rewrite drop_0, firstn_all in Hc.
  exists s', grids. repeat split; assumption.
Qed.

Lemma style_sweep_completes_witness :
  exists s' grids,
    display_styles nearest square_pipeline 0%nat (store_with (mkImage 4 4 gradient))
      = (Ok tt, s') /\
    pipeline_calls s' =
      pipeline_calls (store_with (mkImage 4 4 gradient)) ++
      map (style_call 0%nat kwargs2) prompts /\
    displayed s' = displayed (store_with (mkImage 4 4 gradient)) ++ grids /\
    length grids = length prompts /\
    Forall (fun grid => exists g, heap s' !! grid = Some g /\
                          width g = kw_n kwargs2 * kw_size kwargs2 /\
                          height g = kw_size kwargs2)
           grids.
Proof.
  apply (style_sweep_completes nearest square_pipeline prompts 0%nat kwargs2
           (store_with (mkImage 4 4 gradient))).
  - cbn. lia.
  - intros p _ h. exists [mkImage 4 4 gradient; mkImage 4 4 gradient].
    split; [reflexivity|]. split; [reflexivity|]. repeat constructor.
Defined.

(** When the pipeline raises on the prompt at index [j], having answered
    the earlier ones, the sweep raises the same exception: the prompts
    after it are never sent, and the grids of the [j] earlier prompts have
    been displayed. *)
Theorem style_sweep_aborts lanczos pipeline_model ps image kw s j p e :
  1 <= kw_n kw ->
  ps !! j = Some p ->
  (forall i q, (i < j)%nat -> ps !! i = Some q ->
     answers lanczos pipeline_model (style_call image kw q) (kw_size kw)) ->
  (forall h, pipeline_model (style_call image kw p) h = Raise e) ->
  exists s' grids,
    style_sweep lanczos pipeline_model ps image kw s = (Raise e, s') /\
    pipeline_calls s' =
      pipeline_calls s ++ map (style_call image kw) (take (S j) ps) /\
    displayed s' = displayed s ++ grids /\ length grids = j.
Proof.
  intros Hn Hp Hans Hfail.
  pose proof (lookup_lt_Some _ _ _ Hp) as Hj.
  unfold style_sweep, range. rewrite Nat2Z.id.
  assert (seq 0 (length ps) = seq 0 j ++ seq j (S (length ps - S j))) as ->.
  { replace (length ps) with (j + S (length ps - S j))%nat at 1 by lia.
    rewrite seq_app. reflexivity. }
  rewrite style_loop_app.
  destruct (style_loop_ok lanczos pipeline_model ps image kw Hn j 0%nat s ltac:(lia))
    as (s1 & grids & Erun & _ & Hc & Hd & Hl & _).
  { intros i q Hi Hq. apply (Hans i q); [lia|exact Hq]. }
  rewrite (bind_run _ _ _ _ _ Erun).
  rewrite (style_loop_step lanczos pipeline_model ps image kw j _ s1 p Hp).
  rewrite (generate_images_pipeline_raises lanczos pipeline_model _ _ _ _ _ _ _ _ s1 e
             (Hfail (heap s1))).
  eexists _, grids. split; [reflexivity|]. cbn [pipeline_calls displayed].
  fold (style_call image kw p). rewrite drop_0 in Hc.
  split; [|split; assumption].
  rewrite Hc, (take_S_r ps j p Hp), map_app, <- app_assoc. reflexivity.
Qed.

Lemma style_sweep_aborts_witness :
  exists s' grids,
    display_styles nearest fussy_pipeline 0%nat (store_with (mkImage 4 4 gradient))
      = (Raise (ExternalError "OutOfMemoryError"), s') /\
    pipeline_calls s' =
      pipeline_calls (store_with (mkImage 4 4 gradient)) ++
      map (style_call 0%nat kwargs2) (take 2 prompts) /\
    displayed s' = displayed (store_with (mkImage 4 4 gradient)) ++ grids /\
    length grids = 1%nat.
Proof.
  apply (style_sweep_aborts nearest fussy_pipeline prompts 0%nat kwargs2
           (store_with (mkImage 4 4 gradient)) 1%nat
           "pokemon, pokemon style, anime, colorful"
           (ExternalError "OutOfMemoryError")).
  - cbn. lia.
  - reflexivity.
  - intros i q Hi Hq h. destruct i as [|i]; [|lia].
    injection Hq as <-. exists [mkImage 4 4 gradient; mkImage 4 4 gradient].
    split; [reflexivity|]. split; [reflexivity|]. repeat constructor.
  - intros h. reflexivity.
Defined.
